(** * LinkedIn scraper: field answers, action ranking and flow drivers

    A shallow embedding of [src/integrations/linkedin-scraper.ts] and proofs
    about it.  Embedded methods of [LinkedInScraper]:
    - field answers: [detectFieldIntent], [getHeuristicFieldAnswer],
      [getExpectedSalaryFallback], [normalizeInferredAnswer],
      [isAnswerCompatibleWithIntent], [inferFieldAnswer];
    - radio questions: [getPreferredAnswer], [answerRequiredBooleanQuestions];
    - external pages: [isExternalLoginRequired], [isExternalVerificationGate],
      [isExternalApplicationSubmitted], [getPageFingerprint],
      [normalizeActionSignature], [findExternalActionButton],
      [selectExternalActionWithLLM], [completeExternalApplication];
    - job cards: [getJobKey], [applyEasyApplyJobs].

    Conventions of the embedding.
    - A JavaScript string is a [string] of 8-bit code units; the model covers
      ASCII text, where [toLowerCase] only touches [A-Z] and the regular
      expression class [\s] is tab, line feed, vertical tab, form feed,
      carriage return and space.
    - [x || null] and [if (x)] on strings are written with [truthy]: the empty
      string is falsy, every other string is truthy.
    - What the browser shows (page text, attributes, whether a click went
      through) is data of the model: snapshots taken at the places where the
      source awaits Playwright.  An awaited call that can reject and is caught
      is an [Awaited] value.
    - The language model is an oracle; the prompts [inferFieldAnswer] sends
      to it are recorded in the session state. *)

From Stdlib Require Import ZArith Lia Bool Ascii String List DecimalString.
From stdpp Require Import base option list strings gmap.

Local Open Scope string_scope.
Local Open Scope nat_scope.
Local Open Scope list_scope.

(** ** JavaScript string primitives *)

Module Js.

Definition code (c : ascii) : nat := nat_of_ascii c.

Definition isUpper (c : ascii) : bool := (65 <=? code c) && (code c <=? 90).
Definition isLower (c : ascii) : bool := (97 <=? code c) && (code c <=? 122).
Definition isDigit (c : ascii) : bool := (48 <=? code c) && (code c <=? 57).

(** [\s] restricted to ASCII. *)
Definition isSpace (c : ascii) : bool :=
  ((9 <=? code c) && (code c <=? 13)) || (code c =? 32).

(** [\w] is [[A-Za-z0-9_]]. *)
Definition isWord (c : ascii) : bool :=
  isUpper c || isLower c || isDigit c || (code c =? 95).

Definition lowerChar (c : ascii) : ascii :=
  if isUpper c then ascii_of_nat (code c + 32) else c.

Fixpoint toLowerCase (s : string) : string :=
  match s with
  | EmptyString => EmptyString
  | String c s' => String (lowerChar c) (toLowerCase s')
  end.

Definition truthy (s : string) : bool :=
  match s with EmptyString => false | String _ _ => true end.

(** [s || null] for a string [s]. *)
Definition orNull (s : string) : option string :=
  if truthy s then Some s else None.

(** [s || d]. *)
Definition orElse (s d : string) : string := if truthy s then s else d.

(** Truthiness of a [string | null] value. *)
Definition truthyOpt (o : option string) : bool :=
  match o with Some s => truthy s | None => false end.

Fixpoint startsWith (s needle : string) {struct needle} : bool :=
  match needle with
  | EmptyString => true
  | String a needle' =>
      match s with
      | String b s' => Ascii.eqb a b && startsWith s' needle'
      | EmptyString => false
      end
  end.

Fixpoint includes (s needle : string) : bool :=
  startsWith s needle
  || match s with
     | EmptyString => false
     | String _ s' => includes s' needle
     end.

(** [s.substring(0, n)]. *)
Fixpoint substring0 (n : nat) (s : string) : string :=
  match n, s with
  | S n', String c s' => String c (substring0 n' s')
  | _, _ => EmptyString
  end.

Fixpoint collapseFrom (inRun : bool) (s : string) : string :=
  match s with
  | EmptyString => EmptyString
  | String c s' =>
      if isSpace c
      then (if inRun then collapseFrom true s'
            else String " " (collapseFrom true s'))
      else String c (collapseFrom false s')
  end.

(** [s.replace(/\s+/g, " ")]. *)
Definition collapseSpaces (s : string) : string := collapseFrom false s.

Fixpoint trimStart (s : string) : string :=
  match s with
  | String c s' => if isSpace c then trimStart s' else s
  | EmptyString => EmptyString
  end.

Fixpoint trimEnd (s : string) : string :=
  match s with
  | EmptyString => EmptyString
  | String c s' =>
      let t := trimEnd s' in
      if isSpace c && negb (truthy t) then EmptyString else String c t
  end.

Definition trim (s : string) : string := trimEnd (trimStart s).

(** [s.split(sep)[0]] for a one-character separator. *)
Fixpoint beforeChar (sep : ascii) (s : string) : string :=
  match s with
  | EmptyString => EmptyString
  | String c s' => if Ascii.eqb c sep then EmptyString else String c (beforeChar sep s')
  end.

(** [parts.join(sep)]. *)
Fixpoint join (sep : string) (parts : list string) : string :=
  match parts with
  | [] => EmptyString
  | [p] => p
  | p :: rest => p +:+ sep +:+ join sep rest
  end.

End Js.

(** ** A backtracking matcher for the regular expressions of the source

    Priorities follow ECMAScript: alternatives left to right, quantifiers
    greedy.  The continuation receives the character before the current
    position (for [\b]) and the text that is left. *)

Module Regex.

Inductive regex : Type :=
| REps
| RChar (p : ascii -> bool)
| RSeq (r1 r2 : regex)
| RAlt (r1 r2 : regex)
| ROpt (r : regex)
| RStar (p : ascii -> bool)
| RBol
| REol
| RWordB.

Fixpoint starClass {A} (p : ascii -> bool) (prev : option ascii) (s : string)
    (k : option ascii -> string -> option A) : option A :=
  match s with
  | String c s' =>
      if p c
      then match starClass p (Some c) s' k with
           | Some x => Some x
           | None => k prev s
           end
      else k prev s
  | EmptyString => k prev s
  end.

Definition wordBefore (prev : option ascii) : bool :=
  match prev with Some c => Js.isWord c | None => false end.

Definition wordAfter (s : string) : bool :=
  match s with String c _ => Js.isWord c | EmptyString => false end.

Fixpoint run {A} (r : regex) (prev : option ascii) (s : string)
    (k : option ascii -> string -> option A) : option A :=
  match r with
  | REps => k prev s
  | RChar p =>
      match s with
      | String c s' => if p c then k (Some c) s' else None
      | EmptyString => None
      end
  | RSeq r1 r2 => run r1 prev s (fun prev' s' => run r2 prev' s' k)
  | RAlt r1 r2 =>
      match run r1 prev s k with
      | Some x => Some x
      | None => run r2 prev s k
      end
  | ROpt r1 =>
      match run r1 prev s k with
      | Some x => Some x
      | None => k prev s
      end
  | RStar p => starClass p prev s k
  | RBol => match prev with None => k prev s | Some _ => None end
  | REol => match s with EmptyString => k prev s | String _ _ => None end
  | RWordB => if xorb (wordBefore prev) (wordAfter s) then k prev s else None
  end.

(** The text matched at the current position, if the expression matches
    there. *)
Definition matchHere (r : regex) (prev : option ascii) (s : string) : option string :=
  match run r prev s (fun _ rest => Some rest) with
  | Some rest => Some (Js.substring0 (String.length s - String.length rest) s)
  | None => None
  end.

(** [s.match(r)[0]]: the leftmost match. *)
Fixpoint searchFrom (r : regex) (prev : option ascii) (s : string) : option string :=
  match matchHere r prev s with
  | Some m => Some m
  | None =>
      match s with
      | String c s' => searchFrom r (Some c) s'
      | EmptyString => None
      end
  end.

Definition exec (r : regex) (s : string) : option string := searchFrom r None s.

Definition test (r : regex) (s : string) : bool :=
  match exec r s with Some _ => true | None => false end.

(** Building blocks; [ci] is a character under the [/i] flag. *)
Definition ci (c : ascii) : ascii -> bool :=
  fun x => Ascii.eqb (Js.lowerChar x) (Js.lowerChar c).

Definition exact (c : ascii) : ascii -> bool := fun x => Ascii.eqb x c.

Fixpoint lit (mk : ascii -> ascii -> bool) (s : string) : regex :=
  match s with
  | EmptyString => REps
  | String c EmptyString => RChar (mk c)
  | String c s' => RSeq (RChar (mk c)) (lit mk s')
  end.

Fixpoint alts (rs : list regex) : regex :=
  match rs with
  | [] => RSeq (RChar (fun _ => false)) REps
  | [r] => r
  | r :: rest => RAlt r (alts rest)
  end.

Fixpoint seqs (rs : list regex) : regex :=
  match rs with
  | [] => REps
  | [r] => r
  | r :: rest => RSeq r (seqs rest)
  end.

Definition digit : regex := RChar Js.isDigit.
Definition space : regex := RChar Js.isSpace.
Definition plus (p : ascii -> bool) : regex := RSeq (RChar p) (RStar p).

End Regex.

(** ** Configuration and session state *)

(** [answerHints]: read once from the environment when the scraper is
    constructed. *)
Record AnswerHints := {
  sponsorship : bool;
  relocate : bool;
  visa : string;
  yearsExperience : string;
  linkedInUrl : string;
  portfolioUrl : string;
  currentLocation : string;
  resumePath : string
}.

(** The environment variables the constructor reads ([None]: unset). *)
Record Env := {
  REQUIRES_SPONSORSHIP : option string;
  WILLING_TO_RELOCATE : option string;
  VISA_STATUS : option string;
  YEARS_EXPERIENCE : option string;
  LINKEDIN_URL : option string;
  PORTFOLIO_URL : option string;
  CURRENT_LOCATION : option string;
  RESUME_PATH : option string
}.

(** [process.env.X || d]. *)
Definition envOr (v : option string) (d : string) : string :=
  match v with Some s => Js.orElse s d | None => d end.

(** [process.env.X === "true"]. *)
Definition envIsTrue (v : option string) : bool :=
  match v with Some s => String.eqb s "true" | None => false end.

Definition readAnswerHints (e : Env) : AnswerHints := {|
  sponsorship := envIsTrue (REQUIRES_SPONSORSHIP e);
  relocate := envIsTrue (WILLING_TO_RELOCATE e);
  visa := envOr (VISA_STATUS e) "No";
  yearsExperience := envOr (YEARS_EXPERIENCE e) "3";
  linkedInUrl := envOr (LINKEDIN_URL e) EmptyString;
  portfolioUrl := envOr (PORTFOLIO_URL e) EmptyString;
  currentLocation := envOr (CURRENT_LOCATION e) EmptyString;
  resumePath := envOr (RESUME_PATH e) "C:\Users\amans\Downloads\AmanResume_Met.pdf"
|}.

(** [currentJobContext]. *)
Record JobContext := {
  title : string;
  company : string;
  location : string;
  description : string
}.

Definition emptyJobContext : JobContext :=
  {| title := EmptyString; company := EmptyString; location := EmptyString;
     description := EmptyString |}.

(** ** Salary fallback *)

Section Salary.
Import Regex.

Definition currency : regex :=
  alts [lit ci "$"; lit ci "usd"; lit ci "aud"; lit ci "inr"; lit ci "eur"].

(** [\d{2,3}[,\.]?\d{0,3}\s?(k|000)?] *)
Definition amount : regex :=
  seqs [digit; digit; ROpt digit;
        ROpt (RChar (fun c => Ascii.eqb c "," || Ascii.eqb c "."));
        ROpt (RSeq digit (ROpt (RSeq digit (ROpt digit))));
        ROpt space;
        ROpt (alts [lit ci "k"; lit ci "000"])].

(** [[-to]+] under [/i]. *)
Definition rangeSeparator : regex :=
  plus (fun c => Ascii.eqb c "-" || ci "t" c || ci "o" c).

(** [/(\$|usd|aud|inr|eur)\s?\d{2,3}[,\.]?\d{0,3}\s?(k|000)?\s?[-to]+\s?(\$|usd|aud|inr|eur)?\s?\d{2,3}[,\.]?\d{0,3}\s?(k|000)?/i] *)
Definition salaryRange : regex :=
  RSeq currency
    (seqs [ROpt space; amount; ROpt space; rangeSeparator; ROpt space;
           ROpt currency; ROpt space; amount]).

Definition getExpectedSalaryFallback (job : JobContext) : string :=
  let text := Js.toLowerCase (location job +:+ " " +:+ description job) in
  match exec salaryRange text with
  | Some range => Js.trim (Js.collapseSpaces range)
  | None =>
      if Js.includes text "australia" || Js.includes text "sydney"
         || Js.includes text "melbourne"
      then "AUD 130000"
      else if Js.includes text "india" || Js.includes text "bengaluru"
              || Js.includes text "bangalore"
      then "3500000"
      else "140000"
  end.

End Salary.

(** ** Field intent and heuristic answers *)

Inductive FieldIntent : Type :=
| IntentSalary
| IntentLocation
| IntentNoticePeriod
| IntentLinkedin
| IntentPortfolio
| IntentExperience
| IntentSponsorship
| IntentRelocate
| IntentVisa
| IntentGeneric.

(** The name of an intent as it is spliced into the prompt. *)
Definition intentName (i : FieldIntent) : string :=
  match i with
  | IntentSalary => "salary"
  | IntentLocation => "location"
  | IntentNoticePeriod => "notice-period"
  | IntentLinkedin => "linkedin"
  | IntentPortfolio => "portfolio"
  | IntentExperience => "experience"
  | IntentSponsorship => "sponsorship"
  | IntentRelocate => "relocate"
  | IntentVisa => "visa"
  | IntentGeneric => "generic"
  end.

#[global] Instance FieldIntent_eq_dec : EqDecision FieldIntent.
Proof. solve_decision. Defined.

(** [a === b] on intents. *)
Definition intentIs (a b : FieldIntent) : bool := bool_decide (a = b).

Definition detectFieldIntent (fieldContext fieldType : string) : FieldIntent :=
  let context := Js.toLowerCase fieldContext in
  if Js.includes context "salary" || Js.includes context "compensation"
     || Js.includes context "ctc"
  then IntentSalary
  else if Js.includes context "location" || Js.includes context "city"
  then IntentLocation
  else if Js.includes context "notice period" || Js.includes context "join"
          || Js.includes context "start date"
  then IntentNoticePeriod
  else if Js.includes context "linkedin"
  then IntentLinkedin
  else if Js.includes context "portfolio" || Js.includes context "website"
  then IntentPortfolio
  else if Js.includes context "visa" || Js.includes context "work authorization"
          || Js.includes context "work permit"
  then IntentVisa
  else if Js.includes context "sponsor" || Js.includes context "sponsorship"
  then IntentSponsorship
  else if Js.includes context "relocat"
  then IntentRelocate
  else if Js.includes context "experience" || String.eqb fieldType "number"
  then IntentExperience
  else IntentGeneric.

Definition yesNo (b : bool) : string := if b then "Yes" else "No".

Definition getHeuristicFieldAnswer (hints : AnswerHints) (job : JobContext)
    (fieldContext fieldType : string) : option string :=
  let context := Js.toLowerCase fieldContext in
  if Js.includes context "salary" || Js.includes context "compensation"
     || Js.includes context "ctc"
  then Some (getExpectedSalaryFallback job)
  else if Js.includes context "notice period" || Js.includes context "join"
          || Js.includes context "start date"
  then Some "2 weeks"
  else if Js.includes context "linkedin"
  then Js.orNull (linkedInUrl hints)
  else if Js.includes context "portfolio" || Js.includes context "website"
  then Js.orNull (portfolioUrl hints)
  else if Js.includes context "location" || Js.includes context "city"
  then Js.orNull (currentLocation hints)
  else if Js.includes context "visa" || Js.includes context "work authorization"
          || Js.includes context "sponsor"
  then Some (yesNo (sponsorship hints))
  else if Js.includes context "relocat"
  then Some (yesNo (relocate hints))
  else if Js.includes context "experience" || String.eqb fieldType "number"
  then Some (yearsExperience hints)
  else None.

(** ** Post-processing of a model answer *)

Section AnswerShape.
Import Regex.

(** [/-?\d+(\.\d+)?/] *)
Definition numberToken : regex :=
  seqs [ROpt (RChar (exact "-")); plus Js.isDigit;
        ROpt (RSeq (RChar (exact ".")) (plus Js.isDigit))].

(** [/^-?\d+(\.\d+)?$/] *)
Definition bareNumber : regex := seqs [RBol; numberToken; REol].

(** [/\$|usd|aud|inr|eur|salary|compensation|ctc|k\b|per\s*(year|annum|hour)/i] *)
Definition salarySignal : regex :=
  alts [lit ci "$"; lit ci "usd"; lit ci "aud"; lit ci "inr"; lit ci "eur";
        lit ci "salary"; lit ci "compensation"; lit ci "ctc";
        RSeq (lit ci "k") RWordB;
        seqs [lit ci "per"; RStar Js.isSpace;
              alts [lit ci "year"; lit ci "annum"; lit ci "hour"]]].

Definition normalizeInferredAnswer (value fieldType : string) : option string :=
  if negb (Js.truthy value) then None
  else
    let compact := Js.trim (Js.collapseSpaces value) in
    if negb (Js.truthy compact) then None
    else if String.eqb fieldType "number"
    then exec numberToken compact
    else Some (Js.substring0 220 compact).

Definition isAnswerCompatibleWithIntent (value : option string)
    (intent : FieldIntent) (fieldType : string) : bool :=
  if negb (Js.truthyOpt value) then false
  else
    let normalized := Js.toLowerCase (Js.trim (default EmptyString value)) in
    let hasSalarySignal := test salarySignal normalized in
    let hasDigits := test digit normalized in
    if intentIs intent IntentLocation then negb hasSalarySignal
    else if intentIs intent IntentSalary then hasSalarySignal || hasDigits
    else if intentIs intent IntentExperience || String.eqb fieldType "number"
    then test bareNumber normalized
    else if intentIs intent IntentSponsorship || intentIs intent IntentRelocate
            || intentIs intent IntentVisa
    then String.eqb normalized "yes" || String.eqb normalized "no"
    else true.

End AnswerShape.

Definition isQuote (c : ascii) : bool := (Js.code c =? 34) || (Js.code c =? 39).

Definition stripLeadingQuote (s : string) : string :=
  match s with
  | String c s' => if isQuote c then s' else s
  | EmptyString => EmptyString
  end.

Fixpoint stripTrailingQuote (s : string) : string :=
  match s with
  | EmptyString => EmptyString
  | String c EmptyString => if isQuote c then EmptyString else s
  | String c s' => String c (stripTrailingQuote s')
  end.

(** [s.replace(/^["']|["']$/g, "")], the quote set being the double and the
    single quote. *)
Definition stripWrappingQuotes (s : string) : string :=
  stripTrailingQuote (stripLeadingQuote s).

(** ** The language-model collaborator *)

(** What an awaited call gives: a value, or a rejection the caller catches. *)
Inductive Awaited (T : Type) : Type :=
| Resolved (v : T)
| Rejected.
Arguments Resolved {T} v.
Arguments Rejected {T}.

(** [LLMResponse<T>]: only the fields the scraper reads. *)
Record LLMResponse (T : Type) : Type := {
  success : bool;
  data : option T
}.
Arguments success {T} _.
Arguments data {T} _.

(** The parsed answer of the action-selection call; [choice] is
    [Number(data.choice)] when that is an integer. *)
Record ActionChoice := {
  choice : option Z;
  reason : string
}.

Record OllamaClient := {
  generate : string -> Awaited (LLMResponse string);
  generateJSON : string -> string -> Awaited (LLMResponse ActionChoice)
}.

(** The candidate variables read when a prompt or a form value is built. *)
Record CandidateEnv := {
  CANDIDATE_NAME : option string;
  CANDIDATE_EMAIL : option string;
  CANDIDATE_PHONE : option string
}.

(** The fields of [LinkedInScraper] the modelled methods touch.  [llmCalls]
    records the prompts sent to the model, newest first; the source has no
    such field. *)
Record Scraper := {
  llm : option OllamaClient;
  llmAvailable : bool;
  answerHints : AnswerHints;
  candidateEnv : CandidateEnv;
  currentJobContext : JobContext;
  inferredAnswerCache : gmap string string;
  processedJobKeys : gset string;
  llmCalls : list string
}.

Definition withCache (st : Scraper) (c : gmap string string) : Scraper :=
  {| llm := llm st; llmAvailable := llmAvailable st; answerHints := answerHints st;
     candidateEnv := candidateEnv st; currentJobContext := currentJobContext st;
     inferredAnswerCache := c; processedJobKeys := processedJobKeys st;
     llmCalls := llmCalls st |}.

Definition withLlmCall (st : Scraper) (prompt : string) : Scraper :=
  {| llm := llm st; llmAvailable := llmAvailable st; answerHints := answerHints st;
     candidateEnv := candidateEnv st; currentJobContext := currentJobContext st;
     inferredAnswerCache := inferredAnswerCache st;
     processedJobKeys := processedJobKeys st;
     llmCalls := prompt :: llmCalls st |}.

Definition withLlm (st : Scraper) (client : option OllamaClient) (available : bool)
    : Scraper :=
  {| llm := client; llmAvailable := available; answerHints := answerHints st;
     candidateEnv := candidateEnv st; currentJobContext := currentJobContext st;
     inferredAnswerCache := inferredAnswerCache st;
     processedJobKeys := processedJobKeys st;
     llmCalls := llmCalls st |}.

Definition withJob (st : Scraper) (job : JobContext) : Scraper :=
  {| llm := llm st; llmAvailable := llmAvailable st; answerHints := answerHints st;
     candidateEnv := candidateEnv st; currentJobContext := job;
     inferredAnswerCache := inferredAnswerCache st;
     processedJobKeys := processedJobKeys st;
     llmCalls := llmCalls st |}.

Definition withProcessedJobKeys (st : Scraper) (keys : gset string) : Scraper :=
  {| llm := llm st; llmAvailable := llmAvailable st; answerHints := answerHints st;
     candidateEnv := candidateEnv st; currentJobContext := currentJobContext st;
     inferredAnswerCache := inferredAnswerCache st;
     processedJobKeys := keys;
     llmCalls := llmCalls st |}.

(** ** inferFieldAnswer *)

Definition newline : string := String (ascii_of_nat 10) EmptyString.
Definition dquote : string := String (ascii_of_nat 34) EmptyString.

Definition fieldSystemPrompt : string :=
  Js.join newline
    ["You answer job application form fields for the candidate.";
     "Return only the exact value for the field. No explanation, no markdown."].

Definition fieldUserPrompt (st : Scraper) (fieldContext fieldType : string)
    (intent : FieldIntent) : string :=
  let hints := answerHints st in
  let job := currentJobContext st in
  let cand := candidateEnv st in
  Js.join newline
    ["Field hint: " +:+ fieldContext;
     "Field type: " +:+ fieldType;
     "Field intent: " +:+ intentName intent;
     EmptyString;
     "Candidate profile:";
     "- Name: " +:+ envOr (CANDIDATE_NAME cand) "Candidate";
     "- Email: " +:+ envOr (CANDIDATE_EMAIL cand) EmptyString;
     "- Phone: " +:+ envOr (CANDIDATE_PHONE cand) EmptyString;
     "- Years experience: " +:+ yearsExperience hints;
     "- Current location: " +:+ Js.orElse (currentLocation hints) "Not specified";
     "- Needs sponsorship: " +:+ yesNo (sponsorship hints);
     "- Will relocate: " +:+ yesNo (relocate hints);
     "- LinkedIn: " +:+ Js.orElse (linkedInUrl hints) "N/A";
     "- Portfolio: " +:+ Js.orElse (portfolioUrl hints) "N/A";
     EmptyString;
     "Job context:";
     "- Title: " +:+ Js.orElse (title job) "Unknown";
     "- Company: " +:+ Js.orElse (company job) "Unknown";
     "- Location: " +:+ Js.orElse (location job) "Unknown";
     "- Description snippet: " +:+ Js.substring0 1200 (description job);
     EmptyString;
     "If this is compensation/salary related, provide a realistic expected amount or range for this role/location.";
     "If it asks yes/no, return just " +:+ dquote +:+ "Yes" +:+ dquote +:+ " or "
       +:+ dquote +:+ "No" +:+ dquote +:+ ".";
     "If numeric field, return digits only unless range is explicitly requested."].

(** [`${fieldType}:${fieldContext}`.substring(0, 300).toLowerCase()] *)
Definition cacheKey (fieldContext fieldType : string) : string :=
  Js.toLowerCase (Js.substring0 300 (fieldType +:+ ":" +:+ fieldContext)).

Definition shouldPreferHeuristic (intent : FieldIntent) : bool :=
  intentIs intent IntentLocation || intentIs intent IntentNoticePeriod
  || intentIs intent IntentExperience || intentIs intent IntentLinkedin
  || intentIs intent IntentPortfolio || intentIs intent IntentSponsorship
  || intentIs intent IntentRelocate || intentIs intent IntentVisa.

(** [if (v) cache.set(key, v); return v;] *)
Definition cacheAndReturn (key : string) (v : option string) (st : Scraper)
    : option string * Scraper :=
  match v with
  | Some a =>
      if Js.truthy a
      then (v, withCache st (<[key := a]> (inferredAnswerCache st)))
      else (v, st)
  | None => (None, st)
  end.

(** [response.success && response.data ? response.data : ""] *)
Definition responseText (r : LLMResponse string) : string :=
  if success r && Js.truthyOpt (data r)
  then default EmptyString (data r)
  else EmptyString.

Definition askModel (client : OllamaClient) (key fieldContext fieldType : string)
    (intent : FieldIntent) (heuristic : option string) (st : Scraper)
    : option string * Scraper :=
  let prompt :=
    fieldSystemPrompt +:+ newline +:+ newline
      +:+ fieldUserPrompt st fieldContext fieldType intent in
  let st1 := withLlmCall st prompt in
  match generate client prompt with
  | Resolved response =>
      let raw := stripWrappingQuotes (Js.trim (responseText response)) in
      let normalized := normalizeInferredAnswer raw fieldType in
      let cleaned :=
        if isAnswerCompatibleWithIntent normalized intent fieldType
        then normalized else heuristic in
      cacheAndReturn key cleaned st1
  | Rejected => cacheAndReturn key heuristic st1
  end.

Definition inferFieldAnswer (fieldContext fieldType : string) (st : Scraper)
    : option string * Scraper :=
  let key := cacheKey fieldContext fieldType in
  let cached := inferredAnswerCache st !! key in
  if Js.truthyOpt cached then (cached, st)
  else
    let intent := detectFieldIntent fieldContext fieldType in
    let heuristic :=
      getHeuristicFieldAnswer (answerHints st) (currentJobContext st)
        fieldContext fieldType in
    match llm st with
    | Some client =>
        if llmAvailable st
        then
          if shouldPreferHeuristic intent && Js.truthyOpt heuristic
          then cacheAndReturn key heuristic st
          else askModel client key fieldContext fieldType intent heuristic st
        else cacheAndReturn key heuristic st
    | None => cacheAndReturn key heuristic st
    end.

(** The field types the two call sites pass: [autoFillForm] passes
    [type || "text"] for a [type] attribute that is one of these literals or
    absent; [autoFillExternalFormInContext] passes ["number"] or ["text"]. *)
Definition callerFieldTypes : list string :=
  ["text"; "number"; "search"; "url"; "tel"; "email"].

(** The guard and argument of the call in [autoFillForm]: [None] when the
    field is not handed to [inferFieldAnswer]. *)
Definition autoFillFormFieldType (required : bool) (type : option string)
    : option string :=
  if required
  then match type with
       | None => Some "text"
       | Some t =>
           if String.eqb t "text" || String.eqb t "number" || String.eqb t "search"
              || String.eqb t "url" || String.eqb t "tel" || String.eqb t "email"
           then Some (Js.orElse t "text")
           else None
       end
  else None.

(** ** Radio questions *)

Definition getPreferredAnswer (hints : AnswerHints) (questionText : string) : string :=
  let q := Js.toLowerCase questionText in
  if Js.includes q "sponsor" || Js.includes q "sponsorship"
  then (if sponsorship hints then "yes" else "no")
  else if Js.includes q "relocat"
  then (if relocate hints then "yes" else "no")
  else if Js.includes q "visa" || Js.includes q "work authorization"
          || Js.includes q "work permit"
  then (if String.eqb (Js.toLowerCase (visa hints)) "yes" then "yes" else "no")
  else "yes".

(** An [input[type='radio']] of the form.  [checkWorks]: [radio.check()]
    resolves; [forcedClickSelects]: the forced click of the fallback selects
    the radio.  Radios with the same non-empty [radioName] exclude each
    other, as in a browser. *)
Record Radio := {
  radioId : option string;
  radioName : string;
  wrappingLabel : string;
  radioChecked : bool;
  checkWorks : bool;
  forcedClickSelects : bool
}.

(** A [fieldset] or [role='group'] element: its text content (the read can
    reject) and the radios below it, as indices into the radios of the root in
    document order. *)
Record RadioGroup := {
  groupText : Awaited (option string);
  groupRadios : list nat
}.

(** The form root (page, frame or modal) as the method sees it.  [labelsFor]
    lists the [label] elements with a [for] attribute and their text. *)
Record FormRoot := {
  rootClosed : bool;
  rootDetached : bool;
  labelsFor : list (string * string);
  radios : list Radio;
  groups : Awaited (list RadioGroup)
}.

Definition withRadios (root : FormRoot) (rs : list Radio) : FormRoot :=
  {| rootClosed := rootClosed root; rootDetached := rootDetached root;
     labelsFor := labelsFor root; radios := rs; groups := groups root |}.

Definition setChecked (r : Radio) (b : bool) : Radio :=
  {| radioId := radioId r; radioName := radioName r;
     wrappingLabel := wrappingLabel r; radioChecked := b;
     checkWorks := checkWorks r; forcedClickSelects := forcedClickSelects r |}.

(** Text of the first [label[for="id"]], the empty string when there is none. *)
Fixpoint labelForText (labels : list (string * string)) (id : string) : string :=
  match labels with
  | [] => EmptyString
  | (k, v) :: rest => if String.eqb k id then v else labelForText rest id
  end.

Definition radioLabelText (labels : list (string * string)) (r : Radio) : string :=
  let byFor :=
    match radioId r with
    | Some id =>
        if Js.truthy id then Js.toLowerCase (labelForText labels id)
        else EmptyString
    | None => EmptyString
    end in
  if Js.truthy byFor then byFor else Js.toLowerCase (wrappingLabel r).

(** The browser's reaction to selecting radio [i]. *)
Definition selectRadio (i : nat) (rs : list Radio) : list Radio :=
  match rs !! i with
  | Some r =>
      imap (fun j x =>
              if j =? i then setChecked x true
              else if Js.truthy (radioName r) && String.eqb (radioName x) (radioName r)
                   then setChecked x false
                   else x) rs
  | None => rs
  end.

(** [radio.check().catch(() => radio.click({force: true}).catch(() => {}))] *)
Definition checkOrForceClick (i : nat) (rs : list Radio) : list Radio :=
  match rs !! i with
  | Some r => if checkWorks r || forcedClickSelects r then selectRadio i rs else rs
  | None => rs
  end.

(** The inner loop: the first radio whose label text includes the preferred
    answer. *)
Fixpoint firstPreferred (labels : list (string * string)) (rs : list Radio)
    (preferred : string) (idxs : list nat) : option nat :=
  match idxs with
  | [] => None
  | i :: rest =>
      match rs !! i with
      | Some r =>
          if Js.includes (radioLabelText labels r) preferred then Some i
          else firstPreferred labels rs preferred rest
      | None => firstPreferred labels rs preferred rest
      end
  end.

(** The radio the loop body settles on for a group with radios. *)
Definition chosenRadio (hints : AnswerHints) (labels : list (string * string))
    (rs : list Radio) (text : option string) (idxs : list nat) : option nat :=
  match idxs with
  | [] => None
  | first :: _ =>
      let preferred :=
        getPreferredAnswer hints (Js.toLowerCase (default EmptyString text)) in
      match firstPreferred labels rs preferred idxs with
      | Some i => Some i
      | None => Some first
      end
  end.

Definition answerGroup (hints : AnswerHints) (labels : list (string * string))
    (rs : list Radio) (g : RadioGroup) : list Radio :=
  match groupText g with
  | Rejected => rs
  | Resolved text =>
      match chosenRadio hints labels rs text (groupRadios g) with
      | Some i => checkOrForceClick i rs
      | None => rs
      end
  end.

Definition answerRequiredBooleanQuestions (hints : AnswerHints) (root : FormRoot)
    : FormRoot :=
  if rootClosed root then root
  else if rootDetached root then root
  else
    let gs := match groups root with Resolved gs => gs | Rejected => [] end in
    withRadios root (fold_left (answerGroup hints (labelsFor root)) gs (radios root)).

Definition isSelected (rs : list Radio) (i : nat) : bool :=
  match rs !! i with Some r => radioChecked r | None => false end.

(** The radios of a group that are selected. *)
Definition selectedIn (rs : list Radio) (g : RadioGroup) : list nat :=
  List.filter (isSelected rs) (groupRadios g).

(** *** Forms on which every selection takes effect

    The conditions under which the method can keep its promise: the root is
    open and attached, each group with radios is readable, its radios are
    distinct and share one non-empty name that no other group uses, and the
    radio the method settles on can be checked or force-clicked. *)







(** ** External pages *)

(** A clickable control, with the attribute reads of the ranker already
    defaulted to the empty string; [tagName] is the lower-cased tag name. *)
Record Control := {
  visible : bool;
  disabled : bool;
  textContent : string;
  ariaLabel : string;
  valueAttr : string;
  typeAttr : string;
  href : string;
  tagName : string;
  inForm : bool
}.

(** A page or one of its attached frames ([getExternalContexts]). *)
Record Surface := {
  submittedIndicator : bool;
  controls : list Control
}.

Record Page := {
  closed : bool;
  url : string;
  pageTitle : string;
  bodyText : string;
  surfaces : list Surface
}.

Definition urlHasLoginToken (p : Page) : bool :=
  let u := Js.toLowerCase (url p) in
  Js.includes u "login" || Js.includes u "sign-in" || Js.includes u "signin"
  || Js.includes u "auth".

Definition hasLoginCue (p : Page) : bool :=
  let text := Js.toLowerCase (bodyText p) in
  Js.includes text "sign in" || Js.includes text "log in"
  || Js.includes text "create account" || Js.includes text "forgot password".

Definition hasCredentialCue (p : Page) : bool :=
  let text := Js.toLowerCase (bodyText p) in
  Js.includes text "password" || Js.includes text "continue with google"
  || Js.includes text "continue with linkedin".

Definition isExternalLoginRequired (p : Page) : bool :=
  if urlHasLoginToken p then true
  else hasLoginCue p && hasCredentialCue p.

(** The detector as the specification words it: URL token and both cues. *)
Definition loginWallAsSpecified (p : Page) : bool :=
  urlHasLoginToken p && (hasLoginCue p && hasCredentialCue p).

Definition isExternalVerificationGate (p : Page) : bool :=
  let text := Js.toLowerCase (bodyText p) in
  Js.includes text "captcha" || Js.includes text "verify you are human"
  || Js.includes text "security check" || Js.includes text "cloudflare"
  || Js.includes text "unusual traffic".

Definition isExternalApplicationSubmitted (p : Page) : bool :=
  if existsb submittedIndicator (surfaces p) then true
  else
    let u := Js.toLowerCase (url p) in
    Js.includes u "thank-you" || Js.includes u "application-confirmation"
    || Js.includes u "/submitted/" || Js.includes u "application-submitted"
    || Js.includes u "submission-complete".

Definition getPageFingerprint (p : Page) : string :=
  if closed p then "closed"
  else
    let u := Js.beforeChar "?" (Js.beforeChar "#" (url p)) in
    let snippet := Js.substring0 260 (Js.toLowerCase (Js.collapseSpaces (bodyText p))) in
    u +:+ "|" +:+ pageTitle p +:+ "|" +:+ snippet.

Definition normalizeActionSignature (label : string) : string :=
  Js.substring0 120 (Js.trim (Js.collapseSpaces (Js.toLowerCase label))).

(** ** Action ranking *)

Record ActionCandidate := {
  locator : nat * nat;
  label : string;
  score : Z
}.

Definition isInformationalAction (combined : string) : bool :=
  Js.includes combined "how to apply" || Js.includes combined "learn more"
  || Js.includes combined "read more" || Js.includes combined "view details"
  || Js.includes combined "job details" || Js.includes combined "about this role".

Definition isAuthAction (combined : string) : bool :=
  Js.includes combined "sign in" || Js.includes combined "log in"
  || Js.includes combined "create account" || Js.includes combined "register"
  || Js.includes combined "continue with google"
  || Js.includes combined "continue with linkedin"
  || Js.includes combined "with linkedin" || Js.includes combined "with google"
  || Js.includes combined "with apple" || Js.includes combined "with indeed".

Definition isNegativeAction (combined : string) : bool :=
  Js.includes combined "cancel" || Js.includes combined "close"
  || Js.includes combined "discard" || Js.includes combined "back"
  || Js.includes combined "previous".

Definition isUtilityAction (combined : string) : bool :=
  Js.includes combined "toggle flyout" || Js.includes combined "remove file"
  || Js.includes combined "dropbox" || Js.includes combined "google drive"
  || Js.includes combined "attach" || Js.includes combined "upload from"
  || Js.includes combined "enter manually" || Js.includes combined "share"
  || Js.includes combined "copy link".

Definition hasPrimaryActionIntent (combined : string) : bool :=
  Js.includes combined "submit" || Js.includes combined "apply"
  || Js.includes combined "continue" || Js.includes combined "next"
  || Js.includes combined "review" || Js.includes combined "start"
  || Js.includes combined "begin" || Js.includes combined "proceed"
  || Js.includes combined "finish" || Js.includes combined "complete".

Definition hasSecondaryActionIntent (combined : string) : bool :=
  Js.includes combined "i accept" || Js.includes combined "accept"
  || Js.includes combined "agree".

Definition combinedText (c : Control) : string :=
  Js.trim (Js.collapseSpaces
    (Js.toLowerCase (textContent c) +:+ " " +:+ Js.toLowerCase (ariaLabel c)
       +:+ " " +:+ Js.toLowerCase (valueAttr c))).

Definition keywordScore (combined : string) : Z :=
  if Js.includes combined "submit application" then 120
  else if Js.includes combined "submit" then 110
  else if Js.includes combined "complete application"
          || Js.includes combined "finish application" then 100
  else if Js.includes combined "start application"
          || Js.includes combined "begin application" then 95
  else if Js.includes combined "apply now" then 90
  else if String.eqb combined "apply" || Js.startsWith combined "apply " then 80
  else if Js.includes combined "send" then 78
  else if Js.includes combined "continue" || Js.includes combined "next" then 70
  else if Js.includes combined "review" then 65
  else if Js.includes combined "apply" then 45
  else 0.

Definition hrefPenalty (hrefLower : string) (inForm : bool) : Z :=
  if Js.truthy hrefLower
  then
    if Js.includes hrefLower "how-to-apply"
       || Js.includes hrefLower "candidate-how-to-apply"
       || Js.includes hrefLower "/help" || Js.includes hrefLower "/faq"
    then (-100)
    else if Js.startsWith hrefLower "http" && negb (Js.includes hrefLower "apply")
            && negb (Js.includes hrefLower "job") && negb inForm
    then (-40)
    else 0
  else 0.

(** The body of the inner loop of [findExternalActionButton]: [None] for
    each [continue], the pushed candidate otherwise. *)
Definition rankControl (excludeSignatures : gset string) (where_ : nat * nat)
    (c : Control) : option ActionCandidate :=
  if negb (visible c) then None
  else if disabled c then None
  else
    let candidateType := Js.toLowerCase (typeAttr c) in
    let hrefLower := Js.toLowerCase (href c) in
    let combined := combinedText c in
    if negb (Js.truthy combined) then None
    else if isInformationalAction combined then None
    else if isAuthAction combined then None
    else if isNegativeAction combined then None
    else if isUtilityAction combined then None
    else if bool_decide (normalizeActionSignature combined ∈ excludeSignatures) then None
    else
      let looksLikeSubmitControl :=
        String.eqb candidateType "submit"
        || (String.eqb (tagName c) "button" && (String.length combined <=? 24)
            && Js.includes combined "submit") in
      if negb (hasPrimaryActionIntent combined) && negb looksLikeSubmitControl
         && negb (hasSecondaryActionIntent combined)
      then None
      else
        let score :=
          ((if inForm c then 25 else 0)
           + (if String.eqb (tagName c) "button" || String.eqb (tagName c) "input"
              then 10 else 0)
           + keywordScore combined
           + (if String.eqb candidateType "submit" then 40 else 0)
           + hrefPenalty hrefLower (inForm c))%Z in
        if (score <=? 0)%Z then None
        else Some {| locator := where_; label := combined; score := score |}.

Definition rankSurface (excludeSignatures : gset string) (si : nat) (s : Surface)
    : list ActionCandidate :=
  omap (fun x => x) (imap (fun i c => rankControl excludeSignatures (si, i) c) (controls s)).

Definition rankPage (excludeSignatures : gset string) (p : Page) : list ActionCandidate :=
  concat (imap (rankSurface excludeSignatures) (surfaces p)).

(** [sort((a, b) => b.score - a.score)]: descending by score, stable.  The
    candidates are inserted from the last to the first, each before the first
    one that does not score higher, so that equal scores keep their order. *)
Fixpoint insertByScore (c : ActionCandidate) (sorted : list ActionCandidate)
    : list ActionCandidate :=
  match sorted with
  | [] => [c]
  | d :: rest =>
      if (score d <=? score c)%Z then c :: d :: rest
      else d :: insertByScore c rest
  end.

Definition sortByScore (cs : list ActionCandidate) : list ActionCandidate :=
  foldr insertByScore [] cs.

Definition actionSystemPrompt : string :=
  Js.join newline
    ["You are selecting the single next button for an external job application flow.";
     "Choose the option that most likely progresses or submits the application.";
     "Avoid informational/navigation links like " +:+ dquote +:+ "how to apply" +:+ dquote
       +:+ ", " +:+ dquote +:+ "learn more" +:+ dquote +:+ ", " +:+ dquote +:+ "about"
       +:+ dquote +:+ ", " +:+ dquote +:+ "faq" +:+ dquote +:+ ", " +:+ dquote +:+ "back"
       +:+ dquote +:+ ", " +:+ dquote +:+ "close" +:+ dquote +:+ ", " +:+ dquote
       +:+ "share" +:+ dquote +:+ ".";
     "Return only JSON."].

Definition showNat (n : nat) : string := NilZero.string_of_uint (Nat.to_uint n).
Definition showZ (z : Z) : string := NilZero.string_of_int (Z.to_int z).

Definition actionUserPrompt (p : Page) (candidates : list ActionCandidate) : string :=
  let pageSnippet := Js.substring0 1400 (Js.collapseSpaces (bodyText p)) in
  let options :=
    Js.join newline
      (imap (fun idx c =>
               showNat idx +:+ ": " +:+ label c +:+ " (heuristicScore="
                 +:+ showZ (score c) +:+ ")") candidates) in
  Js.join newline
    ["URL: " +:+ url p;
     "Candidates:";
     options;
     EmptyString;
     "Page text snippet:";
     pageSnippet;
     EmptyString;
     "Return:";
     "{";
     "  " +:+ dquote +:+ "choice" +:+ dquote +:+ ": number,";
     "  " +:+ dquote +:+ "intent" +:+ dquote +:+ ": " +:+ dquote
       +:+ "submit|progress|start|none" +:+ dquote +:+ ",";
     "  " +:+ dquote +:+ "reason" +:+ dquote +:+ ": string";
     "}"].

Definition selectExternalActionWithLLM (st : Scraper) (p : Page)
    (candidates : list ActionCandidate) : option ActionCandidate :=
  match llm st with
  | None => None
  | Some client =>
      if negb (llmAvailable st) then None
      else if (length candidates =? 0) then None
      else
        match generateJSON client actionSystemPrompt (actionUserPrompt p candidates) with
        | Rejected => None
        | Resolved response =>
            if negb (success response) then None
            else
              match data response with
              | None => None
              | Some d =>
                  match choice d with
                  | None => None
                  | Some z =>
                      if (z <? 0)%Z || (Z.of_nat (length candidates) <=? z)%Z then None
                      else candidates !! Z.to_nat z
                  end
              end
        end
  end.

Definition findExternalActionButton (st : Scraper) (p : Page)
    (excludeSignatures : gset string) : option ActionCandidate :=
  let rankedCandidates := sortByScore (rankPage excludeSignatures p) in
  match rankedCandidates with
  | [] => None
  | top :: _ =>
      match selectExternalActionWithLLM st p (take 8 rankedCandidates) with
      | Some llmChoice => Some llmChoice
      | None => Some top
      end
  end.

(** ** External application flow *)

Inductive ExternalStatus : Type := Submitted | Failed | Skipped.

(** What one iteration of the step loop observes.  The site can change
    between the awaits, so each place the source looks at the page has its
    own snapshot. *)
Record StepView := {
  atStart : Page;
  afterFill : Page;
  afterPause : Page;
  clickWorks : bool;
  afterClick : Page
}.

Record ExternalSite := {
  views : nat -> StepView;
  atEnd : Page
}.

(** What the driver does, in order.  [FilledForm] stands for a call of
    [autoFillExternalForm], whose field writes are not part of this model;
    [Clicked] carries the fingerprints taken before and after the click. *)
Inductive FlowEvent : Type :=
| PageWasClosed
| SawLoginWall
| SawVerificationGate
| FilledForm (step : nat)
| NoActionFound
| ClickFailed (label : string)
| Clicked (label before after : string)
| NoProgressExit.

Record FlowState := {
  clickedAtLeastOneAction : bool;
  noProgressStreak : nat;
  attemptedActionsByFingerprint : gmap string (gset string)
}.

Definition initialFlowState : FlowState :=
  {| clickedAtLeastOneAction := false; noProgressStreak := 0;
     attemptedActionsByFingerprint := ∅ |}.

Inductive StepResult : Type :=
| Return (status : ExternalStatus)
| Break (s : FlowState)
| Continue (s : FlowState).

(** [getLocatorText] on a control. *)
Definition getLocatorText (c : Control) : string :=
  let text := Js.trim (textContent c) in
  if Js.truthy text then Js.substring0 120 (Js.collapseSpaces text)
  else
    let aria := Js.trim (ariaLabel c) in
    if Js.truthy aria then Js.substring0 120 (Js.collapseSpaces aria)
    else Js.substring0 120 (Js.collapseSpaces (Js.trim (valueAttr c))).

Definition controlAt (p : Page) (where_ : nat * nat) : option Control :=
  match surfaces p !! fst where_ with
  | Some s => controls s !! snd where_
  | None => None
  end.

(** [actionCandidate.label || (await this.getLocatorText(actionCandidate.locator))] *)
Definition buttonLabelOf (p : Page) (c : ActionCandidate) : string :=
  if Js.truthy (label c) then label c
  else match controlAt p (locator c) with
       | Some ctl => getLocatorText ctl
       | None => EmptyString
       end.

Definition failedOrSkipped (clicked : bool) : ExternalStatus :=
  if clicked then Failed else Skipped.

(** One pass through the body of the [for] loop. *)
Definition externalStep (st : Scraper) (step : nat) (v : StepView) (s : FlowState)
    : StepResult * list FlowEvent :=
  if closed (atStart v) then (Return Submitted, [PageWasClosed])
  else if isExternalLoginRequired (atStart v) then (Return Skipped, [SawLoginWall])
  else if isExternalVerificationGate (atStart v)
  then (Return Skipped, [SawVerificationGate])
  else
    let page := afterFill v in
    if isExternalApplicationSubmitted page then (Return Submitted, [FilledForm step])
    else
      let beforeFingerprint := getPageFingerprint page in
      let excludeSignatures :=
        default ∅ (attemptedActionsByFingerprint s !! beforeFingerprint) in
      match findExternalActionButton st page excludeSignatures with
      | None =>
          if isExternalApplicationSubmitted (afterPause v)
          then (Return Submitted, [FilledForm step; NoActionFound])
          else (Break s, [FilledForm step; NoActionFound])
      | Some actionCandidate =>
          let buttonLabel := buttonLabelOf page actionCandidate in
          if negb (clickWorks v)
          then (Break s, [FilledForm step; ClickFailed buttonLabel])
          else
            let afterFingerprint := getPageFingerprint (afterClick v) in
            let unchanged := String.eqb afterFingerprint beforeFingerprint in
            let attempted :=
              default ∅ (attemptedActionsByFingerprint s !! beforeFingerprint) in
            let s' :=
              if unchanged
              then {| clickedAtLeastOneAction := true;
                      noProgressStreak := S (noProgressStreak s);
                      attemptedActionsByFingerprint :=
                        <[beforeFingerprint :=
                            {[normalizeActionSignature buttonLabel]} ∪ attempted]>
                          (attemptedActionsByFingerprint s) |}
              else {| clickedAtLeastOneAction := true;
                      noProgressStreak := 0;
                      attemptedActionsByFingerprint :=
                        attemptedActionsByFingerprint s |} in
            let done_ :=
              [FilledForm step;
               Clicked buttonLabel beforeFingerprint afterFingerprint] in
            if 3 <=? noProgressStreak s'
            then (Return (failedOrSkipped (clickedAtLeastOneAction s')),
                  done_ ++ [NoProgressExit])
            else (Continue s', done_)
      end.

(** [for (let step = ...; step < 14; step++)], [fuel] being the iterations
    that are left.  [inl]: the loop returned; [inr]: it ended or broke. *)
Fixpoint externalLoop (st : Scraper) (site : ExternalSite) (fuel step : nat)
    (s : FlowState) : (ExternalStatus + FlowState) * list FlowEvent :=
  match fuel with
  | 0 => (inr s, [])
  | S fuel' =>
      match externalStep st step (views site step) s with
      | (Return status, evs) => (inl status, evs)
      | (Break s', evs) => (inr s', evs)
      | (Continue s', evs) =>
          let (r, evs') := externalLoop st site fuel' (S step) s' in
          (r, evs ++ evs')
      end
  end.

Definition completeExternalApplication (st : Scraper) (site : ExternalSite)
    : ExternalStatus * list FlowEvent :=
  match externalLoop st site 14 0 initialFlowState with
  | (inl status, evs) => (status, evs)
  | (inr s, evs) =>
      if isExternalApplicationSubmitted (atEnd site) then (Submitted, evs)
      else (failedOrSkipped (clickedAtLeastOneAction s), evs)
  end.

(** The fingerprint pairs of the clicks of a trace, in order. *)
Fixpoint clicksOf (evs : list FlowEvent) : list (string * string) :=
  match evs with
  | [] => []
  | Clicked _ before after :: rest => (before, after) :: clicksOf rest
  | _ :: rest => clicksOf rest
  end.

(** A click that left the page fingerprint as it was. *)
Definition noProgress (c : string * string) : Prop := fst c = snd c.

Definition isClick (e : FlowEvent) : bool :=
  match e with Clicked _ _ _ => true | _ => false end.

Definition isFill (e : FlowEvent) : bool :=
  match e with FilledForm _ => true | _ => false end.

(** ** Job card iteration *)

Definition getJobKey (job : JobContext) : string :=
  Js.substring0 240
    (Js.trim (Js.collapseSpaces (Js.toLowerCase
       (Js.join "|" [title job; company job; location job])))).

Inductive EasyApplyResult : Type := Applied | EasyFailed | ManualHelp.

(** What the controller observes while it works on one card.
    [recoveryFails]: [ensureActiveLinkedInPage] rejects or leaves no page.
    [cardListed]: the card index is still below the live card count.
    [openFails]: scrolling to the card, clicking it or reading it rejects.
    [captured]: the job context [captureCurrentJobContext] stores.
    [dismissFails]: [dismissEasyApplyModal] rejects after the Easy Apply flow.
    The two drivers are awaited calls.  The [dismissEasyApplyModal] of the
    [catch] block is taken to resolve. *)
Record CardView := {
  recoveryFails : bool;
  cardListed : bool;
  openFails : bool;
  captured : JobContext;
  easyApplyButton : bool;
  modalOpened : bool;
  externalButton : bool;
  easyApplyFlow : Awaited EasyApplyResult;
  dismissFails : bool;
  externalFlow : Awaited ExternalStatus
}.

Inductive CardEvent : Type :=
| OpenedCard (i : nat)
| DuplicateSkipped (key : string)
| KeyRegistered (key : string)
| EasyApplyStarted (key : string)
| ExternalApplyStarted (key : string)
| NoApplyButton (key : string)
| CardFailed (i : nat).

Record Counters := {
  applied : Z;
  failed : Z;
  manualHelp : Z
}.

Definition addApplied (c : Counters) : Counters :=
  {| applied := applied c + 1; failed := failed c; manualHelp := manualHelp c |}%Z.
Definition addFailed (c : Counters) : Counters :=
  {| applied := applied c; failed := failed c + 1; manualHelp := manualHelp c |}%Z.
Definition addManualHelp (c : Counters) : Counters :=
  {| applied := applied c; failed := failed c; manualHelp := manualHelp c + 1 |}%Z.

Record Session := {
  scraper : Scraper;
  counters : Counters;
  events : list CardEvent
}.

(** The [catch] block of the card loop. *)
Definition cardFailed (i : nat) (st : Scraper) (c : Counters) (evs : list CardEvent)
    : Session :=
  {| scraper := st; counters := addFailed c; events := evs ++ [CardFailed i] |}.

(** [handleExternalApplication] and the counting of its status. *)
Definition runExternal (i : nat) (v : CardView) (st : Scraper) (c : Counters)
    (evs : list CardEvent) : Session :=
  match externalFlow v with
  | Resolved Submitted => {| scraper := st; counters := addApplied c; events := evs |}
  | Resolved Skipped => {| scraper := st; counters := c; events := evs |}
  | Resolved Failed => {| scraper := st; counters := addFailed c; events := evs |}
  | Rejected => cardFailed i st c evs
  end.

(** [completeEasyApplyFlow], the counting of its result and the dismissal of
    the modal. *)
Definition runEasyApply (i : nat) (v : CardView) (st : Scraper) (c : Counters)
    (evs : list CardEvent) : Session :=
  match easyApplyFlow v with
  | Resolved result =>
      let c' :=
        match result with
        | Applied => addApplied c
        | ManualHelp => addManualHelp c
        | EasyFailed => addFailed c
        end in
      if dismissFails v then cardFailed i st c' evs
      else {| scraper := st; counters := c'; events := evs |}
  | Rejected => cardFailed i st c evs
  end.

(** The [try] block from the click on the card onwards, with its [catch]. *)
Definition processCard (i : nat) (v : CardView) (ss : Session) : Session :=
  if openFails v
  then cardFailed i (scraper ss) (counters ss) (events ss)
  else
    let st := withJob (withCache (scraper ss) ∅) (captured v) in
    let jobKey := getJobKey (currentJobContext st) in
    if bool_decide (jobKey ∈ processedJobKeys st)
    then {| scraper := st; counters := counters ss;
            events := events ss ++ [OpenedCard i; DuplicateSkipped jobKey] |}
    else
      let st' := withProcessedJobKeys st ({[jobKey]} ∪ processedJobKeys st) in
      let seen := events ss ++ [OpenedCard i; KeyRegistered jobKey] in
      if easyApplyButton v
      then
        if negb (modalOpened v)
        then
          if negb (externalButton v)
          then {| scraper := st'; counters := counters ss;
                  events := seen ++ [EasyApplyStarted jobKey] |}
          else runExternal i v st' (counters ss)
                 (seen ++ [EasyApplyStarted jobKey; ExternalApplyStarted jobKey])
        else runEasyApply i v st' (counters ss) (seen ++ [EasyApplyStarted jobKey])
      else if externalButton v
      then runExternal i v st' (counters ss) (seen ++ [ExternalApplyStarted jobKey])
      else {| scraper := st'; counters := counters ss;
              events := seen ++ [NoApplyButton jobKey] |}.

(** [for (let i = ...; i < attempts && applied < maxApplications; i++)],
    [fuel] being [attempts - i]. *)
Fixpoint cardLoop (maxApplications : Z) (cards : nat -> CardView) (fuel i : nat)
    (ss : Session) : Session :=
  match fuel with
  | 0 => ss
  | S fuel' =>
      if (applied (counters ss) <? maxApplications)%Z
      then
        let v := cards i in
        if recoveryFails v
        then cardLoop maxApplications cards fuel' (S i)
               (cardFailed i (scraper ss) (counters ss) (events ss))
        else if cardListed v
        then cardLoop maxApplications cards fuel' (S i) (processCard i v ss)
        else ss
      else ss
  end.

Definition applyEasyApplyJobs (st : Scraper) (cardCount : nat) (maxApplications : Z)
    (cards : nat -> CardView) : Session :=
  let attempts :=
    Z.min (Z.of_nat cardCount) (Z.max (maxApplications * 4) maxApplications) in
  cardLoop maxApplications cards (Z.to_nat attempts) 0
    {| scraper := withProcessedJobKeys st ∅;
       counters := {| applied := 0; failed := 0; manualHelp := 0 |};
       events := [] |}.

(** The keys that went past the duplicate check, in order. *)
Fixpoint registeredKeys (evs : list CardEvent) : list string :=
  match evs with
  | [] => []
  | KeyRegistered k :: rest => k :: registeredKeys rest
  | _ :: rest => registeredKeys rest
  end.

(** The keys for which an apply attempt was started, in order. *)
Fixpoint applyKeys (evs : list CardEvent) : list string :=
  match evs with
  | [] => []
  | EasyApplyStarted k :: rest => k :: applyKeys rest
  | ExternalApplyStarted k :: rest => k :: applyKeys rest
  | _ :: rest => applyKeys rest
  end.

(** ** Predicates used in the proofs *)

(** Expressions every match of which begins with a character in [q]. *)
Inductive StartsIn (q : ascii -> Prop) : Regex.regex -> Prop :=
| StartsChar (p : ascii -> bool) :
    (forall c, p c = true -> q c) -> StartsIn q (Regex.RChar p)
| StartsSeq (r1 r2 : Regex.regex) : StartsIn q r1 -> StartsIn q (Regex.RSeq r1 r2)
| StartsAlt (r1 r2 : Regex.regex) :
    StartsIn q r1 -> StartsIn q r2 -> StartsIn q (Regex.RAlt r1 r2).

(** What a selection cannot change about a radio. *)
Definition static (r : Radio) : option string * string * string * bool * bool :=
  (radioId r, radioName r, wrappingLabel r, checkWorks r, forcedClickSelects r).

(** The three ways one pass through the loop body can go. *)
Inductive StepShape (s : FlowState) : StepResult -> list FlowEvent -> Prop :=
| ShapeQuiet (r : StepResult) (evs : list FlowEvent) :
    clicksOf evs = [] -> NoProgressExit ∉ evs ->
    (forall s', r <> Continue s') ->
    StepShape s r evs
| ShapeClick (step : nat) (l b a : string) (s' : FlowState) :
    clickedAtLeastOneAction s' = true ->
    noProgressStreak s' = (if String.eqb a b then S (noProgressStreak s) else 0) ->
    noProgressStreak s' < 3 ->
    StepShape s (Continue s') [FilledForm step; Clicked l b a]
| ShapeExit (step : nat) (l b a : string) :
    a = b -> 3 <= S (noProgressStreak s) ->
    StepShape s (Return Failed) [FilledForm step; Clicked l b a; NoProgressExit].

Definition endsAtNoProgressExit (evs : list FlowEvent) : Prop :=
  exists evs0 l b a, evs = evs0 ++ [Clicked l b a; NoProgressExit].

(** What the card loop maintains: a key is registered at most once, every
    registered key is in [processedJobKeys], and an apply attempt is only
    started for a registered key. *)
Record SessionInv (ss : Session) : Prop := {
  inv_nodup : NoDup (registeredKeys (events ss));
  inv_seen : forall k, k ∈ registeredKeys (events ss) ->
                       k ∈ processedJobKeys (scraper ss);
  inv_apply : forall k, k ∈ applyKeys (events ss) ->
                        k ∈ registeredKeys (events ss)
}.

(** ** Sample data for the examples and witnesses *)


(** A session without a language model and with the default hints. *)
Definition noEnv : Env :=
  {| REQUIRES_SPONSORSHIP := None; WILLING_TO_RELOCATE := None; VISA_STATUS := None;
     YEARS_EXPERIENCE := None; LINKEDIN_URL := None; PORTFOLIO_URL := None;
     CURRENT_LOCATION := None; RESUME_PATH := None |}.

Definition plainScraper : Scraper :=
  {| llm := None; llmAvailable := false; answerHints := readAnswerHints noEnv;
     candidateEnv := {| CANDIDATE_NAME := None; CANDIDATE_EMAIL := None;
                        CANDIDATE_PHONE := None |};
     currentJobContext := emptyJobContext;
     inferredAnswerCache := ∅; processedJobKeys := ∅; llmCalls := [] |}.

Definition button (text : string) : Control :=
  {| visible := true; disabled := false; textContent := text;
     ariaLabel := EmptyString; valueAttr := EmptyString; typeAttr := EmptyString;
     href := EmptyString; tagName := "button"; inForm := true |}.

Definition loginUrlOnly : Page :=
  {| closed := false; url := "https://careers.example.com/login";
     pageTitle := "Careers"; bodyText := "Welcome to our careers portal";
     surfaces := [{| submittedIndicator := false; controls := [button "Continue"] |}] |}.

Definition loginCuesOnly : Page :=
  {| closed := false; url := "https://careers.example.com/apply/42";
     pageTitle := "Apply"; bodyText := "Sign in to continue. Forgot password?";
     surfaces := [{| submittedIndicator := false; controls := [button "Continue"] |}] |}.

Definition loginPage : Page :=
  {| closed := false; url := "https://ats.example.com/login?next=apply";
     pageTitle := "Sign in"; bodyText := "Sign in to apply. Forgot password?";
     surfaces := [{| submittedIndicator := false; controls := [button "Sign in"] |}] |}.

Definition loginSite : ExternalSite :=
  {| views := fun _ => {| atStart := loginPage; afterFill := loginPage;
                          afterPause := loginPage; clickWorks := true;
                          afterClick := loginPage |};
     atEnd := loginPage |}.

Definition link (text target : string) : Control :=
  {| visible := true; disabled := false; textContent := text;
     ariaLabel := EmptyString; valueAttr := EmptyString; typeAttr := EmptyString;
     href := target; tagName := "a"; inForm := false |}.

Definition submitButton : Control :=
  {| visible := true; disabled := false; textContent := "Submit Application";
     ariaLabel := EmptyString; valueAttr := EmptyString; typeAttr := "submit";
     href := EmptyString; tagName := "button"; inForm := true |}.

(** An application form: three distractors, then three controls the ranker
    accepts. *)
Definition applyPage : Page :=
  {| closed := false; url := "https://ats.example.com/jobs/42/apply?src=li";
     pageTitle := "Apply";
     bodyText := "Application form  Tell us about yourself";
     surfaces :=
       [{| submittedIndicator := false;
           controls := [link "How to apply" "https://ats.example.com/help";
                        button "Cancel"; button "Apply with LinkedIn";
                        submitButton; button "Continue";
                        button "Review application"] |}] |}.

Definition submitCandidate : ActionCandidate :=
  {| locator := (0, 3); label := "submit application"; score := 195 |}.

(** A site that shows the same form whatever is clicked. *)
Definition stuckSite : ExternalSite :=
  {| views := fun _ => {| atStart := applyPage; afterFill := applyPage;
                          afterPause := applyPage; clickWorks := true;
                          afterClick := applyPage |};
     atEnd := applyPage |}.

Definition backendJob : JobContext :=
  {| title := "Backend Engineer"; company := "Acme";
     location := "Sydney,  Australia"; description := "Build services." |}.

(** The same posting rendered a second time, with other letter case. *)
Definition backendJobAgain : JobContext :=
  {| title := "BACKEND ENGINEER"; company := "Acme";
     location := "Sydney, Australia"; description := "Build services." |}.

Definition easyCard (job : JobContext) : CardView :=
  {| recoveryFails := false; cardListed := true; openFails := false;
     captured := job; easyApplyButton := true; modalOpened := true;
     externalButton := false; easyApplyFlow := Resolved Applied;
     dismissFails := false; externalFlow := Resolved Skipped |}.

Definition freshSession : Session :=
  {| scraper := plainScraper;
     counters := {| applied := 0; failed := 0; manualHelp := 0 |};
     events := [] |}.

(** A model that answers every prompt with the same text. *)
Definition answeringClient (text : string) : OllamaClient :=
  {| generate := fun _ => Resolved {| success := true; data := Some text |};
     generateJSON := fun _ _ => Rejected |}.

Definition modelScraper : Scraper :=
  withLlm plainScraper
    (Some (answeringClient "https://www.linkedin.com/in/candidate")) true.

Fixpoint padding (n : nat) : string :=
  match n with
  | 0 => EmptyString
  | S n' => String "x" (padding n')
  end.

Definition longNoticeContext : string := padding 295 +:+ " notice period".

Definition radio (id name : string) (works : bool) : Radio :=
  {| radioId := Some id; radioName := name; wrappingLabel := EmptyString;
     radioChecked := false; checkWorks := works; forcedClickSelects := works |}.


Definition sponsorshipGroup : RadioGroup :=
  {| groupText := Resolved (Some "Will you require visa sponsorship? Yes No");
     groupRadios := [0; 1] |}.

Definition remoteGroup : RadioGroup :=
  {| groupText := Resolved (Some "Preferred working mode? Office Home");
     groupRadios := [2; 3] |}.

(** Two questions: one with a preferred answer among the labels, one
    without. *)
Definition twoQuestionForm : FormRoot :=
  {| rootClosed := false; rootDetached := false;
     labelsFor := [("s-yes", "Yes"); ("s-no", "No");
                   ("m-office", "Office"); ("m-home", "Home")];
     radios := [radio "s-yes" "sponsorship" true; radio "s-no" "sponsorship" true;
                radio "m-office" "mode" true; radio "m-home" "mode" true];
     groups := Resolved [sponsorshipGroup; remoteGroup] |}.

(** Two controls with the same score, in document order. *)
Definition tiePage : Page :=
  {| closed := false; url := "https://ats.example.com/step/2";
     pageTitle := "Step 2"; bodyText := "Step 2 of 3";
     surfaces := [{| submittedIndicator := false;
                     controls := [button "Next"; button "Continue"] |}] |}.

(** A model that picks the second candidate offered. *)
Definition pickingClient : OllamaClient :=
  {| generate := fun _ => Resolved {| success := false; data := None |};
     generateJSON := fun _ _ =>
       Resolved {| success := true;
                   data := Some {| choice := Some 1%Z; reason := "moves on" |} |} |}.

(** ** Further definitions for the properties of the embedded code *)

(** No candidate after the first scores higher than the first. *)
Definition headIsBest (cs : list ActionCandidate) : Prop :=
  match cs with
  | [] => True
  | top :: rest => Forall (fun d => (score d <= score top)%Z) rest
  end.

Definition withUrl (p : Page) (u : string) : Page :=
  {| closed := closed p; url := u; pageTitle := pageTitle p;
     bodyText := bodyText p; surfaces := surfaces p |}.

Fixpoint hasChar (c : ascii) (s : string) : bool :=
  match s with
  | EmptyString => false
  | String d s' => Ascii.eqb d c || hasChar c s'
  end.


(** The signatures already tried without progress on a fingerprint. *)
Definition attemptedOn (s : FlowState) (fingerprint : string) : gset string :=
  default ∅ (attemptedActionsByFingerprint s !! fingerprint).

(** The ways one pass through the loop body of
    [completeExternalApplication] can go, with what each leaves behind. *)
Inductive StepCase (s : FlowState) (step : nat) : StepResult -> list FlowEvent -> Prop :=
| CaseEarly (status : ExternalStatus) (ev : FlowEvent) :
    (status = Submitted /\ ev = PageWasClosed)
    \/ (status = Skipped /\ (ev = SawLoginWall \/ ev = SawVerificationGate)) ->
    StepCase s step (Return status) [ev]
| CaseSubmitted (evs : list FlowEvent) :
    evs = [FilledForm step] \/ evs = [FilledForm step; NoActionFound] ->
    StepCase s step (Return Submitted) evs
| CaseBreak (evs : list FlowEvent) :
    evs = [FilledForm step; NoActionFound]
    \/ (exists l, evs = [FilledForm step; ClickFailed l]) ->
    StepCase s step (Break s) evs
| CaseClick (l b a : string) (s' : FlowState) :
    normalizeActionSignature l ∉ attemptedOn s b ->
    clickedAtLeastOneAction s' = true ->
    (forall fp, attemptedOn s fp ⊆ attemptedOn s' fp) ->
    (a = b -> normalizeActionSignature l ∈ attemptedOn s' b) ->
    StepCase s step (Continue s') [FilledForm step; Clicked l b a]
| CaseExit (l b a : string) :
    normalizeActionSignature l ∉ attemptedOn s b ->
    StepCase s step (Return Failed)
      [FilledForm step; Clicked l b a; NoProgressExit].

(** The number of job cards a session has counted, whatever the outcome. *)
Definition counted (c : Counters) : Z := (applied c + failed c + manualHelp c)%Z.

(** The number of cards [applyEasyApplyJobs] is prepared to open. *)
Definition attemptsFor (cardCount : nat) (maxApplications : Z) : Z :=
  Z.min (Z.of_nat cardCount) (Z.max (maxApplications * 4) maxApplications).

(** ** The Easy Apply modal flow *)

(** What [completeEasyApplyFlow] observes in one pass through its loop.
    [submitVisible]: [findVisibleLocator] finds a submit button.
    [submitClickWorks]: [clickPrimaryAction] on it resolves to [true].
    [confirmationShown]: [isApplicationSubmitted] after the click.
    [modalStillOpen]: the modal is visible after the click.
    [autoFillRejects]: [autoFillForm] rejects.
    [nextVisible]: a next or review button is found.
    [unresolvedRequired]: [hasUnresolvedRequiredFields], whose evaluation in
    the page can reject.
    [validationError]: an inline validation error is visible.
    The timed waits are taken to resolve. *)
Record EasyStepView := {
  submitVisible : bool;
  submitClickWorks : bool;
  confirmationShown : bool;
  modalStillOpen : bool;
  autoFillRejects : bool;
  nextVisible : bool;
  unresolvedRequired : Awaited bool;
  validationError : bool
}.

Inductive EasyEvent : Type :=
| SubmitClickFailed (step : nat)
| SubmitClicked (step : nat)
| FormFilled (step : nat)
| NextClicked (step : nat)
| HumanAsked (step : nat).

Inductive EasyStepResult : Type :=
| EasyReturn (r : Awaited EasyApplyResult)
| EasyContinue (manualHelpTriggered : bool)
| EasyBreak (manualHelpTriggered : bool).

(** The loop body from [autoFillForm] onwards. *)
Definition easyFillAndAdvance (step : nat) (v : EasyStepView)
    (manualHelpTriggered : bool) (evs : list EasyEvent)
    : EasyStepResult * list EasyEvent :=
  if autoFillRejects v then (EasyReturn Rejected, evs)
  else if nextVisible v
  then (EasyContinue manualHelpTriggered, evs ++ [FormFilled step; NextClicked step])
  else
    match unresolvedRequired v with
    | Rejected => (EasyReturn Rejected, evs ++ [FormFilled step])
    | Resolved true => (EasyContinue true, evs ++ [FormFilled step; HumanAsked step])
    | Resolved false =>
        if validationError v
        then (EasyContinue true, evs ++ [FormFilled step; HumanAsked step])
        else (EasyBreak manualHelpTriggered, evs ++ [FormFilled step])
    end.

Definition easyStep (step : nat) (v : EasyStepView) (manualHelpTriggered : bool)
    : EasyStepResult * list EasyEvent :=
  if submitVisible v
  then
    if negb (submitClickWorks v)
    then (EasyContinue manualHelpTriggered, [SubmitClickFailed step])
    else if confirmationShown v
    then (EasyReturn (Resolved (if manualHelpTriggered then ManualHelp else Applied)),
          [SubmitClicked step])
    else if negb (modalStillOpen v)
    then (EasyReturn (Resolved (if manualHelpTriggered then ManualHelp else Applied)),
          [SubmitClicked step])
    else easyFillAndAdvance step v manualHelpTriggered [SubmitClicked step]
  else easyFillAndAdvance step v manualHelpTriggered [].

(** [for (let step = ...; step < 8; step++)] and the [return] after it,
    [fuel] being [8 - step]. *)
Fixpoint easyLoop (views : nat -> EasyStepView) (fuel step : nat)
    (manualHelpTriggered : bool) : Awaited EasyApplyResult * list EasyEvent :=
  match fuel with
  | 0 => (Resolved (if manualHelpTriggered then ManualHelp else EasyFailed), [])
  | S fuel' =>
      match easyStep step (views step) manualHelpTriggered with
      | (EasyReturn r, evs) => (r, evs)
      | (EasyBreak m, evs) =>
          (Resolved (if m then ManualHelp else EasyFailed), evs)
      | (EasyContinue m, evs) =>
          let (r, rest) := easyLoop views fuel' (S step) m in
          (r, evs ++ rest)
      end
  end.

Definition completeEasyApplyFlow (pagePresent modalOpened : bool)
    (views : nat -> EasyStepView) : Awaited EasyApplyResult * list EasyEvent :=
  if negb pagePresent then (Resolved EasyFailed, [])
  else if negb modalOpened then (Resolved EasyFailed, [])
  else easyLoop views 8 0 false.

Definition isHumanAsked (e : EasyEvent) : bool :=
  match e with HumanAsked _ => true | _ => false end.

(** A modal that shows a required field nobody can fill, and no button. *)
Definition stuckModal : EasyStepView :=
  {| submitVisible := false; submitClickWorks := false; confirmationShown := false;
     modalStillOpen := true; autoFillRejects := false; nextVisible := false;
     unresolvedRequired := Resolved true; validationError := false |}.

(** A modal whose submit button works at once. *)
Definition oneStepModal : EasyStepView :=
  {| submitVisible := true; submitClickWorks := true; confirmationShown := true;
     modalStillOpen := true; autoFillRejects := false; nextVisible := false;
     unresolvedRequired := Resolved false; validationError := false |}.

(** ** Form fields *)

(** An [option] element: its [value] attribute and its text content, [None]
    when absent.  [selectBestOptionForField] catches a read that rejects as
    the empty string, which [None] stands for as well; the other loops over
    the options are modelled for reads that resolve. *)
Record SelectOption := {
  optionValue : option string;
  optionLabel : option string
}.

(** [`${value} ${text}`.trim()] of the lower-cased attribute and text. *)
Definition optionText (o : SelectOption) : string :=
  Js.trim (Js.toLowerCase (default EmptyString (optionValue o)) +:+ " "
           +:+ Js.toLowerCase (default EmptyString (optionLabel o))).

(** The loop of [selectBestOptionForField]: the value handed to
    [selectOption], [None] when the method returns [false]. *)
Fixpoint bestOption (hints : AnswerHints) (combined : string)
    (options : list SelectOption) : option string :=
  match options with
  | [] => None
  | o :: rest =>
      let text := optionText o in
      if negb (Js.truthy text) || String.eqb text "select" || Js.includes text "choose"
      then bestOption hints combined rest
      else if (Js.includes combined "sponsor" || Js.includes combined "visa")
              && Js.includes text (if sponsorship hints then "yes" else "no")
      then Some (default EmptyString (optionValue o))
      else if Js.includes combined "relocat"
              && Js.includes text (if relocate hints then "yes" else "no")
      then Some (default EmptyString (optionValue o))
      else if Js.includes combined "experience"
              && Js.includes text (yearsExperience hints)
      then Some (default EmptyString (optionValue o))
      else bestOption hints combined rest
  end.

Definition selectBestOptionForField (hints : AnswerHints)
    (options : Awaited (list SelectOption)) (combined : string) : option string :=
  match options with
  | Resolved opts => bestOption hints combined opts
  | Rejected => None
  end.

(** An [input], [textarea] or [select] element as the fill loops read it.
    [inputTag]: the lower-cased tag name, whose evaluation can reject.
    [inputLabelContext]: the result of [getInputLabelContext].
    [inputRequiredAttr]: the element has a [required] attribute.
    [inputValue]: [inputValue()], the empty string when it rejects.
    [inputChecked]: [isChecked()], [false] when it rejects.
    [inputOptions]: the [option] elements below a [select]. *)
Record FormInput := {
  inputTag : Awaited string;
  inputType : option string;
  inputName : option string;
  inputId : option string;
  inputPlaceholder : option string;
  inputAriaLabel : option string;
  inputLabelContext : string;
  inputRequiredAttr : bool;
  inputAriaRequired : option string;
  inputValue : string;
  inputChecked : bool;
  inputOptions : Awaited (list SelectOption)
}.

(** What a fill loop attempts on one element. *)
Inductive FieldAction : Type :=
| LeaveAlone
| FillText (text : string)
| TickCheckbox
| ChooseOption (value : string).

Definition lowerAttr (a : option string) : string :=
  Js.toLowerCase (default EmptyString a).

(** [combined] of [autoFillExternalFormInContext]. *)
Definition externalCombined (f : FormInput) : string :=
  Js.trim (Js.collapseSpaces
    (lowerAttr (inputName f) +:+ " " +:+ lowerAttr (inputId f) +:+ " "
     +:+ lowerAttr (inputPlaceholder f) +:+ " " +:+ lowerAttr (inputAriaLabel f)
     +:+ " " +:+ Js.toLowerCase (inputLabelContext f))).

Definition isRequired (f : FormInput) : bool :=
  inputRequiredAttr f
  || match inputAriaRequired f with Some v => String.eqb v "true" | None => false end.

(** The first option with a truthy [value]. *)
Fixpoint firstOptionValue (options : list SelectOption) : option string :=
  match options with
  | [] => None
  | o :: rest =>
      let ov := default EmptyString (optionValue o) in
      if Js.truthy ov then Some ov else firstOptionValue rest
  end.

(** The body of the loop over the inputs in
    [autoFillExternalFormInContext]. *)
Definition externalFieldAction (f : FormInput) (st : Scraper)
    : FieldAction * Scraper :=
  match inputTag f with
  | Rejected => (LeaveAlone, st)
  | Resolved tag =>
      let type := lowerAttr (inputType f) in
      let combined := externalCombined f in
      let hints := answerHints st in
      if String.eqb tag "select"
      then
        if Js.truthy (inputValue f) then (LeaveAlone, st)
        else
          match selectBestOptionForField hints (inputOptions f) combined with
          | Some v => (ChooseOption v, st)
          | None =>
              match inputOptions f with
              | Resolved opts =>
                  match firstOptionValue opts with
                  | Some v => (ChooseOption v, st)
                  | None => (LeaveAlone, st)
                  end
              | Rejected => (LeaveAlone, st)
              end
          end
      else if String.eqb type "radio" then (LeaveAlone, st)
      else if String.eqb type "checkbox"
      then
        let shouldCheck :=
          Js.includes combined "terms" || Js.includes combined "privacy"
          || Js.includes combined "consent" || Js.includes combined "agree"
          || isRequired f in
        if shouldCheck && negb (inputChecked f) then (TickCheckbox, st)
        else (LeaveAlone, st)
      else if Js.truthy (inputValue f) then (LeaveAlone, st)
      else if Js.includes combined "name"
      then (FillText (envOr (CANDIDATE_NAME (candidateEnv st)) "Candidate"), st)
      else if Js.includes combined "email"
      then (FillText (envOr (CANDIDATE_EMAIL (candidateEnv st)) "candidate@example.com"),
            st)
      else if Js.includes combined "phone" || String.eqb type "tel"
      then (FillText (envOr (CANDIDATE_PHONE (candidateEnv st)) "+61000000000"), st)
      else if Js.includes combined "linkedin"
      then (FillText (linkedInUrl hints), st)
      else if Js.includes combined "portfolio" || Js.includes combined "website"
      then (FillText (portfolioUrl hints), st)
      else if Js.includes combined "location" || Js.includes combined "city"
      then (FillText (currentLocation hints), st)
      else if Js.includes combined "experience"
      then (FillText (yearsExperience hints), st)
      else if String.eqb type "number"
      then
        let (inferred, st') := inferFieldAnswer combined "number" st in
        if Js.truthyOpt inferred
        then (FillText (default EmptyString inferred), st')
        else (FillText (yearsExperience hints), st')
      else if isRequired f
              && (String.eqb type "text" || String.eqb type "search"
                  || String.eqb type EmptyString || String.eqb tag "textarea")
      then
        let (inferred, st') := inferFieldAnswer combined "text" st in
        if Js.truthyOpt inferred
        then (FillText (default EmptyString inferred), st')
        else (LeaveAlone, st')
      else (LeaveAlone, st)
  end.

(** The loop over the inputs: what was attempted on each, in order. *)
Fixpoint externalFieldActions (fields : list FormInput) (st : Scraper)
    : list FieldAction * Scraper :=
  match fields with
  | [] => ([], st)
  | f :: rest =>
      let (a, st1) := externalFieldAction f st in
      let (acts, st2) := externalFieldActions rest st1 in
      (a :: acts, st2)
  end.

(** A text input with the given type and label and nothing else. *)
Definition textInput (type : option string) (labelText : string) (required : bool)
    : FormInput :=
  {| inputTag := Resolved "input"; inputType := type; inputName := None;
     inputId := None; inputPlaceholder := None; inputAriaLabel := None;
     inputLabelContext := labelText; inputRequiredAttr := required;
     inputAriaRequired := None; inputValue := EmptyString; inputChecked := false;
     inputOptions := Resolved [] |}.


(** The elements the external fill loop can hand to [inferFieldAnswer]:
    empty ones of type [number] or marked as required. *)
Definition mayReachModel (f : FormInput) : bool :=
  negb (Js.truthy (inputValue f))
  && (String.eqb (lowerAttr (inputType f)) "number" || isRequired f).

(** ** Required fields of the Easy Apply modal *)

(** An [input], [textarea] or [select] of the modal as the function
    evaluated in the page reads it: DOM properties, not attributes. *)
Record ModalField := {
  fieldTagName : string;
  fieldType : string;
  fieldRequiredAttr : bool;
  fieldAriaRequired : option string;
  fieldChecked : bool;
  fieldValue : string
}.

Definition fieldRequired (f : ModalField) : bool :=
  fieldRequiredAttr f
  || match fieldAriaRequired f with Some v => String.eqb v "true" | None => false end.

(** The function evaluated in the page by [hasUnresolvedRequiredFields],
    over the fields of the modal in document order. *)
Fixpoint unresolvedAmong (fields : list ModalField) : bool :=
  match fields with
  | [] => false
  | field :: rest =>
      if negb (fieldRequired field) then unresolvedAmong rest
      else if String.eqb (Js.toLowerCase (fieldTagName field)) "input"
              && (String.eqb (Js.toLowerCase (fieldType field)) "checkbox"
                  || String.eqb (Js.toLowerCase (fieldType field)) "radio")
              && negb (fieldChecked field)
      then true
      else if negb (Js.truthy (fieldValue field))
              || (String.length (Js.trim (fieldValue field)) =? 0)
      then true
      else unresolvedAmong rest
  end.

(** [modal]: the fields below [.jobs-easy-apply-modal], [None] when there is
    no such element. *)
Definition hasUnresolvedRequiredFields (pagePresent : bool)
    (modal : option (list ModalField)) : bool :=
  if negb pagePresent then false
  else match modal with
       | None => false
       | Some fields => unresolvedAmong fields
       end.

Definition requiredRadio (checked : bool) : ModalField :=
  {| fieldTagName := "INPUT"; fieldType := "radio"; fieldRequiredAttr := true;
     fieldAriaRequired := None; fieldChecked := checked; fieldValue := "on" |}.

(** ** The fill loop of the Easy Apply modal *)

(** [fieldStr] of [autoFillForm]. *)
Definition fieldStr (f : FormInput) : string :=
  Js.trim (Js.collapseSpaces (Js.toLowerCase
    (default EmptyString (inputName f) +:+ " "
     +:+ default EmptyString (inputPlaceholder f) +:+ " "
     +:+ default EmptyString (inputAriaLabel f) +:+ " " +:+ inputLabelContext f))).

(** The body of the loop over the inputs in [autoFillForm].  An element
    whose attributes cannot be read ([inputTag] rejected) is left alone. *)
Definition autoFillFormInput (candidateName candidateEmail candidatePhone : string)
    (f : FormInput) (st : Scraper) : FieldAction * Scraper :=
  match inputTag f with
  | Rejected => (LeaveAlone, st)
  | Resolved _ =>
      let hints := answerHints st in
      let s := fieldStr f in
      if Js.truthy (inputValue f) then (LeaveAlone, st)
      else if Js.includes s "name" && negb (Js.includes s "company")
      then (FillText candidateName, st)
      else if Js.includes s "email" then (FillText candidateEmail, st)
      else if Js.includes s "phone" || Js.includes s "cell"
              || match inputType f with Some t => String.eqb t "tel" | None => false end
      then (FillText candidatePhone, st)
      else if Js.includes s "location" || Js.includes s "city"
      then (if Js.truthy (currentLocation hints)
            then (FillText (currentLocation hints), st) else (LeaveAlone, st))
      else if Js.includes s "linkedin"
      then (if Js.truthy (linkedInUrl hints)
            then (FillText (linkedInUrl hints), st) else (LeaveAlone, st))
      else if Js.includes s "portfolio" || Js.includes s "website"
      then (if Js.truthy (portfolioUrl hints)
            then (FillText (portfolioUrl hints), st) else (LeaveAlone, st))
      else
        match autoFillFormFieldType (isRequired f) (inputType f) with
        | Some fieldType =>
            let (inferred, st') := inferFieldAnswer s fieldType st in
            if Js.truthyOpt inferred
            then (FillText (default EmptyString inferred), st')
            else (LeaveAlone, st')
        | None => (LeaveAlone, st)
        end
  end.

(** ** The apply buttons of a job card *)

Inductive ApplyKind : Type := EasyKind | ExternalKind.

(** A candidate of [findApplyActionButton]: its visibility, text content and
    [aria-label], [None] when absent or when the read rejects. *)
Record ApplyCandidate := {
  candidateVisible : bool;
  candidateText : option string;
  candidateAria : option string
}.

Definition applyCombined (c : ApplyCandidate) : string :=
  Js.collapseSpaces
    (Js.trim (Js.toLowerCase (default EmptyString (candidateText c))) +:+ " "
     +:+ Js.trim (Js.toLowerCase (default EmptyString (candidateAria c)))).

Definition isEasyApply (c : ApplyCandidate) : bool :=
  Js.includes (applyCombined c) "easy apply".

Definition isExternalApply (c : ApplyCandidate) : bool :=
  Js.includes (applyCombined c) "company website"
  || Js.includes (applyCombined c) "external"
  || (Js.includes (applyCombined c) "apply" && negb (isEasyApply c)).

(** The loop of [findApplyActionButton] from candidate [i] on: the index of
    the candidate it returns. *)
Fixpoint findApplyFrom (kind : ApplyKind) (i : nat) (candidates : list ApplyCandidate)
    : option nat :=
  match candidates with
  | [] => None
  | c :: rest =>
      if negb (candidateVisible c) then findApplyFrom kind (S i) rest
      else
        match kind with
        | EasyKind =>
            if isEasyApply c then Some i else findApplyFrom kind (S i) rest
        | ExternalKind =>
            if isExternalApply c then Some i else findApplyFrom kind (S i) rest
        end
  end.

Definition findApplyActionButton (pagePresent : bool) (kind : ApplyKind)
    (candidates : list ApplyCandidate) : option nat :=
  if negb pagePresent then None else findApplyFrom kind 0 candidates.

Definition applyButton (text : string) : ApplyCandidate :=
  {| candidateVisible := true; candidateText := Some text; candidateAria := None |}.

(** * Properties *)

(** ** Strings *)

Section JsFacts.
Import Js.

Lemma toLowerCase_app (a b : string) :
  toLowerCase (a +:+ b) = toLowerCase a +:+ toLowerCase b.
Proof. induction a as [|c a IH]; simpl; [reflexivity | now rewrite IH]. Qed.



Lemma trim_starts_nonspace (c : ascii) (s : string) :
  isSpace c = false -> trim (collapseSpaces (String c s)) <> EmptyString.
Proof.
  intros H. unfold trim, collapseSpaces.
  cbn [collapseFrom]. rewrite H.
  cbn [trimStart]. rewrite H.
  cbn [trimEnd]. rewrite H. discriminate.
Qed.

End JsFacts.

(** ** The matcher *)

Section RegexFacts.
Import Regex.

Lemma starClass_suffix {A} (p : ascii -> bool) (s : string) :
  forall (prev : option ascii) (k : option ascii -> string -> option A) (x : A),
    starClass p prev s k = Some x ->
    exists prev' s', k prev' s' = Some x /\ String.length s' <= String.length s.
Proof.
  induction s as [|c s IH]; intros prev k x H; simpl in H.
  - eauto.
  - destruct (p c).
    + destruct (starClass p (Some c) s k) eqn:E.
      * inversion H; subst. apply IH in E as (prev' & s' & Hk & Hl).
        exists prev', s'; split; [assumption | simpl; lia].
      * exists prev, (String c s); auto.
    + exists prev, (String c s); auto.
Qed.

(** Wherever a match succeeds, the continuation ran on a suffix. *)
Lemma run_suffix {A} (r : regex) :
  forall (prev : option ascii) (s : string)
         (k : option ascii -> string -> option A) (x : A),
    run r prev s k = Some x ->
    exists prev' s', k prev' s' = Some x /\ String.length s' <= String.length s.
Proof.
  induction r as [|p|r1 IH1 r2 IH2|r1 IH1 r2 IH2|r1 IH1|p| | |];
    intros prev s k x H; simpl in H.
  - eauto.
  - destruct s as [|c s]; [discriminate|]. destruct (p c); [|discriminate].
    exists (Some c), s; split; [assumption | simpl; lia].
  - apply IH1 in H as (prev1 & s1 & H & Hl1).
    apply IH2 in H as (prev2 & s2 & H & Hl2).
    exists prev2, s2; split; [assumption | lia].
  - destruct (run r1 prev s k) eqn:E.
    + inversion H; subst. eapply IH1; eauto.
    + eapply IH2; eauto.
  - destruct (run r1 prev s k) eqn:E.
    + inversion H; subst. eapply IH1; eauto.
    + eauto.
  - eapply starClass_suffix; eauto.
  - destruct prev; [discriminate | eauto].
  - destruct s; [eauto | discriminate].
  - destruct (xorb _ _); [eauto | discriminate].
Qed.

Lemma run_starts {A} (q : ascii -> Prop) (r : regex) (Hr : StartsIn q r) :
  forall (prev : option ascii) (s : string)
         (k : option ascii -> string -> option A) (x : A),
    run r prev s k = Some x ->
    exists c s0, s = String c s0 /\ q c /\
      exists prev' s', k prev' s' = Some x /\ String.length s' <= String.length s0.
Proof.
  induction Hr as [p Hp|r1 r2 Hr IH|r1 r2 Hr1 IH1 Hr2 IH2];
    intros prev s k x H; simpl in H.
  - destruct s as [|c s]; [discriminate|]. destruct (p c) eqn:E; [|discriminate].
    exists c, s; repeat split; eauto.
  - apply IH in H as (c & s0 & -> & Hq & prev1 & s1 & H & Hl).
    apply run_suffix in H as (prev2 & s2 & H & Hl2).
    exists c, s0; repeat split; auto. exists prev2, s2; split; [assumption | lia].
  - destruct (run r1 prev s k) eqn:E.
    + inversion H; subst. eapply IH1; eauto.
    + eapply IH2; eauto.
Qed.

Lemma matchHere_starts (q : ascii -> Prop) (r : regex) (Hr : StartsIn q r)
    (prev : option ascii) (s m : string) :
  matchHere r prev s = Some m -> exists c m', m = String c m' /\ q c.
Proof.
  unfold matchHere. destruct (run r prev s _) as [rest|] eqn:E; [|discriminate].
  intros H; inversion H; subst; clear H.
  apply (run_starts q r Hr) in E as (c & s0 & -> & Hq & prev' & s' & Hk & Hl).
  inversion Hk; subst.
  simpl String.length.
  destruct (S (String.length s0) - String.length rest) as [|n] eqn:En; [lia|].
  simpl. eauto.
Qed.

Lemma searchFrom_starts (q : ascii -> Prop) (r : regex) (Hr : StartsIn q r)
    (s : string) :
  forall (prev : option ascii) (m : string),
    searchFrom r prev s = Some m -> exists c m', m = String c m' /\ q c.
Proof.
  induction s as [|c s IH]; intros prev m H; simpl in H.
  - destruct (matchHere r prev EmptyString) eqn:E; [|discriminate].
    inversion H; subst. eapply matchHere_starts; eauto.
  - destruct (matchHere r prev (String c s)) eqn:E.
    + inversion H; subst. eapply matchHere_starts; eauto.
    + eauto.
Qed.

Lemma ci_not_space (x c : ascii) :
  Js.isSpace x = false -> ci x c = true -> Js.isSpace c = false.
Proof.
  unfold ci. intros Hx H. apply Ascii.eqb_eq in H.
  destruct (Js.isSpace c) eqn:Ec; [|reflexivity].
  assert (Js.lowerChar c = c) as Hc.
  { revert Ec. destruct c as [[] [] [] [] [] [] [] []]; vm_compute; congruence. }
  rewrite Hc in H. subst c.
  revert Hx Ec. destruct x as [[] [] [] [] [] [] [] []]; vm_compute; congruence.
Qed.

Lemma salaryRange_starts :
  StartsIn (fun c => Js.isSpace c = false) salaryRange.
Proof.
  unfold salaryRange, currency. simpl.
  apply StartsSeq.
  repeat (first [ apply StartsAlt | apply StartsSeq | apply StartsChar ]);
    intros c; apply ci_not_space; reflexivity.
Qed.

End RegexFacts.

(** ** Salary fallback *)

Lemma salary_fallback_nonempty (job : JobContext) :
  getExpectedSalaryFallback job <> EmptyString.
Proof.
  unfold getExpectedSalaryFallback.
  destruct (Regex.exec salaryRange _) as [m|] eqn:E.
  - apply (searchFrom_starts _ _ salaryRange_starts) in E as (c & m' & -> & Hc).
    now apply trim_starts_nonspace.
  - repeat (match goal with |- context [if ?b then _ else _] => destruct b end);
      discriminate.
Qed.

(** The value is one of four: the range found in the job text, with its
    white space collapsed and trimmed; the Australian figure; the Indian
    figure; the default. *)
Lemma salary_fallback_cases (job : JobContext) :
  let text := Js.toLowerCase (location job +:+ " " +:+ description job) in
  (exists range, Regex.exec salaryRange text = Some range
                 /\ getExpectedSalaryFallback job = Js.trim (Js.collapseSpaces range))
  \/ (Regex.exec salaryRange text = None
      /\ In (getExpectedSalaryFallback job) ["AUD 130000"; "3500000"; "140000"]).
Proof.
  unfold getExpectedSalaryFallback. simpl.
  destruct (Regex.exec salaryRange _) as [m|] eqn:E.
  - left; eauto.
  - right; split; [reflexivity|].
    repeat (match goal with |- context [if ?b then _ else _] => destruct b end);
      simpl; auto.
Qed.



Example salary_sydney_plain :
  getExpectedSalaryFallback
    {| title := "Engineer"; company := "Acme"; location := "Sydney, Australia";
       description := "Join our platform team." |} = "AUD 130000".
Proof. vm_compute. reflexivity. Qed.

Example salary_range_found :
  getExpectedSalaryFallback
    {| title := "Engineer"; company := "Acme"; location := "Sydney, Australia";
       description := "Pay: AUD 120,000 -  150,000 per year" |} = "aud 120,000 - 150,000".
Proof. vm_compute. reflexivity. Qed.

Example salary_range_k :
  getExpectedSalaryFallback
    {| title := EmptyString; company := EmptyString; location := "Remote";
       description := "Salary $100k-$120k plus equity" |} = "$100k-$120k".
Proof. vm_compute. reflexivity. Qed.

Example salary_default :
  getExpectedSalaryFallback
    {| title := EmptyString; company := EmptyString; location := "Berlin"; description := EmptyString |} = "140000".
Proof. vm_compute. reflexivity. Qed.

(** ** Login wall *)

(** C3, as stated, fails: the detector fires on a login URL alone, and on the
    two body cues alone. *)
Lemma login_wall_is_not_a_conjunction :
  (isExternalLoginRequired loginUrlOnly = true
   /\ loginWallAsSpecified loginUrlOnly = false)
  /\ (isExternalLoginRequired loginCuesOnly = true
      /\ loginWallAsSpecified loginCuesOnly = false).
Proof. vm_compute. repeat split; reflexivity. Qed.

(** C3, amended. [isExternalLoginRequired] holds exactly when the URL has a
    login token or the body text has both a sign-in cue and a credential cue;
    when it holds for the open page of the first step,
    [completeExternalApplication] returns [Skipped] and no form was filled. *)
Theorem login_wall_skips_before_fill (st : Scraper) (site : ExternalSite) :
  (forall p, isExternalLoginRequired p
             = urlHasLoginToken p || (hasLoginCue p && hasCredentialCue p))
  /\ (closed (atStart (views site 0)) = false ->
      isExternalLoginRequired (atStart (views site 0)) = true ->
      fst (completeExternalApplication st site) = Skipped
      /\ existsb isFill (snd (completeExternalApplication st site)) = false).
Proof.
  split.
  - intros p. unfold isExternalLoginRequired. now destruct (urlHasLoginToken p).
  - intros Hopen Hwall. unfold completeExternalApplication.
    cbn [externalLoop]. unfold externalStep. rewrite Hopen, Hwall. split; reflexivity.
Qed.

Lemma login_wall_skips_witness :
  fst (completeExternalApplication plainScraper loginSite) = Skipped
  /\ existsb isFill (snd (completeExternalApplication plainScraper loginSite)) = false.
Proof.
  apply (proj2 (login_wall_skips_before_fill plainScraper loginSite)); reflexivity.
Defined.

(** ** Action ranking *)

Lemma rankControl_label (excl : gset string) (w : nat * nat) (ctl : Control)
    (c : ActionCandidate) :
  rankControl excl w ctl = Some c ->
  locator c = w /\ label c = combinedText ctl
  /\ isInformationalAction (label c) = false
  /\ isAuthAction (label c) = false
  /\ isNegativeAction (label c) = false
  /\ isUtilityAction (label c) = false
  /\ (normalizeActionSignature (label c) ∉ excl)
  /\ (0 < score c)%Z.
Proof.
  unfold rankControl.
  destruct (visible ctl); [|discriminate]. simpl.
  destruct (disabled ctl); [discriminate|].
  destruct (Js.truthy (combinedText ctl)); [|discriminate]. simpl.
  destruct (isInformationalAction (combinedText ctl)) eqn:E1; [discriminate|].
  destruct (isAuthAction (combinedText ctl)) eqn:E2; [discriminate|].
  destruct (isNegativeAction (combinedText ctl)) eqn:E3; [discriminate|].
  destruct (isUtilityAction (combinedText ctl)) eqn:E4; [discriminate|].
  case_bool_decide as E5; [discriminate|].
  match goal with |- context [if ?b then None else _] => destruct b end;
    [discriminate|].
  match goal with |- context [if (?z <=? 0)%Z then None else _] =>
    destruct (Z.leb_spec z 0) end; [discriminate|].
  intros Heq; inversion Heq; subst; clear Heq. simpl. repeat split; auto.
Qed.

(** Every ranked candidate comes from a control of the page. *)
Lemma rankPage_elem (excl : gset string) (p : Page) (c : ActionCandidate) :
  c ∈ rankPage excl p ->
  exists ctl, controlAt p (locator c) = Some ctl
              /\ rankControl excl (locator c) ctl = Some c.
Proof.
  unfold rankPage. intros H.
  apply list_elem_of_In, in_concat in H as (l & Hl & Hc).
  apply list_elem_of_In, elem_of_lookup_imap in Hl as (si & s & -> & Hs).
  unfold rankSurface in Hc.
  apply list_elem_of_In, list_elem_of_omap in Hc as (o & Ho & Hoc).
  apply elem_of_lookup_imap in Ho as (i & ctl & -> & Hctl).
  pose proof (rankControl_label _ _ _ _ Hoc) as (Hloc & _).
  exists ctl. rewrite Hloc. unfold controlAt. simpl. rewrite Hs. auto.
Qed.

Lemma insertByScore_elem (x c : ActionCandidate) (l : list ActionCandidate) :
  c ∈ insertByScore x l -> c = x \/ c ∈ l.
Proof.
  induction l as [|d l IH]; simpl.
  - intros H. apply list_elem_of_singleton in H. auto.
  - destruct (score d <=? score x)%Z.
    + intros H. apply elem_of_cons in H as [H|H]; auto.
    + intros H. apply elem_of_cons in H as [H|H].
      * right. subst. apply list_elem_of_here.
      * destruct (IH H) as [?|?]; auto. right. now apply list_elem_of_further.
Qed.

Lemma sortByScore_elem (c : ActionCandidate) (l : list ActionCandidate) :
  c ∈ sortByScore l -> c ∈ l.
Proof.
  induction l as [|d l IH]; simpl; [auto|].
  intros H. apply insertByScore_elem in H as [->|H].
  - apply list_elem_of_here.
  - apply list_elem_of_further. auto.
Qed.

Lemma selectExternalActionWithLLM_elem (st : Scraper) (p : Page)
    (cs : list ActionCandidate) (c : ActionCandidate) :
  selectExternalActionWithLLM st p cs = Some c -> c ∈ cs.
Proof.
  unfold selectExternalActionWithLLM.
  destruct (llm st); [|discriminate].
  destruct (negb (llmAvailable st)); [discriminate|].
  destruct (length cs =? 0); [discriminate|].
  destruct (generateJSON _ _ _) as [r|]; [|discriminate].
  destruct (negb (success r)); [discriminate|].
  destruct (data r) as [d|]; [|discriminate].
  destruct (choice d) as [z|]; [|discriminate].
  destruct (_ || _); [discriminate|].
  intros H. eapply list_elem_of_lookup_2; eauto.
Qed.

Lemma findExternalActionButton_ranked (st : Scraper) (p : Page)
    (excl : gset string) (c : ActionCandidate) :
  findExternalActionButton st p excl = Some c -> c ∈ rankPage excl p.
Proof.
  unfold findExternalActionButton.
  destruct (sortByScore (rankPage excl p)) as [|top rest] eqn:E; [discriminate|].
  destruct (selectExternalActionWithLLM _ _ _) as [pick|] eqn:Ep;
    intros H; inversion H; subst; clear H; apply sortByScore_elem; rewrite E.
  - apply selectExternalActionWithLLM_elem in Ep.
    eapply subseteq_take; eauto.
  - apply list_elem_of_here.
Qed.

(** C7. Whatever the page, the excluded signatures and the model's pick, the
    candidate [findExternalActionButton] returns is a control of the page
    whose combined text has no informational, authentication or negative
    keyword; in particular none of "how to apply", "sign in", "cancel",
    "discard". *)
Theorem ranker_never_returns_excluded_action (st : Scraper) (p : Page)
    (excl : gset string) (c : ActionCandidate) :
  findExternalActionButton st p excl = Some c ->
  (exists ctl, controlAt p (locator c) = Some ctl /\ label c = combinedText ctl)
  /\ isInformationalAction (label c) = false
  /\ isAuthAction (label c) = false
  /\ isNegativeAction (label c) = false
  /\ Js.includes (label c) "how to apply" = false
  /\ Js.includes (label c) "sign in" = false
  /\ Js.includes (label c) "cancel" = false
  /\ Js.includes (label c) "discard" = false.
Proof.
  intros H. apply findExternalActionButton_ranked, rankPage_elem in H
    as (ctl & Hctl & Hrank).
  apply rankControl_label in Hrank as (_ & Hlab & Hi & Ha & Hn & _).
  split; [eauto|].
  repeat split; try assumption.
  - unfold isInformationalAction in Hi. repeat (apply orb_false_iff in Hi as [Hi ?]).
    assumption.
  - unfold isAuthAction in Ha. repeat (apply orb_false_iff in Ha as [Ha ?]).
    assumption.
  - unfold isNegativeAction in Hn. repeat (apply orb_false_iff in Hn as [Hn ?]).
    assumption.
  - unfold isNegativeAction in Hn. repeat (apply orb_false_iff in Hn as [Hn ?]).
    assumption.
Qed.

Lemma ranker_never_returns_excluded_action_witness :
  (exists ctl, controlAt applyPage (locator submitCandidate) = Some ctl
               /\ label submitCandidate = combinedText ctl)
  /\ isInformationalAction (label submitCandidate) = false
  /\ isAuthAction (label submitCandidate) = false
  /\ isNegativeAction (label submitCandidate) = false
  /\ Js.includes (label submitCandidate) "how to apply" = false
  /\ Js.includes (label submitCandidate) "sign in" = false
  /\ Js.includes (label submitCandidate) "cancel" = false
  /\ Js.includes (label submitCandidate) "discard" = false.
Proof.
  apply (ranker_never_returns_excluded_action plainScraper applyPage ∅ submitCandidate).
  vm_compute. reflexivity.
Defined.

(** ** External flow: the no-progress exit *)

Lemma clicksOf_app (evs evs' : list FlowEvent) :
  clicksOf (evs ++ evs') = clicksOf evs ++ clicksOf evs'.
Proof.
  induction evs as [|e evs IH]; [reflexivity|].
  destruct e; simpl; rewrite ?IH; reflexivity.
Qed.

Ltac quiet_step :=
  apply ShapeQuiet;
  [ reflexivity
  | intros Hin; repeat (apply elem_of_cons in Hin as [Hin|Hin]; [discriminate|]);
    inversion Hin
  | intros ?; discriminate ].

Lemma externalStep_shape (st : Scraper) (step : nat) (v : StepView) (s : FlowState) :
  StepShape s (fst (externalStep st step v s)) (snd (externalStep st step v s)).
Proof.
  unfold externalStep.
  destruct (closed (atStart v)); [quiet_step|].
  destruct (isExternalLoginRequired (atStart v)); [quiet_step|].
  destruct (isExternalVerificationGate (atStart v)); [quiet_step|].
  destruct (isExternalApplicationSubmitted (afterFill v)); [quiet_step|].
  destruct (findExternalActionButton _ _ _) as [c|].
  2:{ destruct (isExternalApplicationSubmitted (afterPause v)); quiet_step. }
  destruct (clickWorks v); cbn [negb]; [|quiet_step].
  cbv zeta.
  destruct (String.eqb (getPageFingerprint (afterClick v))
                       (getPageFingerprint (afterFill v))) eqn:E;
    cbn [noProgressStreak clickedAtLeastOneAction].
  - destruct (Nat.leb_spec 3 (S (noProgressStreak s))) as [Hge|Hlt];
      cbn [fst snd app failedOrSkipped].
    + apply ShapeExit; [now apply String.eqb_eq | assumption].
    + apply ShapeClick; cbn [noProgressStreak clickedAtLeastOneAction];
        [reflexivity | now rewrite E | assumption].
  - destruct (Nat.leb_spec 3 0) as [Hge|Hlt]; [lia|].
    cbn [fst snd app].
    apply ShapeClick; cbn [noProgressStreak clickedAtLeastOneAction];
      [reflexivity | now rewrite E | lia].
Qed.

Lemma externalLoop_exit (st : Scraper) (site : ExternalSite) (fuel : nat) :
  forall (step : nat) (s : FlowState),
    NoProgressExit ∈ snd (externalLoop st site fuel step s) ->
    fst (externalLoop st site fuel step s) = inl Failed
    /\ clicksOf (snd (externalLoop st site fuel step s)) <> [].
Proof.
  induction fuel as [|fuel IH]; intros step s; simpl.
  - intros H. inversion H.
  - pose proof (externalStep_shape st step (views site step) s) as Hshape.
    destruct (externalStep st step (views site step) s) as [r evs]. simpl in Hshape.
    inversion Hshape as [r' evs' Hc Hno Hr|step' l b a s' Hcl Hst Hlt|step' l b a Hab Hge];
      subst.
    + destruct r as [status|s'|s']; simpl; try (intros H; now destruct (Hno H)).
      now destruct (Hr s').
    + specialize (IH (S step) s').
      destruct (externalLoop st site fuel (S step) s') as [r' evs']. simpl in *.
      intros H. repeat (apply elem_of_cons in H as [H|H]; [discriminate|]).
      destruct (IH H) as [-> _]. split; [reflexivity | discriminate].
    + simpl. intros _. split; [reflexivity | discriminate].
Qed.

(** C9. The exit taken when the no-progress streak reaches three always
    reports [Failed]: whatever the loop state, a pass through the body that
    leaves by that exit has clicked an action first, and a run that leaves by
    it has a click in its trace. *)
Theorem no_progress_exit_reports_failed (st : Scraper) (site : ExternalSite) :
  (forall step v s,
      NoProgressExit ∈ snd (externalStep st step v s) ->
      fst (externalStep st step v s) = Return Failed)
  /\ (NoProgressExit ∈ snd (completeExternalApplication st site) ->
      fst (completeExternalApplication st site) = Failed
      /\ clicksOf (snd (completeExternalApplication st site)) <> []).
Proof.
  split.
  - intros step v s.
    pose proof (externalStep_shape st step v s) as Hshape.
    destruct (externalStep st step v s) as [r evs]. simpl in *.
    inversion Hshape as [r' evs' Hc Hno Hr|step' l b a s' Hcl Hst Hlt|step' l b a Hab Hge];
      subst.
    + intros H. now destruct (Hno H).
    + intros H. repeat (apply elem_of_cons in H as [H|H]; [discriminate|]).
      inversion H.
    + reflexivity.
  - unfold completeExternalApplication.
    pose proof (externalLoop_exit st site 14 0 initialFlowState) as Hloop.
    destruct (externalLoop st site 14 0 initialFlowState) as [[status|s] evs];
      simpl in Hloop.
    + simpl. intros H. destruct (Hloop H) as [Heq Hne]. now inversion Heq.
    + destruct (isExternalApplicationSubmitted (atEnd site)); simpl;
        intros H; destruct (Hloop H) as [Heq _]; discriminate.
Qed.

Lemma no_progress_exit_reports_failed_witness :
  fst (completeExternalApplication plainScraper stuckSite) = Failed
  /\ clicksOf (snd (completeExternalApplication plainScraper stuckSite)) <> [].
Proof.
  apply (proj2 (no_progress_exit_reports_failed plainScraper stuckSite)).
  vm_compute.
  repeat first [ apply list_elem_of_here | apply list_elem_of_further ].
Defined.

(** ** External flow: three clicks without progress *)

(** The streak counts the clicks without progress at the end of the trace:
    once the clicks of the rest of the run begin with enough of them to bring
    the streak to three, the run ends there. *)
Lemma externalLoop_streak (st : Scraper) (site : ExternalSite) (fuel : nat) :
  forall (step : nat) (s : FlowState),
    noProgressStreak s <= 2 ->
    (forall nps post,
        clicksOf (snd (externalLoop st site fuel step s)) = nps ++ post ->
        Forall noProgress nps -> 3 <= length nps + noProgressStreak s ->
        post = [] /\ fst (externalLoop st site fuel step s) = inl Failed
        /\ endsAtNoProgressExit (snd (externalLoop st site fuel step s)))
    /\ (forall pre nps post,
        clicksOf (snd (externalLoop st site fuel step s)) = pre ++ nps ++ post ->
        Forall noProgress nps -> length nps = 3 ->
        post = [] /\ fst (externalLoop st site fuel step s) = inl Failed
        /\ endsAtNoProgressExit (snd (externalLoop st site fuel step s))).
Proof.
  induction fuel as [|fuel IH]; intros step s Hs.
  - simpl. split.
    + intros nps post H _ Hlen. symmetry in H. apply app_eq_nil in H as [-> ->].
      simpl in Hlen. lia.
    + intros pre nps post H _ Hlen. symmetry in H.
      apply app_eq_nil in H as [_ H]. apply app_eq_nil in H as [-> _].
      discriminate.
  - cbn [externalLoop].
    pose proof (externalStep_shape st step (views site step) s) as Hshape.
    destruct (externalStep st step (views site step) s) as [r evs]. simpl in Hshape.
    inversion Hshape as [r' evs' Hc Hno Hr|step' l b a s' Hcl Hst Hlt|step' l b a Hab Hge];
      subst.
    + assert (forall nps post,
                 clicksOf evs = nps ++ post -> nps = [] /\ post = []) as Hnil.
      { intros nps post H. rewrite Hc in H. symmetry in H.
        now apply app_eq_nil in H. }
      destruct r as [status|s'|s']; [| |now destruct (Hr s')]; simpl; split.
      * intros nps post H _ Hlen. apply Hnil in H as [-> ->]. simpl in Hlen. lia.
      * intros pre nps post H _ Hlen. rewrite Hc in H. symmetry in H.
        apply app_eq_nil in H as [_ H]. apply app_eq_nil in H as [-> _].
        discriminate.
      * intros nps post H _ Hlen. apply Hnil in H as [-> ->]. simpl in Hlen. lia.
      * intros pre nps post H _ Hlen. rewrite Hc in H. symmetry in H.
        apply app_eq_nil in H as [_ H]. apply app_eq_nil in H as [-> _].
        discriminate.
    + assert (noProgressStreak s' <= 2) as Hs' by lia.
      specialize (IH (S step) s' Hs') as [IHB IHA].
      destruct (externalLoop st site fuel (S step) s') as [r' evs'].
      cbn [fst snd] in *.
      assert (forall nps post,
                 (b, a) :: clicksOf evs' = nps ++ post ->
                 Forall noProgress nps -> 3 <= length nps + noProgressStreak s ->
                 post = [] /\ r' = inl Failed
                 /\ endsAtNoProgressExit ([FilledForm step'; Clicked l b a] ++ evs'))
        as HB.
      { intros nps post H Hnp Hlen.
        destruct nps as [|c nps]; [simpl in Hlen; lia|].
        simpl in H. injection H as <- Hrest.
        inversion Hnp as [|? ? Hc Hnps]; subst.
        unfold noProgress in Hc. simpl in Hc. subst a.
        rewrite String.eqb_refl in Hst.
        destruct (IHB nps post Hrest Hnps) as (-> & -> & (evs0 & l' & b' & a' & ->)).
        { simpl in Hlen. lia. }
        repeat split.
        exists ([FilledForm step'; Clicked l b b] ++ evs0), l', b', a'.
        now rewrite <- app_assoc. }
      cbn [app clicksOf]. split.
      * intros nps post H Hnp Hlen. exact (HB nps post H Hnp Hlen).
      * intros pre nps post H Hnp Hlen.
        destruct pre as [|c pre].
        -- apply (HB nps post); [exact H | exact Hnp | lia].
        -- simpl in H. injection H as <- Hrest.
           destruct (IHA pre nps post Hrest Hnp Hlen)
             as (-> & -> & (evs0 & l' & b' & a' & ->)).
           repeat split.
           exists ([FilledForm step'; Clicked l b a] ++ evs0), l', b', a'.
           now rewrite <- app_assoc.
    + cbn [fst snd clicksOf]. split.
      * intros nps post H Hnp Hlen.
        destruct nps as [|c nps]; [simpl in Hlen; lia|].
        simpl in H. injection H as <- Hrest. symmetry in Hrest.
        apply app_eq_nil in Hrest as [-> ->].
        repeat split. exists [FilledForm step'], l, b, b. reflexivity.
      * intros pre nps post H _ Hlen.
        apply (f_equal (@length _)) in H. rewrite !length_app in H.
        simpl in H. lia.
Qed.

Lemma clicksOf_some_click (evs : list FlowEvent) :
  clicksOf evs <> [] -> existsb isClick evs = true.
Proof.
  induction evs as [|e evs IH]; [intros H; now destruct H|].
  destruct e; simpl; auto.
Qed.

(** C2. If three clicks in a row each leave the page fingerprint unchanged,
    the run of [completeExternalApplication] ends with the third: no click
    follows, the last events are that click and the no-progress exit, and the
    status is [Failed] when an action was clicked and [Skipped] when none
    was; an action was clicked, so it is [Failed]. *)
Theorem three_clicks_without_progress_end_the_flow (st : Scraper)
    (site : ExternalSite) (pre post : list (string * string))
    (c1 c2 c3 : string * string) :
  clicksOf (snd (completeExternalApplication st site))
    = pre ++ [c1; c2; c3] ++ post ->
  noProgress c1 -> noProgress c2 -> noProgress c3 ->
  post = []
  /\ fst (completeExternalApplication st site)
     = failedOrSkipped (existsb isClick (snd (completeExternalApplication st site)))
  /\ fst (completeExternalApplication st site) = Failed
  /\ endsAtNoProgressExit (snd (completeExternalApplication st site)).
Proof.
  intros H H1 H2 H3.
  rewrite (clicksOf_some_click (snd (completeExternalApplication st site)));
    [|rewrite H; now destruct pre].
  cbn [failedOrSkipped].
  unfold completeExternalApplication in *.
  pose proof (externalLoop_streak st site 14 0 initialFlowState) as Hloop.
  destruct (externalLoop st site 14 0 initialFlowState) as [r evs].
  cbn [fst snd] in Hloop.
  assert (clicksOf evs = pre ++ [c1; c2; c3] ++ post) as Hevs.
  { destruct r as [status|s]; [exact H|].
    destruct (isExternalApplicationSubmitted (atEnd site)); exact H. }
  destruct Hloop as [_ HA]; [simpl; lia|].
  destruct (HA pre [c1; c2; c3] post Hevs) as (-> & -> & Hend);
    [repeat constructor; assumption | reflexivity |].
  simpl. auto.
Qed.

Lemma three_clicks_without_progress_witness :
  @nil (string * string) = []
  /\ fst (completeExternalApplication plainScraper stuckSite)
     = failedOrSkipped
         (existsb isClick (snd (completeExternalApplication plainScraper stuckSite)))
  /\ fst (completeExternalApplication plainScraper stuckSite) = Failed
  /\ endsAtNoProgressExit (snd (completeExternalApplication plainScraper stuckSite)).
Proof.
  apply (three_clicks_without_progress_end_the_flow plainScraper stuckSite [] []
           (getPageFingerprint applyPage, getPageFingerprint applyPage)
           (getPageFingerprint applyPage, getPageFingerprint applyPage)
           (getPageFingerprint applyPage, getPageFingerprint applyPage));
    [vm_compute; reflexivity | reflexivity | reflexivity | reflexivity].
Defined.

(** ** Duplicate job cards *)

Lemma registeredKeys_app (a b : list CardEvent) :
  registeredKeys (a ++ b) = registeredKeys a ++ registeredKeys b.
Proof.
  induction a as [|e a IH]; [reflexivity|].
  destruct e; simpl; rewrite ?IH; reflexivity.
Qed.

Lemma applyKeys_app (a b : list CardEvent) :
  applyKeys (a ++ b) = applyKeys a ++ applyKeys b.
Proof.
  induction a as [|e a IH]; [reflexivity|].
  destruct e; simpl; rewrite ?IH; reflexivity.
Qed.

Lemma cardFailed_inv (i : nat) (st : Scraper) (c : Counters) (evs : list CardEvent)
    (ss : Session) :
  SessionInv {| scraper := st; counters := counters ss; events := evs |} ->
  SessionInv (cardFailed i st c evs).
Proof.
  intros [Hn Hs Ha]. unfold cardFailed. simpl in *.
  split; simpl; rewrite ?registeredKeys_app, ?applyKeys_app; simpl;
    rewrite ?app_nil_r; assumption.
Qed.

Lemma runExternal_inv (i : nat) (v : CardView) (st : Scraper) (c : Counters)
    (evs : list CardEvent) :
  SessionInv {| scraper := st; counters := c; events := evs |} ->
  SessionInv (runExternal i v st c evs).
Proof.
  intros H. unfold runExternal.
  destruct (externalFlow v) as [[| |]|];
    try (destruct H as [Hn Hs Ha]; split; assumption).
  now apply (cardFailed_inv i st c evs {| scraper := st; counters := c; events := evs |}).
Qed.

Lemma runEasyApply_inv (i : nat) (v : CardView) (st : Scraper) (c : Counters)
    (evs : list CardEvent) :
  SessionInv {| scraper := st; counters := c; events := evs |} ->
  SessionInv (runEasyApply i v st c evs).
Proof.
  intros H. unfold runEasyApply.
  destruct (easyApplyFlow v) as [result|].
  - destruct (dismissFails v).
    + now apply (cardFailed_inv i st _ evs {| scraper := st; counters := c; events := evs |}).
    + destruct H as [Hn Hs Ha]; split; assumption.
  - now apply (cardFailed_inv i st c evs {| scraper := st; counters := c; events := evs |}).
Qed.

Lemma processCard_inv (i : nat) (v : CardView) (ss : Session) :
  SessionInv ss -> SessionInv (processCard i v ss).
Proof.
  intros Hinv. pose proof Hinv as [Hn Hs Ha]. unfold processCard.
  destruct (openFails v).
  { apply (cardFailed_inv i _ _ _ ss). destruct ss; split; assumption. }
  cbn [currentJobContext withJob withCache processedJobKeys].
  set (k := getJobKey (captured v)).
  case_bool_decide as Hk.
  { split; simpl; rewrite ?registeredKeys_app, ?applyKeys_app; simpl;
      rewrite ?app_nil_r; assumption. }
  assert (k ∉ registeredKeys (events ss)) as Hfresh by (intros Hin; auto).
  assert (forall tail,
             registeredKeys tail = [] ->
             (forall x, x ∈ applyKeys tail -> x = k) ->
             SessionInv
               {| scraper :=
                    withProcessedJobKeys
                      (withJob (withCache (scraper ss) ∅) (captured v))
                      ({[k]} ∪ processedJobKeys (scraper ss));
                  counters := counters ss;
                  events := (events ss ++ [OpenedCard i; KeyRegistered k]) ++ tail |})
    as Hstep.
  { intros tail Hreg Happ. split; simpl;
      rewrite ?registeredKeys_app, ?applyKeys_app, ?Hreg; simpl;
      rewrite ?app_nil_r.
    - apply NoDup_app. repeat split; [assumption| |apply NoDup_singleton].
      intros x Hx Hx'. apply list_elem_of_singleton in Hx'. now subst.
    - intros x Hx. apply elem_of_app in Hx as [Hx|Hx].
      + apply elem_of_union_r. auto.
      + apply list_elem_of_singleton in Hx. subst. apply elem_of_union_l.
        now apply elem_of_singleton.
    - intros x Hx. apply elem_of_app in Hx as [Hx|Hx].
      + apply elem_of_app. left. auto.
      + apply Happ in Hx. subst. apply elem_of_app. right.
        now apply list_elem_of_singleton. }
  assert (forall x : string, x ∈ [k] -> x = k) as Hone
    by (intros x Hx; now apply list_elem_of_singleton in Hx).
  assert (forall x : string, x ∈ [k; k] -> x = k) as Htwo.
  { intros x Hx. apply elem_of_cons in Hx as [Hx|Hx]; auto. }
  destruct (easyApplyButton v).
  - destruct (negb (modalOpened v)).
    + destruct (negb (externalButton v)).
      * apply Hstep; [reflexivity | exact Hone].
      * apply runExternal_inv, Hstep; [reflexivity | exact Htwo].
    + apply runEasyApply_inv, Hstep; [reflexivity | exact Hone].
  - destruct (externalButton v).
    + apply runExternal_inv, Hstep; [reflexivity | exact Hone].
    + apply Hstep; [reflexivity|]. intros x Hx. inversion Hx.
Qed.

Lemma cardLoop_inv (maxApplications : Z) (cards : nat -> CardView) (fuel : nat) :
  forall (i : nat) (ss : Session),
    SessionInv ss -> SessionInv (cardLoop maxApplications cards fuel i ss).
Proof.
  induction fuel as [|fuel IH]; intros i ss Hinv; simpl; [assumption|].
  destruct (applied (counters ss) <? maxApplications)%Z; [|assumption].
  destruct (recoveryFails (cards i)).
  - apply IH. apply (cardFailed_inv i _ _ _ ss). destruct ss; assumption.
  - destruct (cardListed (cards i)); [|assumption].
    apply IH. now apply processCard_inv.
Qed.

(** C5. In one session of [applyEasyApplyJobs] a job key goes past the
    duplicate check at most once, and an apply attempt is only started for a
    key that went past it; a card whose key is already in [processedJobKeys]
    is skipped: the counters and the set of keys stay as they were and no
    apply attempt is started. *)
Theorem duplicate_card_is_skipped (st : Scraper) (cardCount : nat)
    (maxApplications : Z) (cards : nat -> CardView) :
  (NoDup (registeredKeys (events (applyEasyApplyJobs st cardCount maxApplications cards)))
   /\ forall k,
        k ∈ applyKeys (events (applyEasyApplyJobs st cardCount maxApplications cards)) ->
        k ∈ registeredKeys (events (applyEasyApplyJobs st cardCount maxApplications cards)))
  /\ (forall i v ss,
        openFails v = false ->
        getJobKey (captured v) ∈ processedJobKeys (scraper ss) ->
        counters (processCard i v ss) = counters ss
        /\ processedJobKeys (scraper (processCard i v ss))
           = processedJobKeys (scraper ss)
        /\ events (processCard i v ss)
           = events ss ++ [OpenedCard i; DuplicateSkipped (getJobKey (captured v))]
        /\ applyKeys (events (processCard i v ss)) = applyKeys (events ss)).
Proof.
  split.
  - assert (SessionInv (applyEasyApplyJobs st cardCount maxApplications cards))
      as [Hn _ Ha].
    { unfold applyEasyApplyJobs. apply cardLoop_inv.
      split; simpl; [apply NoDup_nil_2 | intros k H; inversion H
                    | intros k H; inversion H]. }
    split; assumption.
  - intros i v ss Hopen Hseen. unfold processCard. rewrite Hopen.
    cbn [currentJobContext withJob withCache processedJobKeys].
    rewrite bool_decide_eq_true_2 by assumption. simpl.
    repeat split. rewrite applyKeys_app. simpl. now rewrite app_nil_r.
Qed.

Lemma duplicate_card_is_skipped_witness :
  let ss := processCard 0 (easyCard backendJob) freshSession in
  counters (processCard 1 (easyCard backendJobAgain) ss) = counters ss
  /\ processedJobKeys (scraper (processCard 1 (easyCard backendJobAgain) ss))
     = processedJobKeys (scraper ss)
  /\ events (processCard 1 (easyCard backendJobAgain) ss)
     = events ss ++ [OpenedCard 1;
                     DuplicateSkipped (getJobKey (captured (easyCard backendJobAgain)))]
  /\ applyKeys (events (processCard 1 (easyCard backendJobAgain) ss))
     = applyKeys (events ss).
Proof.
  intros ss.
  apply (proj2 (duplicate_card_is_skipped plainScraper 2 5
                  (fun _ => easyCard backendJob))
           1 (easyCard backendJobAgain) ss).
  - reflexivity.
  - apply (bool_decide_unpack _). vm_compute. exact I.
Defined.

(** ** inferFieldAnswer and its cache *)

Lemma cacheAndReturn_fst (key : string) (v : option string) (st : Scraper) :
  fst (cacheAndReturn key v st) = v.
Proof.
  unfold cacheAndReturn. destruct v as [a|]; [|reflexivity].
  now destruct (Js.truthy a).
Qed.

Lemma cacheAndReturn_cache_other (key k : string) (v : option string) (st : Scraper) :
  k <> key ->
  inferredAnswerCache (snd (cacheAndReturn key v st)) !! k
  = inferredAnswerCache st !! k.
Proof.
  intros Hk. unfold cacheAndReturn. destruct v as [a|]; [|reflexivity].
  destruct (Js.truthy a); [|reflexivity].
  simpl. now rewrite lookup_insert_ne.
Qed.

Lemma cacheAndReturn_cached (key a : string) (v : option string) (st : Scraper) :
  fst (cacheAndReturn key v st) = Some a -> Js.truthy a = true ->
  inferredAnswerCache (snd (cacheAndReturn key v st)) !! key = Some a.
Proof.
  intros Hv Ha. rewrite cacheAndReturn_fst in Hv. subst v.
  unfold cacheAndReturn. rewrite Ha. simpl. apply lookup_insert_eq.
Qed.

Lemma cacheAndReturn_calls (key : string) (v : option string) (st : Scraper) :
  llmCalls (snd (cacheAndReturn key v st)) = llmCalls st.
Proof.
  unfold cacheAndReturn. destruct v as [a|]; [|reflexivity].
  now destruct (Js.truthy a).
Qed.

(** What the answer depends on: the model, the hints, the candidate, the
    job and the one cache entry under the key. *)
Lemma inferFieldAnswer_answer_ext (ctx ft : string) (st st' : Scraper) :
  llm st = llm st' -> llmAvailable st = llmAvailable st' ->
  answerHints st = answerHints st' -> candidateEnv st = candidateEnv st' ->
  currentJobContext st = currentJobContext st' ->
  inferredAnswerCache st !! cacheKey ctx ft
  = inferredAnswerCache st' !! cacheKey ctx ft ->
  fst (inferFieldAnswer ctx ft st) = fst (inferFieldAnswer ctx ft st').
Proof.
  intros Hl Ha Hh He Hj Hc. unfold inferFieldAnswer.
  rewrite <- Hl, <- Ha, <- Hh, <- Hj, <- Hc.
  destruct (Js.truthyOpt _); [reflexivity|].
  destruct (llm st) as [client|]; [|now rewrite !cacheAndReturn_fst].
  destruct (llmAvailable st); [|now rewrite !cacheAndReturn_fst].
  destruct (_ && _); [now rewrite !cacheAndReturn_fst|].
  unfold askModel, fieldUserPrompt. rewrite <- Hh, <- He, <- Hj.
  destruct (generate client _); now rewrite !cacheAndReturn_fst.
Qed.

(** A call writes at most the cache entry under its own key. *)
Lemma inferFieldAnswer_cache_other (ctx ft k : string) (st : Scraper) :
  k <> cacheKey ctx ft ->
  inferredAnswerCache (snd (inferFieldAnswer ctx ft st)) !! k
  = inferredAnswerCache st !! k.
Proof.
  intros Hk. unfold inferFieldAnswer.
  destruct (Js.truthyOpt _); [reflexivity|].
  destruct (llm st) as [client|]; [|now apply cacheAndReturn_cache_other].
  destruct (llmAvailable st); [|now apply cacheAndReturn_cache_other].
  destruct (_ && _); [now apply cacheAndReturn_cache_other|].
  unfold askModel.
  destruct (generate client _); now rewrite cacheAndReturn_cache_other.
Qed.

Lemma inferFieldAnswer_frame (ctx ft : string) (st : Scraper) :
  llm (snd (inferFieldAnswer ctx ft st)) = llm st
  /\ llmAvailable (snd (inferFieldAnswer ctx ft st)) = llmAvailable st
  /\ answerHints (snd (inferFieldAnswer ctx ft st)) = answerHints st
  /\ candidateEnv (snd (inferFieldAnswer ctx ft st)) = candidateEnv st
  /\ currentJobContext (snd (inferFieldAnswer ctx ft st)) = currentJobContext st.
Proof.
  assert (forall key v s,
             llm (snd (cacheAndReturn key v s)) = llm s
             /\ llmAvailable (snd (cacheAndReturn key v s)) = llmAvailable s
             /\ answerHints (snd (cacheAndReturn key v s)) = answerHints s
             /\ candidateEnv (snd (cacheAndReturn key v s)) = candidateEnv s
             /\ currentJobContext (snd (cacheAndReturn key v s)) = currentJobContext s)
    as Hcr.
  { intros key v s. unfold cacheAndReturn. destruct v as [a|]; [|auto].
    destruct (Js.truthy a); simpl; auto. }
  unfold inferFieldAnswer.
  destruct (Js.truthyOpt _); [simpl; auto|].
  destruct (llm st) as [client|] eqn:El;
    [destruct (llmAvailable st) eqn:Ea; [destruct (_ && _)|]|];
    try (match goal with
         | |- context [cacheAndReturn ?k ?v st] =>
             destruct (Hcr k v st) as (? & ? & ? & ? & ?)
         end; repeat split; congruence).
  unfold askModel.
  destruct (generate client _);
    match goal with
    | |- context [cacheAndReturn ?k ?v ?s] =>
        destruct (Hcr k v s) as (? & ? & ? & ? & ?)
    end; simpl in *; repeat split; congruence.
Qed.

(** An answer that is returned is in the cache afterwards. *)
Lemma inferFieldAnswer_cached (ctx ft a : string) (st : Scraper) :
  fst (inferFieldAnswer ctx ft st) = Some a -> Js.truthy a = true ->
  inferredAnswerCache (snd (inferFieldAnswer ctx ft st)) !! cacheKey ctx ft = Some a.
Proof.
  unfold inferFieldAnswer.
  destruct (Js.truthyOpt _) eqn:Ec.
  { simpl. intros -> _. reflexivity. }
  destruct (llm st) as [client|]; [|apply cacheAndReturn_cached].
  destruct (llmAvailable st); [|apply cacheAndReturn_cached].
  destruct (_ && _); [apply cacheAndReturn_cached|].
  unfold askModel.
  destruct (generate client _); apply cacheAndReturn_cached.
Qed.

(** *** Heuristic-preferred intents *)

(** C1, as stated, fails: a LinkedIn field is heuristic-preferred, but with
    no LinkedIn URL configured the model is asked and its answer is returned,
    while without a model the field has no answer. *)
Lemma preferred_intent_still_consults_model :
  shouldPreferHeuristic (detectFieldIntent "LinkedIn profile URL" "text") = true
  /\ fst (inferFieldAnswer "LinkedIn profile URL" "text" modelScraper)
     = Some "https://www.linkedin.com/in/candidate"
  /\ fst (inferFieldAnswer "LinkedIn profile URL" "text" plainScraper) = None
  /\ length (llmCalls (snd (inferFieldAnswer "LinkedIn profile URL" "text" modelScraper)))
     = 1.
Proof. vm_compute. repeat split; reflexivity. Qed.

(** C1, amended. For a field whose intent is heuristic-preferred and whose
    heuristic value is a non-empty string, [inferFieldAnswer] gives the same
    answer and the same cache whatever model is configured and whether or
    not it is available, it sends the model nothing, and on a cache miss the
    answer is the heuristic value. *)
Theorem preferred_heuristic_ignores_model (st : Scraper) (ctx ft h : string)
    (client1 client2 : option OllamaClient) (available1 available2 : bool) :
  shouldPreferHeuristic (detectFieldIntent ctx ft) = true ->
  getHeuristicFieldAnswer (answerHints st) (currentJobContext st) ctx ft = Some h ->
  Js.truthy h = true ->
  fst (inferFieldAnswer ctx ft (withLlm st client1 available1))
  = fst (inferFieldAnswer ctx ft (withLlm st client2 available2))
  /\ inferredAnswerCache (snd (inferFieldAnswer ctx ft (withLlm st client1 available1)))
     = inferredAnswerCache (snd (inferFieldAnswer ctx ft (withLlm st client2 available2)))
  /\ llmCalls (snd (inferFieldAnswer ctx ft (withLlm st client1 available1)))
     = llmCalls st
  /\ (Js.truthyOpt (inferredAnswerCache st !! cacheKey ctx ft) = false ->
      fst (inferFieldAnswer ctx ft (withLlm st client1 available1)) = Some h).
Proof.
  intros Hpref Hheur Hh.
  assert (forall client available,
             inferFieldAnswer ctx ft (withLlm st client available)
             = if Js.truthyOpt (inferredAnswerCache st !! cacheKey ctx ft)
               then (inferredAnswerCache st !! cacheKey ctx ft,
                     withLlm st client available)
               else (Some h,
                     withCache (withLlm st client available)
                       (<[cacheKey ctx ft := h]> (inferredAnswerCache st)))) as Hrun.
  { intros client available. unfold inferFieldAnswer.
    cbn [withLlm inferredAnswerCache llm llmAvailable answerHints currentJobContext].
    destruct (Js.truthyOpt _); [reflexivity|].
    rewrite Hheur, Hpref. cbn [Js.truthyOpt andb]. rewrite Hh.
    unfold cacheAndReturn. rewrite Hh.
    destruct client; [destruct available|]; reflexivity. }
  rewrite !Hrun.
  destruct (Js.truthyOpt _); simpl; repeat split; auto; discriminate.
Qed.

Lemma preferred_heuristic_ignores_model_witness :
  fst (inferFieldAnswer "Notice period (weeks)" "text"
         (withLlm plainScraper (Some (answeringClient "Immediately")) true))
  = fst (inferFieldAnswer "Notice period (weeks)" "text"
           (withLlm plainScraper None false))
  /\ inferredAnswerCache
       (snd (inferFieldAnswer "Notice period (weeks)" "text"
               (withLlm plainScraper (Some (answeringClient "Immediately")) true)))
     = inferredAnswerCache
         (snd (inferFieldAnswer "Notice period (weeks)" "text"
                 (withLlm plainScraper None false)))
  /\ llmCalls
       (snd (inferFieldAnswer "Notice period (weeks)" "text"
               (withLlm plainScraper (Some (answeringClient "Immediately")) true)))
     = llmCalls plainScraper
  /\ (Js.truthyOpt
        (inferredAnswerCache plainScraper !! cacheKey "Notice period (weeks)" "text")
      = false ->
      fst (inferFieldAnswer "Notice period (weeks)" "text"
             (withLlm plainScraper (Some (answeringClient "Immediately")) true))
      = Some "2 weeks").
Proof.
  apply (preferred_heuristic_ignores_model plainScraper "Notice period (weeks)"
           "text" "2 weeks" (Some (answeringClient "Immediately")) None true false);
    reflexivity.
Defined.

(** *** Field types and cache keys *)

Lemma autoFillFormFieldType_caller (required : bool) (type : option string)
    (ft : string) :
  autoFillFormFieldType required type = Some ft -> In ft callerFieldTypes.
Proof.
  unfold autoFillFormFieldType, callerFieldTypes.
  destruct required; [|discriminate].
  destruct type as [t|]; [|intros H; inversion H; simpl; auto].
  destruct (String.eqb_spec t "text") as [->|_]; [intros H; inversion H; simpl; auto|].
  destruct (String.eqb_spec t "number") as [->|_]; [intros H; inversion H; simpl; auto|].
  destruct (String.eqb_spec t "search") as [->|_]; [intros H; inversion H; simpl; auto 7|].
  destruct (String.eqb_spec t "url") as [->|_]; [intros H; inversion H; simpl; auto 7|].
  destruct (String.eqb_spec t "tel") as [->|_]; [intros H; inversion H; simpl; auto 7|].
  destruct (String.eqb_spec t "email") as [->|_]; [intros H; inversion H; simpl; auto 7|].
  discriminate.
Qed.

Lemma cacheKey_caller_types (ctx ft1 ft2 : string) :
  In ft1 callerFieldTypes -> In ft2 callerFieldTypes -> ft1 <> ft2 ->
  cacheKey ctx ft1 <> cacheKey ctx ft2.
Proof.
  unfold callerFieldTypes, cacheKey. intros H1 H2 Hne.
  repeat (destruct H1 as [<-|H1]; [|]); try contradiction;
    repeat (destruct H2 as [<-|H2]; [|]); try contradiction;
    try congruence;
    cbn [String.append Js.substring0 Js.toLowerCase]; intros Heq;
    repeat (injection Heq as Hc Heq; try discriminate Hc).
Qed.

(** C6. For two calls of [inferFieldAnswer] with the same field context and
    two different field types among those the callers pass, the keys differ:
    the first call leaves the entry the second one looks up as it was, and
    the second call answers as if the first had not been made. *)
Theorem cache_hit_respects_field_type (st : Scraper) (ctx ft1 ft2 : string) :
  In ft1 callerFieldTypes -> In ft2 callerFieldTypes -> ft1 <> ft2 ->
  cacheKey ctx ft1 <> cacheKey ctx ft2
  /\ inferredAnswerCache (snd (inferFieldAnswer ctx ft1 st)) !! cacheKey ctx ft2
     = inferredAnswerCache st !! cacheKey ctx ft2
  /\ fst (inferFieldAnswer ctx ft2 (snd (inferFieldAnswer ctx ft1 st)))
     = fst (inferFieldAnswer ctx ft2 st).
Proof.
  intros H1 H2 Hne.
  pose proof (cacheKey_caller_types ctx ft1 ft2 H1 H2 Hne) as Hkey.
  assert (inferredAnswerCache (snd (inferFieldAnswer ctx ft1 st)) !! cacheKey ctx ft2
          = inferredAnswerCache st !! cacheKey ctx ft2) as Hsame
    by (apply inferFieldAnswer_cache_other; congruence).
  repeat split; [assumption | assumption |].
  destruct (inferFieldAnswer_frame ctx ft1 st) as (Hl & Ha & Hh & He & Hj).
  now apply inferFieldAnswer_answer_ext.
Qed.

Lemma cache_hit_respects_field_type_witness :
  cacheKey "Years of experience with Go" "text"
  <> cacheKey "Years of experience with Go" "number"
  /\ inferredAnswerCache
       (snd (inferFieldAnswer "Years of experience with Go" "text" plainScraper))
       !! cacheKey "Years of experience with Go" "number"
     = inferredAnswerCache plainScraper !! cacheKey "Years of experience with Go" "number"
  /\ fst (inferFieldAnswer "Years of experience with Go" "number"
            (snd (inferFieldAnswer "Years of experience with Go" "text" plainScraper)))
     = fst (inferFieldAnswer "Years of experience with Go" "number" plainScraper).
Proof.
  apply (cache_hit_respects_field_type plainScraper
           "Years of experience with Go" "text" "number").
  - simpl. auto.
  - simpl. auto.
  - discriminate.
Defined.

(** *** Truncated keys *)

Lemma substring0_app (n : nat) (x y : string) :
  Js.substring0 n (x +:+ y)
  = Js.substring0 n x +:+ Js.substring0 (n - String.length x) y.
Proof.
  revert n; induction x as [|c x IH]; intros n; simpl.
  - rewrite Nat.sub_0_r. now destruct n.
  - destruct n as [|n]; simpl; [reflexivity | now rewrite IH].
Qed.

(** In terms of the context alone: the key only sees its first
    [299 - length fieldType] characters, lower-cased. *)
Lemma cacheKey_prefix (ft ctx1 ctx2 : string) :
  Js.toLowerCase (Js.substring0 (299 - String.length ft) ctx1)
  = Js.toLowerCase (Js.substring0 (299 - String.length ft) ctx2) ->
  cacheKey ctx1 ft = cacheKey ctx2 ft.
Proof.
  intros H. unfold cacheKey.
  rewrite !(substring0_app 300 ft), !toLowerCase_app. f_equal.
  destruct (300 - String.length ft) as [|m] eqn:Em; [reflexivity|].
  replace (299 - String.length ft) with m in H by lia.
  change (":" +:+ ctx1) with (String ":" ctx1).
  change (":" +:+ ctx2) with (String ":" ctx2).
  simpl. now rewrite H.
Qed.




(** Without the first call the second context gets its own answer. *)
Example notice_context_alone :
  fst (inferFieldAnswer longNoticeContext "text" plainScraper) = Some "2 weeks".
Proof. vm_compute. reflexivity. Qed.

(** ** Radio questions *)


Example two_questions_answered :
  let after := radios (answerRequiredBooleanQuestions (readAnswerHints noEnv)
                         twoQuestionForm) in
  selectedIn after sponsorshipGroup = [1] /\ selectedIn after remoteGroup = [2].
Proof. vm_compute. split; reflexivity. Qed.

Lemma selectRadio_lookup (i j : nat) (rs : list Radio) (r : Radio) :
  rs !! i = Some r ->
  selectRadio i rs !! j
  = (fun x => if j =? i then setChecked x true
              else if Js.truthy (radioName r) && String.eqb (radioName x) (radioName r)
                   then setChecked x false
                   else x) <$> rs !! j.
Proof.
  intros H. unfold selectRadio. rewrite H. apply list_lookup_imap.
Qed.

Lemma selectRadio_static (i : nat) (rs : list Radio) :
  static <$> selectRadio i rs = static <$> rs.
Proof.
  destruct (rs !! i) as [r|] eqn:E; [|unfold selectRadio; now rewrite E].
  apply list_eq. intros j. rewrite !list_lookup_fmap, (selectRadio_lookup i j rs r E).
  destruct (rs !! j) as [x|]; [|reflexivity]. simpl.
  destruct (j =? i); [reflexivity|]. now destruct (_ && _).
Qed.

Lemma checkOrForceClick_static (i : nat) (rs : list Radio) :
  static <$> checkOrForceClick i rs = static <$> rs.
Proof.
  unfold checkOrForceClick. destruct (rs !! i) as [r|]; [|reflexivity].
  destruct (_ || _); [apply selectRadio_static | reflexivity].
Qed.

Lemma answerGroup_static (hints : AnswerHints) (labels : list (string * string))
    (rs : list Radio) (g : RadioGroup) :
  static <$> answerGroup hints labels rs g = static <$> rs.
Proof.
  unfold answerGroup. destruct (groupText g) as [t|]; [|reflexivity].
  destruct (chosenRadio _ _ _ _ _); [apply checkOrForceClick_static | reflexivity].
Qed.

Lemma static_lookup (rs rs' : list Radio) (i : nat) :
  static <$> rs = static <$> rs' ->
  static <$> (rs !! i) = static <$> (rs' !! i).
Proof. intros H. now rewrite <- !list_lookup_fmap, H. Qed.






Lemma firstPreferred_elem (labels : list (string * string)) (rs : list Radio)
    (preferred : string) (idxs : list nat) (c : nat) :
  firstPreferred labels rs preferred idxs = Some c -> c ∈ idxs.
Proof.
  induction idxs as [|i idxs IH]; simpl; [discriminate|].
  destruct (rs !! i) as [r|].
  - destruct (Js.includes _ _).
    + intros H. injection H as ->. apply list_elem_of_here.
    + intros H. apply list_elem_of_further. auto.
  - intros H. apply list_elem_of_further. auto.
Qed.

Lemma chosenRadio_elem (hints : AnswerHints) (labels : list (string * string))
    (rs : list Radio) (text : option string) (idxs : list nat) (c : nat) :
  chosenRadio hints labels rs text idxs = Some c -> c ∈ idxs.
Proof.
  unfold chosenRadio. destruct idxs as [|first rest]; [discriminate|].
  destruct (firstPreferred _ _ _ _) as [i|] eqn:E; intros H; injection H as <-.
  - eapply firstPreferred_elem; eauto.
  - apply list_elem_of_here.
Qed.





Section RadioRun.
Variable hints : AnswerHints.
Variable labels : list (string * string).
Variable rs0 : list Radio.





Lemma fold_answerGroup_static (gs : list RadioGroup) :
  forall rs, static <$> rs = static <$> rs0 ->
             static <$> fold_left (answerGroup hints labels) gs rs = static <$> rs0.
Proof.
  induction gs as [|g gs IH]; intros rs Hst; simpl; [assumption|].
  apply IH. now rewrite answerGroup_static.
Qed.



End RadioRun.



(** ** The model on concrete inputs *)

Example intent_examples :
  detectFieldIntent "Expected salary (AUD)" "text" = IntentSalary
  /\ detectFieldIntent "City of residence" "text" = IntentLocation
  /\ detectFieldIntent "Do you hold a work permit?" "text" = IntentVisa
  /\ detectFieldIntent "How many people did you manage" "number" = IntentExperience
  /\ detectFieldIntent "Why do you want this role" "text" = IntentGeneric.
Proof. vm_compute. repeat split; reflexivity. Qed.

(** The two keyword tables differ: a "work permit" field has the visa
    intent and no heuristic value. *)
Example work_permit_has_no_heuristic :
  getHeuristicFieldAnswer (readAnswerHints noEnv) emptyJobContext
    "Do you hold a work permit?" "text" = None.
Proof. vm_compute. reflexivity. Qed.

Example ranker_picks_submit :
  findExternalActionButton plainScraper applyPage ∅ = Some submitCandidate.
Proof. vm_compute. reflexivity. Qed.

Example ranker_keeps_document_order_on_ties :
  label <$> findExternalActionButton plainScraper tiePage ∅ = Some "next".
Proof. vm_compute. reflexivity. Qed.

Example ranker_follows_the_model :
  label <$> findExternalActionButton (withLlm plainScraper (Some pickingClient) true)
              tiePage ∅ = Some "continue".
Proof. vm_compute. reflexivity. Qed.

Example stuck_site_trace :
  let fp := getPageFingerprint applyPage in
  completeExternalApplication plainScraper stuckSite
  = (Failed,
     [FilledForm 0; Clicked "submit application" fp fp;
      FilledForm 1; Clicked "continue" fp fp;
      FilledForm 2; Clicked "review application" fp fp;
      NoProgressExit]).
Proof. vm_compute. reflexivity. Qed.

Example fingerprint_example :
  getPageFingerprint applyPage
  = "https://ats.example.com/jobs/42/apply|Apply|application form tell us about yourself".
Proof. vm_compute. reflexivity. Qed.

Example job_key_example :
  getJobKey backendJob = "backend engineer|acme|sydney, australia"
  /\ getJobKey backendJobAgain = getJobKey backendJob.
Proof. vm_compute. split; reflexivity. Qed.

Example duplicate_session :
  let cards := fun i => if i =? 1 then easyCard backendJobAgain else easyCard backendJob in
  let ss := applyEasyApplyJobs plainScraper 2 5 cards in
  counters ss = {| applied := 1; failed := 0; manualHelp := 0 |}
  /\ events ss
     = [OpenedCard 0; KeyRegistered "backend engineer|acme|sydney, australia";
        EasyApplyStarted "backend engineer|acme|sydney, australia";
        OpenedCard 1; DuplicateSkipped "backend engineer|acme|sydney, australia"].
Proof. vm_compute. split; reflexivity. Qed.

(** The key does not see letter case, in the field type either; the two
    call sites only pass lower-case literals. *)
Example key_ignores_letter_case :
  cacheKey "Notice period" "TEXT" = cacheKey "notice period" "text".
Proof. vm_compute. reflexivity. Qed.

(** * Further properties of the embedded code *)

(** ** inferFieldAnswer: stability, validation, fallback *)

Lemma readAnswerHints_years (e : Env) :
  Js.truthy (yearsExperience (readAnswerHints e)) = true.
Proof.
  unfold readAnswerHints, envOr, Js.orElse. simpl.
  destruct (YEARS_EXPERIENCE e) as [s|]; [|reflexivity].
  destruct (Js.truthy s) eqn:E; [assumption | reflexivity].
Qed.

Lemma orNull_truthy (s a : string) : Js.orNull s = Some a -> Js.truthy a = true.
Proof.
  unfold Js.orNull. destruct (Js.truthy s) eqn:E; [|discriminate].
  intros H; injection H as <-. assumption.
Qed.

Lemma truthy_nonempty (s : string) : s <> EmptyString -> Js.truthy s = true.
Proof. destruct s; [congruence | reflexivity]. Qed.

Lemma heuristic_answer_nonempty (e : Env) (job : JobContext) (ctx ft a : string) :
  getHeuristicFieldAnswer (readAnswerHints e) job ctx ft = Some a ->
  Js.truthy a = true.
Proof.
  unfold getHeuristicFieldAnswer.
  repeat match goal with
         | |- context [if ?b then _ else _] => destruct b
         end;
    first
      [ discriminate
      | apply orNull_truthy
      | intros H; injection H as <-;
        first
          [ reflexivity
          | apply truthy_nonempty, salary_fallback_nonempty
          | apply readAnswerHints_years
          | unfold yesNo;
            match goal with |- context [if ?b then _ else _] => now destruct b end ] ].
Qed.

Lemma compatible_truthy (v : option string) (intent : FieldIntent) (ft : string) :
  isAnswerCompatibleWithIntent v intent ft = true -> Js.truthyOpt v = true.
Proof.
  unfold isAnswerCompatibleWithIntent.
  destruct (Js.truthyOpt v); [reflexivity | discriminate].
Qed.

(** On a cache miss the call comes down to one [cacheAndReturn]; [v] is
    what it returns. *)
Lemma inferFieldAnswer_miss (ctx ft : string) (st : Scraper) :
  Js.truthyOpt (inferredAnswerCache st !! cacheKey ctx ft) = false ->
  let heuristic :=
    getHeuristicFieldAnswer (answerHints st) (currentJobContext st) ctx ft in
  let intent := detectFieldIntent ctx ft in
  (fst (inferFieldAnswer ctx ft st) = heuristic
   /\ (llmCalls (snd (inferFieldAnswer ctx ft st)) = llmCalls st
       \/ (exists client prompt,
             llm st = Some client /\ llmAvailable st = true
             /\ llmCalls (snd (inferFieldAnswer ctx ft st)) = prompt :: llmCalls st)))
  \/ (exists client prompt,
        llm st = Some client /\ llmAvailable st = true
        /\ (shouldPreferHeuristic intent && Js.truthyOpt heuristic) = false
        /\ isAnswerCompatibleWithIntent (fst (inferFieldAnswer ctx ft st)) intent ft
           = true
        /\ llmCalls (snd (inferFieldAnswer ctx ft st)) = prompt :: llmCalls st).
Proof.
  intros Hmiss. cbv zeta. unfold inferFieldAnswer. rewrite Hmiss.
  destruct (llm st) as [client|] eqn:El;
    [|left; rewrite cacheAndReturn_fst, cacheAndReturn_calls; auto].
  destruct (llmAvailable st) eqn:Ea;
    [|left; rewrite cacheAndReturn_fst, cacheAndReturn_calls; auto].
  destruct (_ && _) eqn:Ep;
    [left; rewrite cacheAndReturn_fst, cacheAndReturn_calls; auto|].
  unfold askModel.
  destruct (generate client _) as [response|] eqn:Eg.
  - destruct (isAnswerCompatibleWithIntent _ _ _) eqn:Ec.
    + right. eexists client, _.
      rewrite cacheAndReturn_fst, cacheAndReturn_calls, Ec. simpl. auto.
    + left. rewrite cacheAndReturn_fst, cacheAndReturn_calls. simpl.
      split; [reflexivity|]. right. eauto.
  - left. rewrite cacheAndReturn_fst, cacheAndReturn_calls. simpl.
    split; [reflexivity|]. right. eauto.
Qed.

(** Once a field has an answer, every later call for it in the same job gets
    that answer from the cache: the state is left as it is and the model is
    not asked, whichever model is configured by then. *)
Theorem answer_is_stable_within_a_job (st : Scraper) (ctx ft a : string)
    (client' : option OllamaClient) (available' : bool) :
  fst (inferFieldAnswer ctx ft st) = Some a -> Js.truthy a = true ->
  inferFieldAnswer ctx ft
    (withLlm (snd (inferFieldAnswer ctx ft st)) client' available')
  = (Some a, withLlm (snd (inferFieldAnswer ctx ft st)) client' available').
Proof.
  intros Hans Ha.
  pose proof (inferFieldAnswer_cached ctx ft a st Hans Ha) as Hc.
  unfold inferFieldAnswer at 1.
  cbn [withLlm inferredAnswerCache]. rewrite Hc. simpl. now rewrite Ha.
Qed.

Lemma answer_is_stable_within_a_job_witness :
  inferFieldAnswer "LinkedIn profile URL" "text"
    (withLlm (snd (inferFieldAnswer "LinkedIn profile URL" "text" modelScraper))
       (Some (answeringClient "another answer")) true)
  = (Some "https://www.linkedin.com/in/candidate",
     withLlm (snd (inferFieldAnswer "LinkedIn profile URL" "text" modelScraper))
       (Some (answeringClient "another answer")) true).
Proof.
  apply (answer_is_stable_within_a_job modelScraper "LinkedIn profile URL" "text"
           "https://www.linkedin.com/in/candidate"
           (Some (answeringClient "another answer")) true);
    vm_compute; reflexivity.
Defined.

(** With the hints read from the environment, an answer is never the empty
    string: it is null or has at least one character, whether it comes from
    the cache, the heuristics or the model. *)
Theorem inferred_answer_is_never_empty (e : Env) (st : Scraper) (ctx ft a : string) :
  answerHints st = readAnswerHints e ->
  fst (inferFieldAnswer ctx ft st) = Some a ->
  Js.truthy a = true.
Proof.
  intros Hh Hans.
  destruct (Js.truthyOpt (inferredAnswerCache st !! cacheKey ctx ft)) eqn:Ec.
  - unfold inferFieldAnswer in Hans. rewrite Ec in Hans. simpl in Hans.
    rewrite Hans in Ec. exact Ec.
  - destruct (inferFieldAnswer_miss ctx ft st Ec) as [[Hheur _]|Hmodel].
    + rewrite Hans, Hh in Hheur. symmetry in Hheur.
      eapply heuristic_answer_nonempty; eauto.
    + destruct Hmodel as (client & prompt & _ & _ & _ & Hcompat & _).
      apply compatible_truthy in Hcompat. now rewrite Hans in Hcompat.
Qed.

Lemma inferred_answer_is_never_empty_witness :
  Js.truthy "2 weeks" = true.
Proof.
  apply (inferred_answer_is_never_empty noEnv plainScraper
           "When can you join?" "text" "2 weeks"); reflexivity.
Defined.

(** On a cache miss the answer is the heuristic value or a model answer
    that passed [isAnswerCompatibleWithIntent]: a model answer that fails the
    check is never returned.  At most one prompt is sent. *)
Theorem model_answer_is_validated (st : Scraper) (ctx ft : string) :
  Js.truthyOpt (inferredAnswerCache st !! cacheKey ctx ft) = false ->
  (fst (inferFieldAnswer ctx ft st)
   = getHeuristicFieldAnswer (answerHints st) (currentJobContext st) ctx ft
   \/ isAnswerCompatibleWithIntent (fst (inferFieldAnswer ctx ft st))
        (detectFieldIntent ctx ft) ft = true)
  /\ length (llmCalls (snd (inferFieldAnswer ctx ft st))) <= S (length (llmCalls st)).
Proof.
  intros Hmiss.
  destruct (inferFieldAnswer_miss ctx ft st Hmiss)
    as [[Hheur [Hcalls|(c & p & _ & _ & Hcalls)]]
       |(c & p & _ & _ & _ & Hcompat & Hcalls)];
    rewrite Hcalls; simpl; split; auto; lia.
Qed.

Lemma model_answer_is_validated_witness :
  (fst (inferFieldAnswer "Do you need a visa (work permit)?" "text"
          (withLlm plainScraper (Some (answeringClient "Maybe later")) true))
   = getHeuristicFieldAnswer (answerHints plainScraper)
       (currentJobContext plainScraper) "Do you need a visa (work permit)?" "text"
   \/ isAnswerCompatibleWithIntent
        (fst (inferFieldAnswer "Do you need a visa (work permit)?" "text"
                (withLlm plainScraper (Some (answeringClient "Maybe later")) true)))
        (detectFieldIntent "Do you need a visa (work permit)?" "text") "text" = true)
  /\ length (llmCalls
               (snd (inferFieldAnswer "Do you need a visa (work permit)?" "text"
                       (withLlm plainScraper (Some (answeringClient "Maybe later"))
                          true))))
     <= S (length (llmCalls plainScraper)).
Proof.
  apply (model_answer_is_validated
           (withLlm plainScraper (Some (answeringClient "Maybe later")) true)
           "Do you need a visa (work permit)?" "text").
  reflexivity.
Defined.

(** Without a configured and available model nothing is sent to a model, on
    a cache miss the answer is the heuristic value, and a null answer leaves
    the cache as it was. *)
Theorem without_model_answer_is_heuristic (st : Scraper) (ctx ft : string) :
  llm st = None \/ llmAvailable st = false ->
  llmCalls (snd (inferFieldAnswer ctx ft st)) = llmCalls st
  /\ (Js.truthyOpt (inferredAnswerCache st !! cacheKey ctx ft) = false ->
      fst (inferFieldAnswer ctx ft st)
      = getHeuristicFieldAnswer (answerHints st) (currentJobContext st) ctx ft)
  /\ (fst (inferFieldAnswer ctx ft st) = None ->
      inferredAnswerCache (snd (inferFieldAnswer ctx ft st))
      = inferredAnswerCache st).
Proof.
  intros Hoff.
  assert (inferFieldAnswer ctx ft st
          = if Js.truthyOpt (inferredAnswerCache st !! cacheKey ctx ft)
            then (inferredAnswerCache st !! cacheKey ctx ft, st)
            else cacheAndReturn (cacheKey ctx ft)
                   (getHeuristicFieldAnswer (answerHints st) (currentJobContext st)
                      ctx ft) st) as Hrun.
  { unfold inferFieldAnswer. destruct (Js.truthyOpt _); [reflexivity|].
    destruct Hoff as [-> | Hoff]; [reflexivity|].
    rewrite Hoff. now destruct (llm st). }
  rewrite Hrun. destruct (Js.truthyOpt _) eqn:Ec.
  - repeat split; auto. discriminate.
  - rewrite cacheAndReturn_calls, cacheAndReturn_fst. repeat split; auto.
    intros ->. reflexivity.
Qed.

Lemma without_model_answer_is_heuristic_witness :
  llmCalls (snd (inferFieldAnswer "Why do you want this role?" "text" plainScraper))
  = llmCalls plainScraper
  /\ (Js.truthyOpt
        (inferredAnswerCache plainScraper
           !! cacheKey "Why do you want this role?" "text") = false ->
      fst (inferFieldAnswer "Why do you want this role?" "text" plainScraper)
      = getHeuristicFieldAnswer (answerHints plainScraper)
          (currentJobContext plainScraper) "Why do you want this role?" "text")
  /\ (fst (inferFieldAnswer "Why do you want this role?" "text" plainScraper) = None ->
      inferredAnswerCache
        (snd (inferFieldAnswer "Why do you want this role?" "text" plainScraper))
      = inferredAnswerCache plainScraper).
Proof.
  apply (without_model_answer_is_heuristic plainScraper
           "Why do you want this role?" "text").
  left. reflexivity.
Defined.

(** ** findExternalActionButton: what is returned, and when *)

Lemma rankControl_clickable (excl : gset string) (w : nat * nat) (ctl : Control)
    (c : ActionCandidate) :
  rankControl excl w ctl = Some c ->
  visible ctl = true /\ disabled ctl = false /\ Js.truthy (label c) = true.
Proof.
  unfold rankControl.
  destruct (visible ctl); [|discriminate]. simpl.
  destruct (disabled ctl); [discriminate|].
  destruct (Js.truthy (combinedText ctl)) eqn:Et; [|discriminate]. simpl.
  repeat match goal with
         | |- context [if ?b then None else _] => destruct b; [discriminate|]
         end.
  intros H; injection H as <-. simpl. auto.
Qed.

Lemma rankPage_intro (excl : gset string) (p : Page) (si i : nat) (s : Surface)
    (ctl : Control) (c : ActionCandidate) :
  surfaces p !! si = Some s -> controls s !! i = Some ctl ->
  rankControl excl (si, i) ctl = Some c -> c ∈ rankPage excl p.
Proof.
  intros Hs Hctl Hrank. unfold rankPage.
  apply list_elem_of_In, in_concat. exists (rankSurface excl si s). split.
  - apply list_elem_of_In. apply (elem_of_lookup_imap_2 _ _ _ _ Hs).
  - apply list_elem_of_In. unfold rankSurface.
    apply list_elem_of_omap. exists (Some c). split; [|reflexivity].
    rewrite <- Hrank.
    apply (elem_of_lookup_imap_2 (fun i c => rankControl excl (si, i) c) _ _ _ Hctl).
Qed.

Lemma insertByScore_elem_rev (x c : ActionCandidate) (l : list ActionCandidate) :
  c = x \/ c ∈ l -> c ∈ insertByScore x l.
Proof.
  induction l as [|d l IH]; simpl.
  - intros [->|H]; [apply list_elem_of_here | inversion H].
  - destruct (score d <=? score x)%Z.
    + intros [->|H]; [apply list_elem_of_here | now apply list_elem_of_further].
    + intros [->|H].
      * apply list_elem_of_further. auto.
      * apply elem_of_cons in H as [->|H]; [apply list_elem_of_here|].
        apply list_elem_of_further. auto.
Qed.

Lemma sortByScore_elem_rev (c : ActionCandidate) (l : list ActionCandidate) :
  c ∈ l -> c ∈ sortByScore l.
Proof.
  induction l as [|d l IH]; simpl; [auto|].
  intros H. apply insertByScore_elem_rev.
  apply elem_of_cons in H as [->|H]; auto.
Qed.

Lemma insertByScore_headIsBest (x : ActionCandidate) (l : list ActionCandidate) :
  headIsBest l -> headIsBest (insertByScore x l).
Proof.
  destruct l as [|d l]; simpl; [constructor|].
  intros Hd. destruct (Z.leb_spec (score d) (score x)) as [Hle|Hlt]; simpl.
  - constructor; [assumption|].
    eapply Forall_impl; [exact Hd|]. simpl. intros; lia.
  - apply Forall_forall. intros c Hc.
    apply insertByScore_elem in Hc as [->|Hc]; [lia|].
    rewrite Forall_forall in Hd. auto.
Qed.

Lemma sortByScore_headIsBest (l : list ActionCandidate) : headIsBest (sortByScore l).
Proof.
  induction l as [|d l IH]; simpl; [exact I|].
  now apply insertByScore_headIsBest.
Qed.

Lemma sortByScore_nil (l : list ActionCandidate) : sortByScore l = [] -> l = [].
Proof.
  destruct l as [|d l]; [reflexivity|]. simpl.
  destruct (sortByScore l) as [|e r]; simpl; [discriminate|].
  destruct (score e <=? score d)%Z; discriminate.
Qed.

(** [findExternalActionButton] gives up exactly when no control of the page
    passes the ranking: a model that fails, declines or answers out of range
    cannot make it return null. *)
Theorem no_action_only_when_nothing_ranks (st : Scraper) (p : Page)
    (excl : gset string) :
  findExternalActionButton st p excl = None
  <-> (forall si i s ctl,
          surfaces p !! si = Some s -> controls s !! i = Some ctl ->
          rankControl excl (si, i) ctl = None).
Proof.
  unfold findExternalActionButton. split.
  - intros H si i s ctl Hs Hctl.
    destruct (rankControl excl (si, i) ctl) as [c|] eqn:Hrank; [|reflexivity].
    pose proof (rankPage_intro excl p si i s ctl c Hs Hctl Hrank) as Hin.
    destruct (sortByScore (rankPage excl p)) as [|top rest] eqn:E.
    + apply sortByScore_nil in E. rewrite E in Hin. inversion Hin.
    + destruct (selectExternalActionWithLLM _ _ _); discriminate.
  - intros Hnone.
    destruct (rankPage excl p) as [|c rest] eqn:E; [reflexivity|].
    assert (c ∈ rankPage excl p) as Hc by (rewrite E; apply list_elem_of_here).
    apply rankPage_elem in Hc as (ctl & Hat & Hrank).
    unfold controlAt in Hat.
    destruct (surfaces p !! fst (locator c)) as [s|] eqn:Es; [|discriminate].
    destruct (locator c) as [si i]. simpl in *.
    rewrite (Hnone si i s ctl Es Hat) in Hrank. discriminate.
Qed.

(** Without a configured and available model the candidate returned has
    the highest score of all ranked controls. *)
Theorem heuristic_pick_has_best_score (st : Scraper) (p : Page)
    (excl : gset string) (c : ActionCandidate) :
  llm st = None \/ llmAvailable st = false ->
  findExternalActionButton st p excl = Some c ->
  forall d, d ∈ rankPage excl p -> (score d <= score c)%Z.
Proof.
  intros Hoff Hfind d Hd. unfold findExternalActionButton in Hfind.
  pose proof (sortByScore_headIsBest (rankPage excl p)) as Hbest.
  apply sortByScore_elem_rev in Hd.
  destruct (sortByScore (rankPage excl p)) as [|top rest] eqn:E; [discriminate|].
  assert (selectExternalActionWithLLM st p (take 8 (top :: rest)) = None) as Hllm.
  { unfold selectExternalActionWithLLM.
    destruct Hoff as [-> | Hoff]; [reflexivity|].
    destruct (llm st); [|reflexivity]. now rewrite Hoff. }
  rewrite Hllm in Hfind. injection Hfind as <-.
  simpl in Hbest. rewrite Forall_forall in Hbest.
  apply elem_of_cons in Hd as [->|Hd]; [lia | auto].
Qed.

Lemma heuristic_pick_has_best_score_witness :
  (score {| locator := (0%nat, 4%nat); label := "continue"; score := 105 |}
   <= score submitCandidate)%Z.
Proof.
  apply (heuristic_pick_has_best_score plainScraper applyPage ∅ submitCandidate).
  - left. reflexivity.
  - vm_compute. reflexivity.
  - apply (list_elem_of_lookup_2 _ 1). vm_compute. reflexivity.
Defined.

(** Whatever the model says, the candidate returned is one of the eight
    best-ranked controls, is visible and enabled, has a positive score, and
    its signature is not among the excluded ones. *)
Theorem returned_action_is_clickable_and_fresh (st : Scraper) (p : Page)
    (excl : gset string) (c : ActionCandidate) :
  findExternalActionButton st p excl = Some c ->
  c ∈ take 8 (sortByScore (rankPage excl p))
  /\ (exists ctl, controlAt p (locator c) = Some ctl
                  /\ visible ctl = true /\ disabled ctl = false)
  /\ (0 < score c)%Z
  /\ normalizeActionSignature (label c) ∉ excl.
Proof.
  intros Hfind.
  pose proof (findExternalActionButton_ranked st p excl c Hfind) as Hin.
  apply rankPage_elem in Hin as (ctl & Hat & Hrank).
  pose proof (rankControl_label _ _ _ _ Hrank) as (_ & _ & _ & _ & _ & _ & Hsig & Hpos).
  pose proof (rankControl_clickable _ _ _ _ Hrank) as (Hv & Hd & _).
  repeat split; eauto.
  unfold findExternalActionButton in Hfind.
  destruct (sortByScore (rankPage excl p)) as [|top rest] eqn:E; [discriminate|].
  destruct (selectExternalActionWithLLM _ _ _) as [pick|] eqn:Ep;
    injection Hfind as <-.
  - now apply selectExternalActionWithLLM_elem in Ep.
  - apply list_elem_of_here.
Qed.

Lemma returned_action_is_clickable_and_fresh_witness :
  submitCandidate ∈ take 8 (sortByScore (rankPage ∅ applyPage))
  /\ (exists ctl, controlAt applyPage (locator submitCandidate) = Some ctl
                  /\ visible ctl = true /\ disabled ctl = false)
  /\ (0 < score submitCandidate)%Z
  /\ normalizeActionSignature (label submitCandidate) ∉ (∅ : gset string).
Proof.
  apply (returned_action_is_clickable_and_fresh plainScraper applyPage ∅
           submitCandidate).
  vm_compute. reflexivity.
Defined.

(** ** Fingerprints and job keys *)

Lemma beforeChar_app_sep (c : ascii) (base rest : string) :
  hasChar c base = false ->
  Js.beforeChar c (base +:+ String c rest) = base.
Proof.
  induction base as [|d base IH]; simpl; intros H.
  - now rewrite Ascii.eqb_refl.
  - apply orb_false_iff in H as [Hd Hb]. rewrite Hd. now rewrite IH.
Qed.

Lemma beforeChar_none (c : ascii) (s : string) :
  hasChar c s = false -> Js.beforeChar c s = s.
Proof.
  induction s as [|d s IH]; simpl; intros H; [reflexivity|].
  apply orb_false_iff in H as [Hd Hs]. rewrite Hd. now rewrite IH.
Qed.

Lemma cut_query (base rest : string) :
  hasChar "?" base = false -> hasChar "#" base = false ->
  Js.beforeChar "?" (Js.beforeChar "#" (base +:+ String "?" rest)) = base.
Proof.
  induction base as [|d base IH]; simpl; intros Hq Hf.
  - reflexivity.
  - apply orb_false_iff in Hq as [Hd Hq].
    apply orb_false_iff in Hf as [Hd' Hf].
    rewrite Hd'. simpl. rewrite Hd. now rewrite IH.
Qed.

(** The fingerprint does not see the query string or the fragment of the
    URL: a page that only differs from another in what follows the first [?]
    or [#] has the same fingerprint, so a click that only changes those
    counts as no progress. *)
Theorem fingerprint_ignores_query_and_fragment (p : Page) (rest : string) :
  hasChar "?" (url p) = false -> hasChar "#" (url p) = false ->
  getPageFingerprint (withUrl p (url p +:+ "?" +:+ rest)) = getPageFingerprint p
  /\ getPageFingerprint (withUrl p (url p +:+ "#" +:+ rest)) = getPageFingerprint p.
Proof.
  intros Hq Hf. unfold getPageFingerprint, withUrl. simpl.
  destruct (closed p); [auto|].
  change ("#" +:+ rest) with (String "#" rest).
  change ("?" +:+ rest) with (String "?" rest).
  rewrite (cut_query (url p) rest Hq Hf).
  rewrite (beforeChar_app_sep "#" (url p) rest Hf).
  rewrite (beforeChar_none "#" (url p) Hf), (beforeChar_none "?" (url p) Hq).
  split; reflexivity.
Qed.

Lemma fingerprint_ignores_query_and_fragment_witness :
  getPageFingerprint (withUrl tiePage (url tiePage +:+ "?" +:+ "step=3#review"))
  = getPageFingerprint tiePage
  /\ getPageFingerprint (withUrl tiePage (url tiePage +:+ "#" +:+ "step=3#review"))
     = getPageFingerprint tiePage.
Proof.
  apply (fingerprint_ignores_query_and_fragment tiePage "step=3#review");
    reflexivity.
Defined.




(** ** completeExternalApplication: outcomes, bounds, no repeated action *)

Lemma findExternalActionButton_label (st : Scraper) (p : Page) (excl : gset string)
    (c : ActionCandidate) :
  findExternalActionButton st p excl = Some c ->
  buttonLabelOf p c = label c /\ normalizeActionSignature (label c) ∉ excl.
Proof.
  intros H. apply findExternalActionButton_ranked, rankPage_elem in H
    as (ctl & _ & Hrank).
  pose proof (rankControl_label _ _ _ _ Hrank) as (_ & _ & _ & _ & _ & _ & Hsig & _).
  pose proof (rankControl_clickable _ _ _ _ Hrank) as (_ & _ & Ht).
  split; [|assumption]. unfold buttonLabelOf. now rewrite Ht.
Qed.

Lemma externalStep_case (st : Scraper) (step : nat) (v : StepView) (s : FlowState) :
  StepCase s step (fst (externalStep st step v s)) (snd (externalStep st step v s)).
Proof.
  unfold externalStep.
  destruct (closed (atStart v)); [apply CaseEarly; auto|].
  destruct (isExternalLoginRequired (atStart v)); [apply CaseEarly; auto|].
  destruct (isExternalVerificationGate (atStart v)); [apply CaseEarly; auto|].
  destruct (isExternalApplicationSubmitted (afterFill v));
    [apply CaseSubmitted; auto|].
  destruct (findExternalActionButton _ _ _) as [c|] eqn:Efind.
  2:{ destruct (isExternalApplicationSubmitted (afterPause v));
        [apply CaseSubmitted | apply CaseBreak]; auto. }
  apply findExternalActionButton_label in Efind as [Hlabel Hfresh].
  fold (attemptedOn s (getPageFingerprint (afterFill v))) in *.
  rewrite Hlabel.
  destruct (clickWorks v); cbn [negb]; [|apply CaseBreak; eauto].
  cbv zeta.
  destruct (String.eqb (getPageFingerprint (afterClick v))
                       (getPageFingerprint (afterFill v))) eqn:E;
    cbn [noProgressStreak clickedAtLeastOneAction].
  - destruct (3 <=? S (noProgressStreak s)); cbn [fst snd app].
    + now apply CaseExit.
    + apply CaseClick; try assumption; try reflexivity.
      * intros fp. unfold attemptedOn at 2. cbn [attemptedActionsByFingerprint].
        destruct (decide (getPageFingerprint (afterFill v) = fp)) as [<-|Hne].
        -- rewrite lookup_insert_eq. simpl. set_solver.
        -- rewrite lookup_insert_ne by assumption. reflexivity.
      * intros _. unfold attemptedOn at 1. cbn [attemptedActionsByFingerprint].
        rewrite lookup_insert_eq. simpl. set_solver.
  - destruct (3 <=? 0) eqn:E3; [discriminate|]. cbn [fst snd app].
    apply CaseClick; try assumption; try reflexivity.
    intros Heq. rewrite Heq, String.eqb_refl in E. discriminate.
Qed.

(** The state and the events of a run of the loop. *)
Lemma externalLoop_outcome (st : Scraper) (site : ExternalSite) (fuel : nat) :
  forall (step : nat) (s : FlowState),
    let r := fst (externalLoop st site fuel step s) in
    let evs := snd (externalLoop st site fuel step s) in
    (r = inl Failed -> existsb isClick evs = true)
    /\ (r = inl Skipped -> SawLoginWall ∈ evs \/ SawVerificationGate ∈ evs)
    /\ (forall s', r = inr s' ->
          clickedAtLeastOneAction s'
          = clickedAtLeastOneAction s || existsb isClick evs)
    /\ length (List.filter isFill evs) <= fuel
    /\ length (clicksOf evs) <= fuel.
Proof.
  induction fuel as [|fuel IH]; intros step s; cbn [externalLoop].
  - simpl. repeat split; try discriminate; try lia.
    intros s' H; injection H as <-. now rewrite orb_false_r.
  - pose proof (externalStep_case st step (views site step) s) as Hcase.
    destruct (externalStep st step (views site step) s) as [r0 evs0].
    cbn [fst snd] in Hcase.
    inversion Hcase as [status ev Hev|evs Hevs|evs Hevs|l b a s' Hf Hc Hm Ha|l b a Hf];
      subst; cbn [fst snd].
    + destruct Hev as [[-> ->]|[-> [-> | ->]]]; simpl;
        repeat split; try discriminate; try lia; intros _;
        [left|right]; apply list_elem_of_here.
    + destruct Hevs as [-> | ->]; simpl; repeat split; try discriminate; lia.
    + destruct Hevs as [-> | [l ->]]; simpl; repeat split; try discriminate;
        try lia; intros s' H; injection H as <-; now rewrite orb_false_r.
    + specialize (IH (S step) s').
      destruct (externalLoop st site fuel (S step) s') as [r evs].
      cbn [fst snd] in *. destruct IH as (IH1 & IH2 & IH3 & IH4 & IH5).
      simpl. repeat split; try lia.
      * intros H. destruct (IH2 H) as [Hin|Hin];
          [left|right]; now do 2 apply list_elem_of_further.
      * intros s'' H. rewrite (IH3 s'' H), Hc. now rewrite orb_true_r.
    + simpl. repeat split; try discriminate; lia.
Qed.

(** [Failed] is only reported after an action was clicked; and when an
    action was clicked, [Skipped] is only reported for a login wall or a
    verification gate. *)
Theorem failed_only_after_a_click (st : Scraper) (site : ExternalSite) :
  (fst (completeExternalApplication st site) = Failed ->
   existsb isClick (snd (completeExternalApplication st site)) = true)
  /\ (fst (completeExternalApplication st site) = Skipped ->
      existsb isClick (snd (completeExternalApplication st site)) = true ->
      SawLoginWall ∈ snd (completeExternalApplication st site)
      \/ SawVerificationGate ∈ snd (completeExternalApplication st site)).
Proof.
  unfold completeExternalApplication.
  pose proof (externalLoop_outcome st site 14 0 initialFlowState)
    as (H1 & H2 & H3 & _).
  destruct (externalLoop st site 14 0 initialFlowState) as [[status|s] evs];
    cbn [fst snd] in *.
  - split; [intros ->; auto | intros -> _; auto].
  - specialize (H3 s eq_refl). simpl in H3.
    destruct (isExternalApplicationSubmitted (atEnd site)); cbn [fst snd].
    + split; discriminate.
    + rewrite H3. destruct (existsb isClick evs); simpl; split;
        try discriminate; auto.
Qed.

Lemma failed_only_after_a_click_witness :
  existsb isClick (snd (completeExternalApplication plainScraper stuckSite)) = true.
Proof.
  apply (proj1 (failed_only_after_a_click plainScraper stuckSite)).
  vm_compute. reflexivity.
Defined.

(** A run fills the form at most fourteen times and clicks at most fourteen
    actions. *)
Theorem external_flow_is_bounded (st : Scraper) (site : ExternalSite) :
  length (List.filter isFill (snd (completeExternalApplication st site))) <= 14
  /\ length (clicksOf (snd (completeExternalApplication st site))) <= 14.
Proof.
  unfold completeExternalApplication.
  pose proof (externalLoop_outcome st site 14 0 initialFlowState)
    as (_ & _ & _ & H4 & H5).
  destruct (externalLoop st site 14 0 initialFlowState) as [[status|s] evs];
    cbn [fst snd] in *; [auto|].
  destruct (isExternalApplicationSubmitted (atEnd site)); auto.
Qed.

(** Every click of a run avoids the signatures that were already tried
    without progress on its fingerprint when the run began. *)
Lemma externalLoop_fresh (st : Scraper) (site : ExternalSite) (fuel : nat) :
  forall (step : nat) (s : FlowState) (l b a : string),
    Clicked l b a ∈ snd (externalLoop st site fuel step s) ->
    normalizeActionSignature l ∉ attemptedOn s b.
Proof.
  induction fuel as [|fuel IH]; intros step s l b a; cbn [externalLoop].
  - intros H. inversion H.
  - pose proof (externalStep_case st step (views site step) s) as Hcase.
    destruct (externalStep st step (views site step) s) as [r0 evs0].
    cbn [fst snd] in Hcase.
    inversion Hcase as [status ev Hev|evs Hevs|evs Hevs|l0 b0 a0 s' Hf Hc Hm Ha|l0 b0 a0 Hf];
      subst; cbn [fst snd].
    + intros H. apply list_elem_of_singleton in H.
      destruct Hev as [[_ ->]|[_ [-> | ->]]]; discriminate.
    + intros H. destruct Hevs as [-> | ->];
        repeat (apply elem_of_cons in H as [H|H]; [discriminate|]); inversion H.
    + intros H. destruct Hevs as [-> | [l' ->]];
        repeat (apply elem_of_cons in H as [H|H]; [discriminate|]); inversion H.
    + specialize (IH (S step) s' l b a).
      destruct (externalLoop st site fuel (S step) s') as [r evs].
      cbn [fst snd] in *. intros H.
      apply elem_of_cons in H as [H|H]; [discriminate|].
      apply elem_of_cons in H as [H|H].
      * injection H as -> -> ->. assumption.
      * intros Hin. apply (IH H). now apply Hm.
    + intros H. apply elem_of_cons in H as [H|H]; [discriminate|].
      apply elem_of_cons in H as [H|H].
      * injection H as -> -> ->. assumption.
      * apply list_elem_of_singleton in H. discriminate.
Qed.

Lemma externalLoop_no_repeat (st : Scraper) (site : ExternalSite) (fuel : nat) :
  forall (step : nat) (s : FlowState) (e1 e2 : list FlowEvent)
         (l fp l' a' : string),
    snd (externalLoop st site fuel step s) = e1 ++ Clicked l fp fp :: e2 ->
    Clicked l' fp a' ∈ e2 ->
    normalizeActionSignature l <> normalizeActionSignature l'.
Proof.
  induction fuel as [|fuel IH]; intros step s e1 e2 l fp l' a'; cbn [externalLoop].
  - simpl. intros H. now destruct e1.
  - pose proof (externalStep_case st step (views site step) s) as Hcase.
    destruct (externalStep st step (views site step) s) as [r0 evs0].
    cbn [fst snd] in Hcase.
    inversion Hcase as [status ev Hev|evs Hevs|evs Hevs|l0 b0 a0 s' Hf Hc Hm Ha|l0 b0 a0 Hf];
      subst; cbn [fst snd].
    + intros H. destruct e1 as [|x [|y e1]]; simpl in H; try discriminate.
      injection H as Hev' _. destruct Hev as [[_ Hev]|[_ [Hev|Hev]]]; congruence.
    + intros H. destruct Hevs as [-> | ->];
        destruct e1 as [|x [|y [|z e1]]]; simpl in H; discriminate.
    + intros H. destruct Hevs as [-> | [l1 ->]];
        destruct e1 as [|x [|y [|z e1]]]; simpl in H; discriminate.
    + pose proof (externalLoop_fresh st site fuel (S step) s') as Hfresh.
      specialize (IH (S step) s').
      destruct (externalLoop st site fuel (S step) s') as [r evs].
      cbn [fst snd] in *. intros H Hin.
      destruct e1 as [|x e1]; simpl in H; [discriminate|].
      injection H as <- H.
      destruct e1 as [|y e1]; simpl in H.
      * injection H as <- <- <- <-.
        intros Heq. apply (Hfresh l' a0 a' Hin). rewrite <- Heq. now apply Ha.
      * injection H as <- H. exact (IH e1 e2 l fp l' a' H Hin).
    + intros H Hin.
      destruct e1 as [|x e1]; simpl in H; [discriminate|].
      injection H as <- H.
      destruct e1 as [|y e1]; simpl in H.
      * injection H as _ _ _ <-. apply list_elem_of_singleton in Hin. discriminate.
      * injection H as <- H. destruct e1 as [|z [|w e1]]; simpl in H; discriminate.
Qed.

(** After a click that left the fingerprint unchanged, no later click of the
    run on a page with that fingerprint has the same action signature: the
    driver does not try the same control again on the same page state. *)
Theorem no_action_is_retried_on_the_same_page (st : Scraper) (site : ExternalSite)
    (e1 e2 : list FlowEvent) (l fp l' a' : string) :
  snd (completeExternalApplication st site) = e1 ++ Clicked l fp fp :: e2 ->
  Clicked l' fp a' ∈ e2 ->
  normalizeActionSignature l <> normalizeActionSignature l'.
Proof.
  unfold completeExternalApplication.
  pose proof (externalLoop_no_repeat st site 14 0 initialFlowState
                e1 e2 l fp l' a') as Hloop.
  destruct (externalLoop st site 14 0 initialFlowState) as [[status|s] evs];
    cbn [fst snd] in *; [exact Hloop|].
  destruct (isExternalApplicationSubmitted (atEnd site)); exact Hloop.
Qed.

Lemma no_action_is_retried_on_the_same_page_witness :
  normalizeActionSignature "submit application"
  <> normalizeActionSignature "review application".
Proof.
  apply (no_action_is_retried_on_the_same_page plainScraper stuckSite
           [FilledForm 0]
           [FilledForm 1;
            Clicked "continue" (getPageFingerprint applyPage)
              (getPageFingerprint applyPage);
            FilledForm 2;
            Clicked "review application" (getPageFingerprint applyPage)
              (getPageFingerprint applyPage);
            NoProgressExit]
           "submit application" (getPageFingerprint applyPage)
           "review application" (getPageFingerprint applyPage)).
  - vm_compute. reflexivity.
  - do 3 apply list_elem_of_further. apply list_elem_of_here.
Defined.

(** ** applyEasyApplyJobs: what the counters can reach *)

Local Open Scope Z_scope.

(** What one card can add to the counters. *)
Lemma processCard_counts (i : nat) (v : CardView) (ss : Session) :
  let c := counters ss in
  let c' := counters (processCard i v ss) in
  (applied c <= applied c' <= applied c + 1)
  /\ failed c <= failed c'
  /\ manualHelp c <= manualHelp c'
  /\ (applied c' + manualHelp c') - (applied c + manualHelp c)
     <= Z.of_nat (length (registeredKeys (events (processCard i v ss))))
        - Z.of_nat (length (registeredKeys (events ss)))
  /\ counted c' <= counted c + 2
  /\ (dismissFails v = false -> counted c' <= counted c + 1).
Proof.
  unfold processCard, runExternal, runEasyApply, cardFailed, counted.
  destruct (openFails v); cbn [counters events].
  { rewrite registeredKeys_app, length_app. simpl. lia. }
  destruct (bool_decide _); cbn [counters events].
  { rewrite registeredKeys_app, length_app. simpl. lia. }
  destruct (easyApplyButton v), (modalOpened v), (externalButton v);
    cbn [negb];
    try destruct (externalFlow v) as [[]|];
    try destruct (easyApplyFlow v) as [[]|];
    try destruct (dismissFails v);
    cbn [counters events addApplied addFailed addManualHelp applied failed manualHelp];
    rewrite ?registeredKeys_app, ?length_app; simpl; lia.
Qed.

Lemma cardLoop_counts (maxApplications : Z) (cards : nat -> CardView) (fuel : nat) :
  forall (i : nat) (ss : Session),
    let c := counters ss in
    let ss' := cardLoop maxApplications cards fuel i ss in
    let c' := counters ss' in
    (applied c <= applied c' <= Z.max (applied c) maxApplications)
    /\ failed c <= failed c'
    /\ manualHelp c <= manualHelp c'
    /\ (applied c' + manualHelp c') - (applied c + manualHelp c)
       <= Z.of_nat (length (registeredKeys (events ss')))
          - Z.of_nat (length (registeredKeys (events ss)))
    /\ counted c' <= counted c + 2 * Z.of_nat fuel
    /\ ((forall j, dismissFails (cards j) = false) ->
        counted c' <= counted c + Z.of_nat fuel).
Proof.
  induction fuel as [|fuel IH]; intros i ss; cbn [cardLoop].
  { cbv zeta. unfold counted. lia. }
  destruct (Z.ltb_spec (applied (counters ss)) maxApplications) as [Hlt|Hge];
    [|cbv zeta; unfold counted; lia].
  destruct (recoveryFails (cards i)).
  - specialize (IH (S i) (cardFailed i (scraper ss) (counters ss) (events ss))).
    cbv zeta in *. unfold cardFailed, counted in *.
    cbn [counters events addFailed applied failed manualHelp] in IH.
    rewrite registeredKeys_app, length_app in IH. simpl in IH.
    destruct IH as (I1 & I2 & I3 & I4 & I5 & I6).
    repeat split; try lia. intros Hd. specialize (I6 Hd). lia.
  - destruct (cardListed (cards i)); [|cbv zeta; unfold counted; lia].
    specialize (IH (S i) (processCard i (cards i) ss)).
    pose proof (processCard_counts i (cards i) ss) as (P1 & P2 & P3 & P4 & P5 & P6).
    cbv zeta in *. unfold counted in *.
    destruct IH as (I1 & I2 & I3 & I4 & I5 & I6).
    repeat split; try lia. intros Hd. specialize (I6 Hd). specialize (P6 (Hd i)). lia.
Qed.

(** The number of applications counted as submitted never exceeds the
    requested maximum, and no counter is negative. *)
Theorem applied_never_exceeds_the_limit (st : Scraper) (cardCount : nat)
    (maxApplications : Z) (cards : nat -> CardView) :
  let c := counters (applyEasyApplyJobs st cardCount maxApplications cards) in
  0 <= applied c <= Z.max 0 maxApplications
  /\ 0 <= failed c /\ 0 <= manualHelp c.
Proof.
  unfold applyEasyApplyJobs.
  match goal with |- context [cardLoop ?m ?cs ?f ?i ?ss] =>
    pose proof (cardLoop_counts m cs f i ss) as H end.
  cbv zeta in *. simpl in H. lia.
Qed.

(** Every application counted as submitted or as needing manual help belongs
    to a job key of its own that went past the duplicate check. *)
Theorem counted_applications_have_registered_keys (st : Scraper) (cardCount : nat)
    (maxApplications : Z) (cards : nat -> CardView) :
  let ss := applyEasyApplyJobs st cardCount maxApplications cards in
  applied (counters ss) + manualHelp (counters ss)
  <= Z.of_nat (length (registeredKeys (events ss))).
Proof.
  unfold applyEasyApplyJobs.
  match goal with |- context [cardLoop ?m ?cs ?f ?i ?ss] =>
    pose proof (cardLoop_counts m cs f i ss) as H end.
  cbv zeta in *. simpl in H. lia.
Qed.

(** A card raises at most two counters (its outcome, and [failed] when the
    dismissal of the modal rejects afterwards), so the counters add up to at
    most twice the number of cards the loop may open; when no dismissal
    rejects, to at most that number. *)
Theorem counters_are_bounded_by_the_cards (st : Scraper) (cardCount : nat)
    (maxApplications : Z) (cards : nat -> CardView) :
  let c := counters (applyEasyApplyJobs st cardCount maxApplications cards) in
  counted c <= 2 * Z.max 0 (attemptsFor cardCount maxApplications)
  /\ ((forall j, dismissFails (cards j) = false) ->
      counted c <= Z.max 0 (attemptsFor cardCount maxApplications)).
Proof.
  unfold applyEasyApplyJobs. fold (attemptsFor cardCount maxApplications).
  match goal with |- context [cardLoop ?m ?cs ?f ?i ?ss] =>
    pose proof (cardLoop_counts m cs f i ss) as H end.
  cbv zeta in *. unfold counted in *. simpl in H.
  destruct H as (_ & _ & _ & _ & H5 & H6).
  split; [lia|]. intros Hd. specialize (H6 Hd). lia.
Qed.

Lemma counters_are_bounded_by_the_cards_witness :
  counted (counters (applyEasyApplyJobs plainScraper 1 1
                      (fun _ => easyCard backendJob)))
  <= Z.max 0 (attemptsFor 1 1).
Proof.
  apply (proj2 (counters_are_bounded_by_the_cards plainScraper 1 1
                  (fun _ => easyCard backendJob))).
  intros j. reflexivity.
Defined.

Local Close Scope Z_scope.

(** ** answerRequiredBooleanQuestions: what a run leaves alone *)

Lemma checkOrForceClick_keeps_answered (i : nat) (rs : list Radio) (j : nat)
    (r : Radio) :
  rs !! j = Some r -> radioChecked r = true ->
  exists j' r', checkOrForceClick i rs !! j' = Some r'
                /\ radioName r' = radioName r /\ radioChecked r' = true.
Proof.
  intros Hj Hc. unfold checkOrForceClick.
  destruct (rs !! i) as [ri|] eqn:Ei; [|eauto].
  destruct (checkWorks ri || forcedClickSelects ri); [|eauto].
  destruct (Nat.eqb_spec j i) as [->|Hne].
  - exists i, (setChecked r true). rewrite (selectRadio_lookup i i rs ri Ei), Hj.
    simpl. now rewrite Nat.eqb_refl.
  - destruct (Js.truthy (radioName ri) && String.eqb (radioName r) (radioName ri))
      eqn:Esame.
    + apply andb_true_iff in Esame as [_ Hn]. apply String.eqb_eq in Hn.
      exists i, (setChecked ri true). rewrite (selectRadio_lookup i i rs ri Ei), Ei.
      simpl. now rewrite Nat.eqb_refl.
    + exists j, r. rewrite (selectRadio_lookup i j rs ri Ei), Hj. simpl.
      apply Nat.eqb_neq in Hne. now rewrite Hne, Esame.
Qed.

Lemma checkOrForceClick_newly (i : nat) (rs : list Radio) (j : nat) (r r' : Radio) :
  rs !! j = Some r -> radioChecked r = false ->
  checkOrForceClick i rs !! j = Some r' -> radioChecked r' = true ->
  j = i.
Proof.
  intros Hj Hc. unfold checkOrForceClick.
  destruct (rs !! i) as [ri|] eqn:Ei; [|congruence].
  destruct (checkWorks ri || forcedClickSelects ri); [|congruence].
  rewrite (selectRadio_lookup i j rs ri Ei), Hj. simpl.
  destruct (Nat.eqb_spec j i) as [->|Hne]; [reflexivity|].
  destruct (_ && _); intros H; injection H as <-; simpl; congruence.
Qed.

Lemma answerGroup_keeps_answered (hints : AnswerHints) (labels : list (string * string))
    (g : RadioGroup) (rs : list Radio) (j : nat) (r : Radio) :
  rs !! j = Some r -> radioChecked r = true ->
  exists j' r', answerGroup hints labels rs g !! j' = Some r'
                /\ radioName r' = radioName r /\ radioChecked r' = true.
Proof.
  intros Hj Hc. unfold answerGroup.
  destruct (groupText g) as [t|]; [|eauto].
  destruct (chosenRadio _ _ _ _ _) as [i|]; [|eauto].
  exact (checkOrForceClick_keeps_answered i rs j r Hj Hc).
Qed.

Lemma answerGroup_newly (hints : AnswerHints) (labels : list (string * string))
    (g : RadioGroup) (rs : list Radio) (j : nat) (r r' : Radio) :
  rs !! j = Some r -> radioChecked r = false ->
  answerGroup hints labels rs g !! j = Some r' -> radioChecked r' = true ->
  j ∈ groupRadios g.
Proof.
  intros Hj Hc. unfold answerGroup.
  destruct (groupText g) as [t|]; [|congruence].
  destruct (chosenRadio _ _ _ _ _) as [i|] eqn:Ech; [|congruence].
  intros H1 H2. rewrite (checkOrForceClick_newly i rs j r r' Hj Hc H1 H2).
  eapply chosenRadio_elem; eauto.
Qed.

Lemma fold_answerGroup_keeps_answered (hints : AnswerHints)
    (labels : list (string * string)) (gs : list RadioGroup) :
  forall (rs : list Radio) (j : nat) (r : Radio),
    rs !! j = Some r -> radioChecked r = true ->
    exists j' r', fold_left (answerGroup hints labels) gs rs !! j' = Some r'
                  /\ radioName r' = radioName r /\ radioChecked r' = true.
Proof.
  induction gs as [|g gs IH]; intros rs j r Hj Hc; simpl; [eauto|].
  destruct (answerGroup_keeps_answered hints labels g rs j r Hj Hc)
    as (j1 & r1 & H1 & Hn1 & Hc1).
  destruct (IH _ j1 r1 H1 Hc1) as (j2 & r2 & H2 & Hn2 & Hc2).
  exists j2, r2. repeat split; congruence.
Qed.

Lemma fold_answerGroup_newly (hints : AnswerHints)
    (labels : list (string * string)) (gs : list RadioGroup) :
  forall (rs : list Radio) (j : nat) (r r' : Radio),
    rs !! j = Some r -> radioChecked r = false ->
    fold_left (answerGroup hints labels) gs rs !! j = Some r' ->
    radioChecked r' = true ->
    exists g, g ∈ gs /\ j ∈ groupRadios g.
Proof.
  induction gs as [|g gs IH]; intros rs j r r' Hj Hc; simpl.
  - intros H1 H2. congruence.
  - intros H1 H2.
    pose proof (static_lookup _ _ j (answerGroup_static hints labels rs g)) as Hst.
    rewrite Hj in Hst.
    destruct (answerGroup hints labels rs g !! j) as [r1|] eqn:E1; [|discriminate].
    destruct (radioChecked r1) eqn:Ec1.
    + exists g. split; [apply list_elem_of_here|].
      exact (answerGroup_newly hints labels g rs j r r1 Hj Hc E1 Ec1).
    + destruct (IH _ j r1 r' E1 Ec1 H1 H2) as (g' & Hin & Hj').
      exists g'. split; [now apply list_elem_of_further | assumption].
Qed.

(** A run never leaves a question unanswered that was answered before: when
    a radio was selected, a radio of the same name is selected afterwards.
    Nothing but the selection of a radio is changed. *)
Theorem answered_question_stays_answered (hints : AnswerHints) (root : FormRoot)
    (j : nat) (r : Radio) :
  radios root !! j = Some r -> radioChecked r = true ->
  (exists j' r',
      radios (answerRequiredBooleanQuestions hints root) !! j' = Some r'
      /\ radioName r' = radioName r /\ radioChecked r' = true)
  /\ static <$> radios (answerRequiredBooleanQuestions hints root)
     = static <$> radios root.
Proof.
  intros Hj Hc. unfold answerRequiredBooleanQuestions.
  destruct (rootClosed root); [split; [eauto | reflexivity]|].
  destruct (rootDetached root); [split; [eauto | reflexivity]|].
  cbn [radios withRadios]. split.
  - exact (fold_answerGroup_keeps_answered hints _ _ _ j r Hj Hc).
  - generalize (radios root). intros rs0.
    induction (match groups root with Resolved gs => gs | Rejected => [] end)
      as [|g gs IH] in rs0 |- *; simpl; [reflexivity|].
    rewrite IH. apply answerGroup_static.
Qed.

Lemma answered_question_stays_answered_witness :
  exists j' r',
    radios (answerRequiredBooleanQuestions (readAnswerHints noEnv)
              (withRadios twoQuestionForm
                 (checkOrForceClick 0 (radios twoQuestionForm)))) !! j' = Some r'
    /\ radioName r' = "sponsorship" /\ radioChecked r' = true.
Proof.
  apply (proj1 (answered_question_stays_answered (readAnswerHints noEnv)
                  (withRadios twoQuestionForm
                     (checkOrForceClick 0 (radios twoQuestionForm)))
                  0 (setChecked (radio "s-yes" "sponsorship" true) true)
                  eq_refl eq_refl)).
Defined.

(** A radio that a run selects belongs to one of the groups of the root, and
    the root was neither closed nor detached. *)
Theorem selected_radio_belongs_to_a_group (hints : AnswerHints) (root : FormRoot)
    (j : nat) (r r' : Radio) :
  radios root !! j = Some r -> radioChecked r = false ->
  radios (answerRequiredBooleanQuestions hints root) !! j = Some r' ->
  radioChecked r' = true ->
  rootClosed root = false /\ rootDetached root = false
  /\ exists gs g, groups root = Resolved gs /\ g ∈ gs /\ j ∈ groupRadios g.
Proof.
  intros Hj Hc. unfold answerRequiredBooleanQuestions.
  destruct (rootClosed root); [congruence|].
  destruct (rootDetached root); [congruence|].
  cbn [radios withRadios]. intros H1 H2. split; [reflexivity|]. split; [reflexivity|].
  destruct (groups root) as [gs|].
  - destruct (fold_answerGroup_newly hints (labelsFor root) gs _ j r r' Hj Hc H1 H2)
      as (g & Hin & Hjg).
    eauto.
  - simpl in H1. congruence.
Qed.

Lemma selected_radio_belongs_to_a_group_witness :
  exists gs g, groups twoQuestionForm = Resolved gs /\ g ∈ gs /\ 1 ∈ groupRadios g.
Proof.
  apply (selected_radio_belongs_to_a_group (readAnswerHints noEnv) twoQuestionForm
           1 (radio "s-no" "sponsorship" true)
           (setChecked (radio "s-no" "sponsorship" true) true)
           eq_refl eq_refl eq_refl eq_refl).
Defined.

(** ** completeEasyApplyFlow: what its three results mean *)

Lemma existsb_isHumanAsked_app (a b : list EasyEvent) :
  existsb isHumanAsked (a ++ b) = existsb isHumanAsked a || existsb isHumanAsked b.
Proof. apply existsb_app. Qed.

(** The ways one pass through the loop body can go. *)
Lemma easyStep_case (step : nat) (v : EasyStepView) (m : bool) :
  let r := fst (easyStep step v m) in
  let evs := snd (easyStep step v m) in
  (r = EasyReturn Rejected /\ existsb isHumanAsked evs = false)
  \/ (r = EasyReturn (Resolved (if m then ManualHelp else Applied))
      /\ evs = [SubmitClicked step]
      /\ (confirmationShown v = true \/ modalStillOpen v = false))
  \/ (r = EasyBreak m /\ existsb isHumanAsked evs = false)
  \/ (r = EasyContinue m /\ existsb isHumanAsked evs = false)
  \/ (r = EasyContinue true /\ existsb isHumanAsked evs = true
      /\ length (List.filter isHumanAsked evs) = 1).
Proof.
  unfold easyStep, easyFillAndAdvance.
  destruct (submitVisible v), (submitClickWorks v), (confirmationShown v),
    (modalStillOpen v), (autoFillRejects v), (nextVisible v),
    (unresolvedRequired v) as [[]|], (validationError v);
    cbn [negb fst snd app existsb isHumanAsked orb List.filter length]; tauto.
Qed.

Lemma easyLoop_outcome (views : nat -> EasyStepView) (fuel : nat) :
  forall (step : nat) (m : bool),
    let r := fst (easyLoop views fuel step m) in
    let evs := snd (easyLoop views fuel step m) in
    (forall x, r = Resolved x ->
       (x = ManualHelp <-> m || existsb isHumanAsked evs = true)
       /\ (x = Applied ->
           exists pre s, evs = pre ++ [SubmitClicked s] /\ s < step + fuel
                         /\ (confirmationShown (views s) = true
                             \/ modalStillOpen (views s) = false)))
    /\ length (List.filter isHumanAsked evs) <= fuel.
Proof.
  induction fuel as [|fuel IH]; intros step m; cbn [easyLoop].
  - cbn [fst snd]. split; [|simpl; lia].
    intros x H. injection H as <-. destruct m; simpl; split;
      try tauto; try discriminate; split; intros; discriminate.
  - pose proof (easyStep_case step (views step) m) as Hcase.
    destruct (easyStep step (views step) m) as [r0 evs0]. cbv zeta in Hcase.
    cbn [fst snd] in Hcase.
    assert (forall l, existsb isHumanAsked l = false ->
                      length (List.filter isHumanAsked l) = 0) as Hnone.
    { induction l as [|e l IHl]; [reflexivity|]. simpl.
      destruct (isHumanAsked e); [discriminate|]. exact IHl. }
    destruct Hcase as [[-> Hno]|[(-> & -> & Hsub)|[[-> Hno]|[[-> Hno]|(-> & Hyes & Hone)]]]].
    + cbn [fst snd]. split; [intros x H; discriminate|]. rewrite (Hnone _ Hno). lia.
    + cbn [fst snd]. split; [|simpl; lia].
      intros x H. injection H as <-. split.
      * destruct m; simpl; split; try tauto; discriminate.
      * intros _. exists [], step. repeat split; [lia | assumption].
    + cbn [fst snd]. split; [|rewrite (Hnone _ Hno); lia].
      intros x H. injection H as <-. rewrite Hno, orb_false_r.
      destruct m; split; try tauto; try discriminate; split; intros; discriminate.
    + specialize (IH (S step) m).
      destruct (easyLoop views fuel (S step) m) as [r rest].
      cbv zeta in IH. cbn [fst snd] in *. destruct IH as [IH1 IH2]. split.
      * intros x H. destruct (IH1 x H) as [I1 I2].
        rewrite existsb_isHumanAsked_app, Hno. cbn [orb]. split; [assumption|].
        intros Hx. destruct (I2 Hx) as (pre & s & -> & Hs & Hsub).
        exists (evs0 ++ pre), s. rewrite <- app_assoc. repeat split; [lia | assumption].
      * rewrite List.filter_app, length_app, (Hnone _ Hno). lia.
    + specialize (IH (S step) true).
      destruct (easyLoop views fuel (S step) true) as [r rest].
      cbv zeta in IH. cbn [fst snd] in *. destruct IH as [IH1 IH2]. split.
      * intros x H. destruct (IH1 x H) as [I1 I2].
        rewrite existsb_isHumanAsked_app, Hyes, orb_true_r. split.
        -- split; [reflexivity|]. intros _. now apply I1.
        -- intros Hx. subst x. destruct I1 as [_ I1].
           specialize (I1 eq_refl). discriminate.
      * rewrite List.filter_app, length_app, Hone. lia.
Qed.

(** [manual-help] is reported exactly when the human was asked to step in
    during the flow, whether or not the application was submitted in the
    end. *)
Theorem manual_help_iff_human_was_asked (pagePresent modalOpened : bool)
    (views : nat -> EasyStepView) (x : EasyApplyResult) :
  fst (completeEasyApplyFlow pagePresent modalOpened views) = Resolved x ->
  (x = ManualHelp
   <-> existsb isHumanAsked
         (snd (completeEasyApplyFlow pagePresent modalOpened views)) = true).
Proof.
  unfold completeEasyApplyFlow.
  destruct pagePresent; cbn [negb].
  2:{ intros H. injection H as <-. simpl. split; discriminate. }
  destruct modalOpened; cbn [negb].
  2:{ intros H. injection H as <-. simpl. split; discriminate. }
  intros H. pose proof (easyLoop_outcome views 8 0 false) as [Hout _].
  cbv zeta in Hout. destruct (Hout x H) as [Hiff _]. exact Hiff.
Qed.

Lemma manual_help_iff_human_was_asked_witness :
  ManualHelp = ManualHelp
  <-> existsb isHumanAsked
        (snd (completeEasyApplyFlow true true (fun _ => stuckModal))) = true.
Proof.
  apply (manual_help_iff_human_was_asked true true (fun _ => stuckModal) ManualHelp).
  vm_compute. reflexivity.
Defined.

(** [applied] is only reported right after a click on the submit button
    that was followed by the confirmation or by the modal closing, in one
    of the eight passes, and never after the human was asked. *)
Theorem applied_follows_a_submit_click (pagePresent modalOpened : bool)
    (views : nat -> EasyStepView) :
  fst (completeEasyApplyFlow pagePresent modalOpened views) = Resolved Applied ->
  (exists pre s,
      snd (completeEasyApplyFlow pagePresent modalOpened views)
      = pre ++ [SubmitClicked s]
      /\ s < 8
      /\ (confirmationShown (views s) = true \/ modalStillOpen (views s) = false))
  /\ existsb isHumanAsked
       (snd (completeEasyApplyFlow pagePresent modalOpened views)) = false.
Proof.
  unfold completeEasyApplyFlow.
  destruct pagePresent; cbn [negb]; [|discriminate].
  destruct modalOpened; cbn [negb]; [|discriminate].
  intros H. pose proof (easyLoop_outcome views 8 0 false) as [Hout _].
  cbv zeta in Hout. destruct (Hout Applied H) as [Hiff Happ]. split.
  - destruct (Happ eq_refl) as (pre & s & Hevs & Hs & Hsub). exists pre, s.
    repeat split; [assumption | lia | assumption].
  - destruct (existsb isHumanAsked _); [|reflexivity].
    destruct Hiff as [_ Hiff]. specialize (Hiff eq_refl). discriminate.
Qed.

Lemma applied_follows_a_submit_click_witness :
  existsb isHumanAsked
    (snd (completeEasyApplyFlow true true (fun _ => oneStepModal))) = false.
Proof.
  apply (proj2 (applied_follows_a_submit_click true true (fun _ => oneStepModal)
                  eq_refl)).
Defined.

(** The human is asked to step in at most eight times for one job. *)
Theorem human_is_asked_at_most_eight_times (pagePresent modalOpened : bool)
    (views : nat -> EasyStepView) :
  length (List.filter isHumanAsked
            (snd (completeEasyApplyFlow pagePresent modalOpened views))) <= 8.
Proof.
  unfold completeEasyApplyFlow.
  destruct pagePresent; cbn [negb]; [|simpl; lia].
  destruct modalOpened; cbn [negb]; [|simpl; lia].
  apply (easyLoop_outcome views 8 0 false).
Qed.

(** ** selectBestOptionForField and the fill loop of external forms *)

Lemma bestOption_spec (hints : AnswerHints) (combined : string)
    (options : list SelectOption) (v : string) :
  bestOption hints combined options = Some v ->
  exists o, o ∈ options /\ v = default EmptyString (optionValue o)
            /\ Js.truthy (optionText o) = true
            /\ optionText o <> "select"
            /\ Js.includes (optionText o) "choose" = false
            /\ (Js.includes combined "sponsor" || Js.includes combined "visa"
                || Js.includes combined "relocat"
                || Js.includes combined "experience") = true.
Proof.
  induction options as [|o rest IH]; cbn [bestOption]; [discriminate|].
  cbv zeta.
  destruct (Js.truthy (optionText o)) eqn:Et; cbn [negb orb].
  2:{ intros H. destruct (IH H) as (o' & Hin & Hrest).
      exists o'. split; [now apply list_elem_of_further | exact Hrest]. }
  destruct (String.eqb_spec (optionText o) "select") as [Hsel|Hsel]; cbn [orb].
  { intros H. destruct (IH H) as (o' & Hin & Hrest).
    exists o'. split; [now apply list_elem_of_further | exact Hrest]. }
  destruct (Js.includes (optionText o) "choose") eqn:Ech.
  { intros H. destruct (IH H) as (o' & Hin & Hrest).
    exists o'. split; [now apply list_elem_of_further | exact Hrest]. }
  assert (forall b : bool,
             b = true -> Some (default EmptyString (optionValue o)) = Some v ->
             (Js.includes combined "sponsor" || Js.includes combined "visa"
              || Js.includes combined "relocat"
              || Js.includes combined "experience") = true ->
             exists o', o' ∈ o :: rest /\ v = default EmptyString (optionValue o')
                        /\ Js.truthy (optionText o') = true
                        /\ optionText o' <> "select"
                        /\ Js.includes (optionText o') "choose" = false
                        /\ (Js.includes combined "sponsor" || Js.includes combined "visa"
                            || Js.includes combined "relocat"
                            || Js.includes combined "experience") = true) as Hpick.
  { intros b _ Hv Hm. injection Hv as <-. exists o.
    split; [apply list_elem_of_here|]. repeat split; assumption. }
  destruct (_ && _) eqn:E1.
  { intros H. apply (Hpick true eq_refl H).
    apply andb_true_iff in E1 as [E1 _]. apply orb_true_iff in E1 as [-> | ->];
      [reflexivity | now rewrite orb_true_r]. }
  destruct (Js.includes combined "relocat" && _) eqn:E2.
  { intros H. apply (Hpick true eq_refl H).
    apply andb_true_iff in E2 as [-> _]. now rewrite !orb_true_r. }
  destruct (Js.includes combined "experience" && _) eqn:E3.
  { intros H. apply (Hpick true eq_refl H).
    apply andb_true_iff in E3 as [-> _]. now rewrite !orb_true_r. }
  intros H. destruct (IH H) as (o' & Hin & Hrest).
  exists o'. split; [now apply list_elem_of_further | exact Hrest].
Qed.



Lemma firstOptionValue_elem (options : list SelectOption) (v : string) :
  firstOptionValue options = Some v ->
  exists o, o ∈ options /\ default EmptyString (optionValue o) = v.
Proof.
  induction options as [|o rest IH]; cbn [firstOptionValue]; [discriminate|].
  cbv zeta. destruct (Js.truthy _).
  - intros H. injection H as <-. exists o. split; [apply list_elem_of_here | reflexivity].
  - intros H. destruct (IH H) as (o' & Hin & Hv).
    exists o'. split; [now apply list_elem_of_further | assumption].
Qed.

(** The loop over the inputs of an external form never types into a field
    that has a value, a radio, a checkbox or a [select]; it only ticks a
    checkbox that is not ticked; and in a [select] it only chooses the value
    of one of its options, when none is chosen yet. *)
Theorem external_fill_leaves_answered_fields_alone (f : FormInput) (st : Scraper) :
  match fst (externalFieldAction f st) with
  | LeaveAlone => True
  | FillText _ =>
      Js.truthy (inputValue f) = false
      /\ lowerAttr (inputType f) <> "radio"
      /\ lowerAttr (inputType f) <> "checkbox"
      /\ inputTag f <> Resolved "select"
      /\ inputTag f <> Rejected
  | TickCheckbox =>
      inputChecked f = false /\ lowerAttr (inputType f) = "checkbox"
  | ChooseOption v =>
      Js.truthy (inputValue f) = false
      /\ inputTag f = Resolved "select"
      /\ exists opts o, inputOptions f = Resolved opts /\ o ∈ opts
                        /\ default EmptyString (optionValue o) = v
  end.
Proof.
  unfold externalFieldAction.
  destruct (inputTag f) as [tag|]; [|exact I]. cbv zeta.
  destruct (String.eqb_spec tag "select") as [->|Htag].
  { destruct (Js.truthy (inputValue f)) eqn:Ev; [exact I|].
    destruct (selectBestOptionForField _ _ _) as [v|] eqn:Eb.
    - cbn [fst]. repeat split.
      unfold selectBestOptionForField in Eb.
      destruct (inputOptions f) as [opts|]; [|discriminate].
      destruct (bestOption_spec _ _ _ _ Eb) as (o & Hin & Hv & _).
      exists opts, o. auto.
    - destruct (inputOptions f) as [opts|]; [|exact I].
      destruct (firstOptionValue opts) as [v|] eqn:Ef; [|exact I].
      cbn [fst]. repeat split.
      destruct (firstOptionValue_elem _ _ Ef) as (o & Hin & Hv).
      exists opts, o. auto. }
  destruct (String.eqb_spec (lowerAttr (inputType f)) "radio") as [Hr|Hr]; [exact I|].
  destruct (String.eqb_spec (lowerAttr (inputType f)) "checkbox") as [Hc|Hc].
  { destruct (inputChecked f); [rewrite andb_false_r; exact I|].
    destruct (_ && _); cbn [fst]; auto. }
  destruct (Js.truthy (inputValue f)) eqn:Ev; [exact I|].
  assert (Resolved tag <> Resolved "select") as Hsel by congruence.
  assert (forall t : string,
             Js.truthy (inputValue f) = false /\ lowerAttr (inputType f) <> "radio"
             /\ lowerAttr (inputType f) <> "checkbox"
             /\ Resolved tag <> Resolved "select"
             /\ Resolved tag <> @Rejected string) as Hfill.
  { intros _. repeat split; try assumption; try discriminate. }
  rewrite Ev in Hfill.
  repeat match goal with
         | |- context [if ?b then _ else _] =>
             destruct b; cbn [fst]; try exact I; try apply (Hfill EmptyString)
         | |- context [let (_, _) := ?p in _] => destruct p
         end.
Qed.

Lemma envOr_truthy (v : option string) (d : string) :
  Js.truthy d = true -> Js.truthy (envOr v d) = true.
Proof.
  intros Hd. unfold envOr, Js.orElse. destruct v as [s|]; [|assumption].
  destruct (Js.truthy s) eqn:E; assumption.
Qed.

(** With the hints read from the environment, an empty field of type
    [number] whose description mentions no profile link and no place is
    always given a non-empty text. *)
Theorem number_field_is_always_filled (e : Env) (f : FormInput) (st : Scraper)
    (tag : string) :
  answerHints st = readAnswerHints e ->
  inputTag f = Resolved tag -> tag <> "select" ->
  lowerAttr (inputType f) = "number" ->
  Js.truthy (inputValue f) = false ->
  (Js.includes (externalCombined f) "linkedin"
   || Js.includes (externalCombined f) "portfolio"
   || Js.includes (externalCombined f) "website"
   || Js.includes (externalCombined f) "location"
   || Js.includes (externalCombined f) "city") = false ->
  exists t, fst (externalFieldAction f st) = FillText t /\ Js.truthy t = true.
Proof.
  intros Hh Htag Hsel Htype Hval Hkw.
  apply orb_false_iff in Hkw as [Hkw Hcity].
  apply orb_false_iff in Hkw as [Hkw Hloc].
  apply orb_false_iff in Hkw as [Hkw Hweb].
  apply orb_false_iff in Hkw as [Hlinked Hport].
  unfold externalFieldAction. rewrite Htag. cbv zeta.
  apply String.eqb_neq in Hsel. rewrite Hsel, Htype, Hval.
  rewrite Hlinked, Hport, Hweb, Hloc, Hcity. cbn [String.eqb Ascii.eqb Bool.eqb orb].
  destruct (Js.includes (externalCombined f) "name");
    [eexists; split; [reflexivity | now apply envOr_truthy]|].
  destruct (Js.includes (externalCombined f) "email");
    [eexists; split; [reflexivity | now apply envOr_truthy]|].
  destruct (Js.includes (externalCombined f) "phone"); cbn [orb];
    [eexists; split; [reflexivity | now apply envOr_truthy]|].
  destruct (Js.includes (externalCombined f) "experience");
    [eexists; split; [reflexivity | rewrite Hh; apply readAnswerHints_years]|].
  destruct (inferFieldAnswer (externalCombined f) "number" st) as [inferred st'].
  destruct inferred as [a|]; cbn [Js.truthyOpt].
  - destruct (Js.truthy a) eqn:Ea.
    + eexists; split; [reflexivity | exact Ea].
    + eexists; split; [reflexivity | rewrite Hh; apply readAnswerHints_years].
  - eexists; split; [reflexivity | rewrite Hh; apply readAnswerHints_years].
Qed.

Lemma number_field_is_always_filled_witness :
  exists t,
    fst (externalFieldAction (textInput (Some "number") "How many reports?" true)
           plainScraper) = FillText t
    /\ Js.truthy t = true.
Proof.
  apply (number_field_is_always_filled noEnv
           (textInput (Some "number") "How many reports?" true) plainScraper "input");
    try reflexivity.
  discriminate.
Defined.

(** The fields whose description can reach [inferFieldAnswer]. *)
Lemma inferFieldAnswer_calls_le (ctx ft : string) (st : Scraper) :
  length (llmCalls (snd (inferFieldAnswer ctx ft st))) <= S (length (llmCalls st)).
Proof.
  destruct (Js.truthyOpt (inferredAnswerCache st !! cacheKey ctx ft)) eqn:Ec.
  - unfold inferFieldAnswer. rewrite Ec. simpl. lia.
  - destruct (inferFieldAnswer_miss ctx ft st Ec)
      as [[_ [Hcalls|(c & p & _ & _ & Hcalls)]]|(c & p & _ & _ & _ & _ & Hcalls)];
      rewrite Hcalls; simpl; lia.
Qed.

Lemma externalFieldAction_calls (f : FormInput) (st : Scraper) :
  length (llmCalls (snd (externalFieldAction f st)))
  <= length (llmCalls st) + (if mayReachModel f then 1 else 0).
Proof.
  unfold externalFieldAction, mayReachModel.
  destruct (inputTag f) as [tag|]; [|simpl; lia]. cbv zeta.
  destruct (String.eqb tag "select").
  { destruct (Js.truthy (inputValue f)); [simpl; lia|].
    destruct (selectBestOptionForField _ _ _); [simpl; lia|].
    destruct (inputOptions f) as [opts|]; [|simpl; lia].
    destruct (firstOptionValue opts); simpl; lia. }
  destruct (String.eqb (lowerAttr (inputType f)) "radio"); [simpl; lia|].
  destruct (String.eqb (lowerAttr (inputType f)) "checkbox").
  { destruct (_ && _); simpl; lia. }
  destruct (Js.truthy (inputValue f)); [simpl; lia|]. cbn [negb andb].
  destruct (String.eqb (lowerAttr (inputType f)) "tel");
    rewrite ?orb_true_r, ?orb_false_r;
    repeat match goal with
           | |- context [Js.includes ?a ?b] =>
               destruct (Js.includes a b); cbn [orb]; try (cbn [snd]; lia)
           end.
  all: destruct (String.eqb (lowerAttr (inputType f)) "number"); cbn [orb].
  all: try (cbn [snd]; lia).
  { pose proof (inferFieldAnswer_calls_le (externalCombined f) "number" st) as H.
    destruct (inferFieldAnswer (externalCombined f) "number" st) as [inferred st'].
    cbn [snd] in H. destruct (Js.truthyOpt inferred); cbn [snd]; lia. }
  destruct (isRequired f); cbn [andb]; [|cbn [snd]; lia].
  destruct (_ || _); [|cbn [snd]; lia].
  pose proof (inferFieldAnswer_calls_le (externalCombined f) "text" st) as H.
  destruct (inferFieldAnswer (externalCombined f) "text" st) as [inferred st'].
  cbn [snd] in H. destruct (Js.truthyOpt inferred); cbn [snd]; lia.
Qed.

(** Filling an external form sends at most one prompt to the model for each
    empty element that is of type [number] or required, and none for any
    other element; every element gets exactly one decision. *)
Theorem model_is_consulted_once_per_open_field (fields : list FormInput)
    (st : Scraper) :
  length (llmCalls (snd (externalFieldActions fields st)))
  <= length (llmCalls st) + length (List.filter mayReachModel fields)
  /\ length (fst (externalFieldActions fields st)) = length fields.
Proof.
  revert st. induction fields as [|f rest IH]; intros st; cbn [externalFieldActions].
  - simpl. lia.
  - pose proof (externalFieldAction_calls f st) as Hf.
    destruct (externalFieldAction f st) as [a st1]. cbn [snd] in Hf.
    specialize (IH st1). destruct (externalFieldActions rest st1) as [acts st2].
    cbn [fst snd List.filter length] in *.
    destruct (mayReachModel f); cbn [length]; lia.
Qed.

(** ** hasUnresolvedRequiredFields *)

Lemma unresolvedAmong_elem (fields : list ModalField) (f : ModalField) :
  f ∈ fields ->
  fieldRequired f = true ->
  String.eqb (Js.toLowerCase (fieldTagName f)) "input" = true ->
  (String.eqb (Js.toLowerCase (fieldType f)) "checkbox"
   || String.eqb (Js.toLowerCase (fieldType f)) "radio") = true ->
  fieldChecked f = false ->
  unresolvedAmong fields = true.
Proof.
  intros Hin Hreq Htag Htype Hchk.
  induction fields as [|g rest IH]; [inversion Hin|].
  cbn [unresolvedAmong]. apply elem_of_cons in Hin as [<-|Hin].
  - now rewrite Hreq, Htag, Htype, Hchk.
  - repeat match goal with |- context [if ?b then _ else _] => destruct b end;
      auto.
Qed.

(** Every required radio is checked on its own: when two radios of the
    modal are marked as required and are not both selected, as for two
    options of one question, the modal always counts as unresolved. *)
Theorem two_required_radios_are_never_resolved (fields : list ModalField)
    (i j : nat) (r1 r2 : ModalField) :
  fields !! i = Some r1 -> fields !! j = Some r2 ->
  fieldRequired r1 = true -> fieldRequired r2 = true ->
  Js.toLowerCase (fieldTagName r1) = "input" ->
  Js.toLowerCase (fieldTagName r2) = "input" ->
  Js.toLowerCase (fieldType r1) = "radio" ->
  Js.toLowerCase (fieldType r2) = "radio" ->
  fieldChecked r1 && fieldChecked r2 = false ->
  hasUnresolvedRequiredFields true (Some fields) = true.
Proof.
  intros H1 H2 Hq1 Hq2 Ht1 Ht2 Hy1 Hy2 Hboth.
  apply list_elem_of_lookup_2 in H1, H2.
  unfold hasUnresolvedRequiredFields. cbn [negb].
  destruct (fieldChecked r1) eqn:E1.
  - simpl in Hboth. apply (unresolvedAmong_elem fields r2); auto.
    + now rewrite Ht2.
    + now rewrite Hy2.
  - apply (unresolvedAmong_elem fields r1); auto.
    + now rewrite Ht1.
    + now rewrite Hy1.
Qed.

Lemma two_required_radios_are_never_resolved_witness :
  hasUnresolvedRequiredFields true (Some [requiredRadio true; requiredRadio false])
  = true.
Proof.
  apply (two_required_radios_are_never_resolved
           [requiredRadio true; requiredRadio false] 0 1
           (requiredRadio true) (requiredRadio false)); reflexivity.
Defined.

(** ** autoFillForm: the loop over the inputs *)

(** The loop over the inputs of the Easy Apply modal never types into a
    field that has a value, and what it types is one of the three candidate
    details or a non-empty text: an unset hint or an empty answer is never
    typed.  It only ever types: no checkbox is ticked and no option chosen. *)
Theorem easy_fill_types_details_or_text (candidateName candidateEmail
    candidatePhone : string) (f : FormInput) (st : Scraper) :
  match fst (autoFillFormInput candidateName candidateEmail candidatePhone f st) with
  | LeaveAlone => True
  | FillText t =>
      Js.truthy (inputValue f) = false
      /\ (t = candidateName \/ t = candidateEmail \/ t = candidatePhone
          \/ Js.truthy t = true)
  | TickCheckbox => False
  | ChooseOption _ => False
  end.
Proof.
  unfold autoFillFormInput.
  destruct (inputTag f) as [tag|]; [|exact I]. cbv zeta.
  destruct (Js.truthy (inputValue f)) eqn:Ev; [exact I|].
  destruct (_ && _); [cbn [fst]; auto|].
  destruct (Js.includes (fieldStr f) "email"); [cbn [fst]; auto|].
  destruct (_ || _); [cbn [fst]; auto|].
  destruct (_ || _).
  { destruct (Js.truthy (currentLocation _)) eqn:E; cbn [fst]; auto. }
  destruct (Js.includes (fieldStr f) "linkedin").
  { destruct (Js.truthy (linkedInUrl _)) eqn:E; cbn [fst]; auto. }
  destruct (_ || _).
  { destruct (Js.truthy (portfolioUrl _)) eqn:E; cbn [fst]; auto. }
  destruct (autoFillFormFieldType _ _) as [ft|]; [|exact I].
  destruct (inferFieldAnswer (fieldStr f) ft st) as [[a|] st']; cbn [Js.truthyOpt];
    [|exact I].
  destruct (Js.truthy a) eqn:Ea; cbn [fst default]; auto.
Qed.

(** ** findApplyActionButton *)

Lemma findApplyFrom_spec (kind : ApplyKind) (candidates : list ApplyCandidate) :
  forall (i k : nat),
    findApplyFrom kind i candidates = Some k ->
    i <= k
    /\ exists c, candidates !! (k - i) = Some c
                 /\ candidateVisible c = true
                 /\ match kind with
                    | EasyKind => isEasyApply c = true
                    | ExternalKind => isExternalApply c = true
                    end.
Proof.
  induction candidates as [|c rest IH]; intros i k; cbn [findApplyFrom];
    [discriminate|].
  assert (findApplyFrom kind (S i) rest = Some k ->
          i <= k /\ exists c', (c :: rest) !! (k - i) = Some c'
                               /\ candidateVisible c' = true
                               /\ match kind with
                                  | EasyKind => isEasyApply c' = true
                                  | ExternalKind => isExternalApply c' = true
                                  end) as Hrest.
  { intros H. destruct (IH _ _ H) as (Hle & c' & Hl & Hrest).
    split; [lia|]. exists c'. split; [|exact Hrest].
    replace (k - i) with (S (k - S i)) by lia. exact Hl. }
  destruct (candidateVisible c) eqn:Ev; cbn [negb]; [|exact Hrest].
  destruct kind.
  - destruct (isEasyApply c) eqn:E; [|exact Hrest].
    intros H. injection H as <-. split; [lia|]. exists c.
    rewrite Nat.sub_diag. auto.
  - destruct (isExternalApply c) eqn:E; [|exact Hrest].
    intros H. injection H as <-. split; [lia|]. exists c.
    rewrite Nat.sub_diag. auto.
Qed.

(** When the Easy Apply button and the external apply button found on a
    card are the same element, its text mentions the company website or
    says "external": the fallback to the external route never goes back to
    a button that only says Easy Apply. *)
Theorem external_fallback_is_not_the_easy_button (candidates : list ApplyCandidate)
    (k : nat) :
  findApplyActionButton true EasyKind candidates = Some k ->
  findApplyActionButton true ExternalKind candidates = Some k ->
  exists c, candidates !! k = Some c
            /\ candidateVisible c = true
            /\ (Js.includes (applyCombined c) "company website"
                || Js.includes (applyCombined c) "external") = true.
Proof.
  unfold findApplyActionButton. cbn [negb]. intros He Hx.
  apply findApplyFrom_spec in He as (_ & c & Hc & Hv & Heasy).
  apply findApplyFrom_spec in Hx as (_ & c' & Hc' & _ & Hext).
  rewrite Nat.sub_0_r in Hc, Hc'. assert (c' = c) as -> by congruence.
  exists c. repeat split; try assumption.
  unfold isExternalApply in Hext. rewrite Heasy in Hext.
  now rewrite andb_false_r, orb_false_r in Hext.
Qed.

Lemma external_fallback_is_not_the_easy_button_witness :
  exists c, [applyButton "Easy Apply on company website"] !! 0 = Some c
            /\ candidateVisible c = true
            /\ (Js.includes (applyCombined c) "company website"
                || Js.includes (applyCombined c) "external") = true.
Proof.
  apply (external_fallback_is_not_the_easy_button
           [applyButton "Easy Apply on company website"] 0); reflexivity.
Defined.
